(** * refstack-client: test-list normalisation, CPID fallback, signed
      submission and paginated retrieval

    A shallow embedding of [refstack_client/list_parser.py] and of the
    submission and retrieval paths of [refstack_client/refstack_client.py],
    followed by the properties proved about them.

    Conventions of the embedding.
    - A Python [str] is a Rocq [string] holding its UTF-8 encoding, so
      [s.encode('utf-8')] is the string itself read as [bytes].  Every
      character the code searches for or splits at is ASCII, and an ASCII
      byte never occurs inside a multi-byte UTF-8 sequence, so searching
      the encoding finds what searching the code points finds.  (A [str]
      with an unpaired surrogate has no encoding and is not represented.)
    - A [dict] is an association list in insertion order with unique keys.
    - Exceptions, the logger, [print] and the HTTP requests that were sent
      are threaded through a state-and-error monad [M]; what the outside
      world answers (files, servers) is read from an [Env] record.
    - Definitions keep the names they have in the Python source. *)

From Stdlib Require Import List String Ascii ZArith Lia Bool Arith.
From Stdlib Require Import Numbers.DecimalString.
Import ListNotations.
Open Scope string_scope.

(* ================================================================= *)
(** ** The Python runtime the module relies on *)

Module Py.

(** Exceptions, by class; the payload is the message ([str(e)]). *)
Inductive exn : Type :=
| KeyError (key : string)
| IndexError
| TypeError (msg : string)
| ValueError (msg : string)
| AttributeError (msg : string)
| IOError (msg : string)
| UnsupportedAlgorithm (msg : string)
| MissingSchema (msg : string)
| HTTPError (msg : string)
| ConnectionError (msg : string)
| RuntimeError (msg : string).

Definition exn_str (e : exn) : string :=
  match e with
  | KeyError k => "'" ++ k ++ "'"
  | IndexError => "list index out of range"
  | TypeError m | ValueError m | AttributeError m | IOError m
  | UnsupportedAlgorithm m | MissingSchema m | HTTPError m
  | ConnectionError m | RuntimeError m => m
  end.

Inductive result (A : Type) : Type :=
| Ok (a : A)
| Raise (e : exn).
Arguments Ok {A} a.
Arguments Raise {A} e.

(** Logging levels of the [logging] module that the code uses;
    [logger.exception] records at [ERROR]. *)
Inductive level : Type := DEBUG | INFO | WARNING | ERROR.

Definition level_eqb (a b : level) : bool :=
  match a, b with
  | DEBUG, DEBUG | INFO, INFO | WARNING, WARNING | ERROR, ERROR => true
  | _, _ => false
  end.

Record http_request : Type := mk_request {
  rq_method : string;
  rq_url : string;
  rq_headers : list (string * string);
  rq_params : list (string * string);
  rq_data : option string;
  rq_verify : bool
}.

(** What the program has done to the outside so far. *)
Record world : Type := mk_world {
  w_log : list (level * string);
  w_http : list http_request;
  w_stdout : list string
}.

Definition empty_world : world := mk_world [] [] [].

Definition M (A : Type) : Type := world -> result A * world.

Definition ret {A} (a : A) : M A := fun w => (Ok a, w).

Definition bind {A B} (c : M A) (k : A -> M B) : M B :=
  fun w =>
    match c w with
    | (Ok a, w') => k a w'
    | (Raise e, w') => (Raise e, w')
    end.

Definition raise {A} (e : exn) : M A := fun w => (Raise e, w).

Definition lift {A} (r : result A) : M A := fun w => (r, w).

(** [try: body except <classes selected by handler>: ...]; an exception
    the handler does not select keeps propagating. *)
Definition try_except {A} (body : M A) (handler : exn -> option (M A)) : M A :=
  fun w =>
    match body w with
    | (Ok a, w') => (Ok a, w')
    | (Raise e, w') =>
        match handler e with
        | Some h => h w'
        | None => (Raise e, w')
        end
    end.

Definition logger_log (l : level) (msg : string) : M unit :=
  fun w => (Ok tt, mk_world (w_log w ++ [(l, msg)])%list (w_http w) (w_stdout w)).

Definition print (msg : string) : M unit :=
  fun w => (Ok tt, mk_world (w_log w) (w_http w) (w_stdout w ++ [msg])%list).

(** [for x in xs: st = body x st], the loop state passed along. *)
Fixpoint for_each {X S} (xs : list X) (body : X -> S -> M S) (st : S) : M S :=
  match xs with
  | [] => ret st
  | x :: xs' => bind (body x st) (for_each xs' body)
  end.

(** *** Strings *)

Definition LF : ascii := ascii_of_nat 10.

(** [c in s] for a one-character [c]. *)
Fixpoint str_contains (c : ascii) (s : string) : bool :=
  match s with
  | EmptyString => false
  | String a s' => if Ascii.eqb a c then true else str_contains c s'
  end.

(** [s.partition(c)] for a one-character [c]: the text before the first
    [c] and the text after it, or [None] when [c] does not occur. *)
Fixpoint str_partition (c : ascii) (s : string) : option (string * string) :=
  match s with
  | EmptyString => None
  | String a s' =>
      if Ascii.eqb a c then Some (EmptyString, s')
      else match str_partition c s' with
           | Some (p, r) => Some (String a p, r)
           | None => None
           end
  end.

(** [s.rpartition(c)]: the same at the last occurrence of [c]. *)
Fixpoint str_rpartition (c : ascii) (s : string) : option (string * string) :=
  match s with
  | EmptyString => None
  | String a s' =>
      match str_rpartition c s' with
      | Some (p, r) => Some (String a p, r)
      | None => if Ascii.eqb a c then Some (EmptyString, s') else None
      end
  end.

(** [s.split(c, 1)]. *)
Definition str_split1 (c : ascii) (s : string) : list string :=
  match str_partition c s with
  | Some (p, r) => [p; r]
  | None => [s]
  end.

(** [s.split(c)] for a one-character separator. *)
Fixpoint str_split (c : ascii) (s : string) : list string :=
  match s with
  | EmptyString => [EmptyString]
  | String a s' =>
      if Ascii.eqb a c then EmptyString :: str_split c s'
      else match str_split c s' with
           | [] => [String a EmptyString]
           | h :: t => String a h :: t
           end
  end.

(** Truth value of a [str]. *)
Definition truthy (s : string) : bool :=
  match s with EmptyString => false | _ => true end.

(** [str(n)] for a non-negative [int]. *)
Definition str_of_nat (n : nat) : string :=
  NilZero.string_of_uint (Nat.to_uint n).

(** [xs.append(x)], as the new value of [xs]. *)
Definition list_append {A} (xs : list A) (x : A) : list A := (xs ++ [x])%list.

(** [xs[i]]. *)
Definition list_getitem {A} (xs : list A) (i : nat) : M A :=
  match nth_error xs i with
  | Some a => ret a
  | None => raise IndexError
  end.

(** *** Dictionaries with [str] keys *)

Definition dict (V : Type) : Type := list (string * V).

Fixpoint dict_get {V} (d : dict V) (k : string) : option V :=
  match d with
  | [] => None
  | (k', v) :: d' => if String.eqb k' k then Some v else dict_get d' k
  end.

(** [d[k] = v]: an existing key keeps its place, a new one goes last. *)
Fixpoint dict_set {V} (d : dict V) (k : string) (v : V) : dict V :=
  match d with
  | [] => [(k, v)]
  | (k', v') :: d' =>
      if String.eqb k' k then (k', v) :: d' else (k', v') :: dict_set d' k v
  end.

Definition dict_keys {V} (d : dict V) : list string := map fst d.

(** [d[k]] as an expression. *)
Definition dict_getitem {V} (d : dict V) (k : string) : M V :=
  match dict_get d k with
  | Some v => ret v
  | None => raise (KeyError k)
  end.

(** *** The fragment of [re] that the module uses

    A pattern is a sequence of items, each a single-character matcher
    or its greedy repetition.  [\[] and [\]] are the literal brackets
    and [.] is any character but a line feed (no DOTALL flag is given).
    Matching is the backtracking of [re]: a star first takes as many
    characters as it can and gives them back one at a time until the
    rest of the pattern matches. *)
Module Re.

Inductive atom : Type :=
| Chr (c : ascii)
| AnyChar.

Inductive item : Type :=
| One (a : atom)
| Star (a : atom).

Definition pattern : Type := list item.

Definition atom_matches (a : atom) (c : ascii) : bool :=
  match a with
  | Chr x => Ascii.eqb c x
  | AnyChar => negb (Ascii.eqb c LF)
  end.

(** [a*] followed by the continuation [k]; the result is the number of
    characters matched. *)
Fixpoint match_star (a : atom) (k : string -> option nat) (s : string)
    : option nat :=
  match s with
  | EmptyString => k s
  | String c s' =>
      if atom_matches a c then
        match match_star a k s' with
        | Some n => Some (S n)
        | None => k s
        end
      else k s
  end.

(** The pattern anchored at the start of [s]. *)
Fixpoint match_here (p : pattern) (s : string) : option nat :=
  match p with
  | [] => Some 0
  | One a :: p' =>
      match s with
      | EmptyString => None
      | String c s' =>
          if atom_matches a c then option_map S (match_here p' s') else None
      end
  | Star a :: p' => match_star a (match_here p') s
  end.

(** A match object: where the match starts and how long it is. *)
Record match_object : Type := mk_match {
  m_string : string;
  m_start : nat;
  m_length : nat
}.

(** [m.group(0)]; it is also [m.group(1)] when the whole pattern is
    one parenthesised group. *)
Definition group (m : match_object) : string :=
  substring (m_start m) (m_length m) (m_string m).

Fixpoint search_from (p : pattern) (s : string) (pos : nat)
    : option (nat * nat) :=
  match match_here p s with
  | Some n => Some (pos, n)
  | None =>
      match s with
      | EmptyString => None
      | String _ s' => search_from p s' (S pos)
      end
  end.

(** [re.search(p, s)]: the leftmost match. *)
Definition search (p : pattern) (s : string) : option match_object :=
  match search_from p s 0 with
  | Some (i, n) => Some (mk_match s i n)
  | None => None
  end.

(** [re.sub(p, repl, s)] for a literal [repl]: every non-overlapping
    match, leftmost first, is replaced.  [skip] counts the characters
    of the current match that are still to be dropped. *)
Fixpoint sub_from (p : pattern) (repl : string) (s : string) (skip : nat)
    : string :=
  match s, skip with
  | EmptyString, S _ => EmptyString
  | EmptyString, O =>
      match match_here p EmptyString with
      | Some _ => repl
      | None => EmptyString
      end
  | String c s', S k => sub_from p repl s' k
  | String c s', O =>
      match match_here p s with
      | Some (S n) => repl ++ sub_from p repl s' n
      | Some O => repl ++ String c (sub_from p repl s' 0)
      | None => String c (sub_from p repl s' 0)
      end
  end.

Definition sub (p : pattern) (repl : string) (s : string) : string :=
  sub_from p repl s 0.

End Re.

End Py.

Import Py.

Declare Scope py_scope.
Delimit Scope py_scope with py.
Notation "x <- c ;; k" := (bind c (fun x => k))
  (at level 61, c at next level, right associativity) : py_scope.
Notation "c ;;; k" := (bind c (fun _ => k))
  (at level 61, right associativity) : py_scope.
Open Scope py_scope.


(* ================================================================= *)
(** ** Library functions the client calls *)

(** [bytes] are Rocq strings: one [ascii] is one octet. *)
Definition bytes : Type := string.

Definition encode_utf8 (s : string) : bytes := s.

Definition octets (b : bytes) : list Z :=
  map (fun c => Z.of_N (N_of_ascii c)) (list_ascii_of_string b).

Definition of_octets (l : list Z) : bytes :=
  string_of_list_ascii (map (fun z => ascii_of_N (Z.to_N z)) l).

(** [binascii.b2a_hex] and [hexdigest]: two lower-case digits an octet. *)
Module Hex.

Definition digit (n : Z) : ascii :=
  if (n <? 10)%Z then ascii_of_N (Z.to_N (48 + n))
  else ascii_of_N (Z.to_N (87 + n)).

Fixpoint of_octets (l : list Z) : string :=
  match l with
  | [] => EmptyString
  | b :: l' =>
      String (digit (Z.shiftr b 4))
        (String (digit (Z.land b 15)) (of_octets l'))
  end.

Definition is_digit (c : ascii) : bool :=
  let n := N_of_ascii c in
  ((48 <=? n) && (n <=? 57) || (97 <=? n) && (n <=? 102))%N.

Fixpoint is_hex (s : string) : bool :=
  match s with
  | EmptyString => true
  | String c s' => is_digit c && is_hex s'
  end.

End Hex.

Definition b2a_hex (b : bytes) : string := Hex.of_octets (octets b).

(** [hashlib.md5], after RFC 1321, on 32-bit words held in [Z]. *)
Module MD5.

Local Open Scope Z_scope.

Definition mask32 : Z := 0xFFFFFFFF.

Definition add32 (a b : Z) : Z := Z.land (a + b) mask32.

Definition not32 (a : Z) : Z := Z.lxor a mask32.

Definition rotl32 (x c : Z) : Z :=
  Z.lor (Z.land (Z.shiftl x c) mask32) (Z.shiftr x (32 - c)).

Definition shifts : list Z :=
  [7; 12; 17; 22; 7; 12; 17; 22; 7; 12; 17; 22; 7; 12; 17; 22;
   5; 9; 14; 20; 5; 9; 14; 20; 5; 9; 14; 20; 5; 9; 14; 20;
   4; 11; 16; 23; 4; 11; 16; 23; 4; 11; 16; 23; 4; 11; 16; 23;
   6; 10; 15; 21; 6; 10; 15; 21; 6; 10; 15; 21; 6; 10; 15; 21].

Definition sines : list Z :=
  [0xd76aa478; 0xe8c7b756; 0x242070db; 0xc1bdceee; 0xf57c0faf; 0x4787c62a;
   0xa8304613; 0xfd469501; 0x698098d8; 0x8b44f7af; 0xffff5bb1; 0x895cd7be;
   0x6b901122; 0xfd987193; 0xa679438e; 0x49b40821; 0xf61e2562; 0xc040b340;
   0x265e5a51; 0xe9b6c7aa; 0xd62f105d; 0x02441453; 0xd8a1e681; 0xe7d3fbc8;
   0x21e1cde6; 0xc33707d6; 0xf4d50d87; 0x455a14ed; 0xa9e3e905; 0xfcefa3f8;
   0x676f02d9; 0x8d2a4c8a; 0xfffa3942; 0x8771f681; 0x6d9d6122; 0xfde5380c;
   0xa4beea44; 0x4bdecfa9; 0xf6bb4b60; 0xbebfbc70; 0x289b7ec6; 0xeaa127fa;
   0xd4ef3085; 0x04881d05; 0xd9d4d039; 0xe6db99e5; 0x1fa27cf8; 0xc4ac5665;
   0xf4292244; 0x432aff97; 0xab9423a7; 0xfc93a039; 0x655b59c3; 0x8f0ccc92;
   0xffeff47d; 0x85845dd1; 0x6fa87e4f; 0xfe2ce6e0; 0xa3014314; 0x4e0811a1;
   0xf7537e82; 0xbd3af235; 0x2ad7d2bb; 0xeb86d391].

(** The message, a 1 bit, zeros up to 56 modulo 64 octets, and the bit
    length as 64 bits, least significant octet first. *)
Definition le_octets (n : nat) (x : Z) : list Z :=
  map (fun i => Z.land (Z.shiftr x (8 * Z.of_nat i)) 255) (seq 0 n).

Definition pad (msg : list Z) : list Z :=
  let len := Z.of_nat (List.length msg) in
  (msg ++ [128] ++ repeat 0 (Z.to_nat ((55 - len) mod 64))
       ++ le_octets 8 (8 * len))%list.

Fixpoint words (l : list Z) : list Z :=
  match l with
  | a :: b :: c :: d :: rest =>
      Z.lor a (Z.lor (Z.shiftl b 8) (Z.lor (Z.shiftl c 16) (Z.shiftl d 24)))
        :: words rest
  | _ => []
  end.

Fixpoint blocks (fuel : nat) (ws : list Z) : list (list Z) :=
  match fuel, ws with
  | S f, _ :: _ => firstn 16 ws :: blocks f (skipn 16 ws)
  | _, _ => []
  end.

Definition state : Type := (Z * Z * Z * Z)%type.

Definition step (m : list Z) (st : state) (i : nat) : state :=
  let '(a, b, c, d) := st in
  let '(f, g) :=
    if (i <? 16)%nat then
      (Z.lor (Z.land b c) (Z.land (not32 b) d), i)
    else if (i <? 32)%nat then
      (Z.lor (Z.land d b) (Z.land (not32 d) c), ((5 * i + 1) mod 16)%nat)
    else if (i <? 48)%nat then
      (Z.lxor b (Z.lxor c d), ((3 * i + 5) mod 16)%nat)
    else
      (Z.lxor c (Z.lor b (not32 d)), ((7 * i) mod 16)%nat) in
  let f := add32 (add32 (add32 f a) (nth i sines 0)) (nth g m 0) in
  (d, add32 b (rotl32 f (nth i shifts 0)), b, c).

Definition process (st : state) (m : list Z) : state :=
  let '(a0, b0, c0, d0) := st in
  let '(a, b, c, d) := fold_left (step m) (seq 0 64) st in
  (add32 a0 a, add32 b0 b, add32 c0 c, add32 d0 d).

Definition init : state := (0x67452301, 0xefcdab89, 0x98badcfe, 0x10325476).

Definition digest_octets (msg : list Z) : list Z :=
  let ws := words (pad msg) in
  let '(a, b, c, d) := fold_left process (blocks (List.length ws) ws) init in
  (le_octets 4 a ++ le_octets 4 b ++ le_octets 4 c ++ le_octets 4 d)%list.

(** [hashlib.md5(data).hexdigest()]. *)
Definition hexdigest (data : bytes) : string :=
  Hex.of_octets (digest_octets (octets data)).

End MD5.

(** [hashes.SHA256], after FIPS 180-4, on 32-bit words held in [Z]. *)
Module SHA256.

Local Open Scope Z_scope.

Definition mask32 : Z := 0xFFFFFFFF.

Definition add32 (a b : Z) : Z := Z.land (a + b) mask32.

Definition not32 (a : Z) : Z := Z.lxor a mask32.

Definition rotr32 (x c : Z) : Z :=
  Z.lor (Z.shiftr x c) (Z.land (Z.shiftl x (32 - c)) mask32).

(** The first [n] primes. *)
Definition is_prime (n : nat) : bool :=
  forallb (fun d => negb (Nat.eqb (Nat.modulo n d) 0)) (seq 2 (n - 2)).

Definition primes (n : nat) : list Z :=
  map Z.of_nat (firstn n (filter is_prime (seq 2 310))).

(** Integer cube root, one bit at a time from bit 40 down. *)
Definition cube_root (n : Z) : Z :=
  fold_left
    (fun r b => let r' := r + 2 ^ Z.of_nat (40 - b) in
                if r' * r' * r' <=? n then r' else r)
    (seq 0 41) 0.

(** The round constants: the first 32 bits of the fractional parts of the
    cube roots of the first sixty-four primes. *)
Definition constants : list Z :=
  Eval vm_compute in
    map (fun p => Z.land (cube_root (p * 2 ^ 96)) mask32) (primes 64).

(** The initial hash value: the same of the square roots of the first
    eight primes. *)
Definition init : list Z :=
  Eval vm_compute in
    map (fun p => Z.land (Z.sqrt (p * 2 ^ 64)) mask32) (primes 8).

(** Octets of [x], most significant first. *)
Definition be_octets (n : nat) (x : Z) : list Z :=
  map (fun i => Z.land (Z.shiftr x (8 * Z.of_nat (n - 1 - i))) 255) (seq 0 n).

Definition pad (msg : list Z) : list Z :=
  let len := Z.of_nat (List.length msg) in
  (msg ++ [128] ++ repeat 0 (Z.to_nat ((55 - len) mod 64))
       ++ be_octets 8 (8 * len))%list.

Fixpoint words (l : list Z) : list Z :=
  match l with
  | a :: b :: c :: d :: rest =>
      Z.lor (Z.shiftl a 24) (Z.lor (Z.shiftl b 16) (Z.lor (Z.shiftl c 8) d))
        :: words rest
  | _ => []
  end.

Fixpoint blocks (fuel : nat) (ws : list Z) : list (list Z) :=
  match fuel, ws with
  | S f, _ :: _ => firstn 16 ws :: blocks f (skipn 16 ws)
  | _, _ => []
  end.

Definition ssig0 (x : Z) : Z :=
  Z.lxor (rotr32 x 7) (Z.lxor (rotr32 x 18) (Z.shiftr x 3)).
Definition ssig1 (x : Z) : Z :=
  Z.lxor (rotr32 x 17) (Z.lxor (rotr32 x 19) (Z.shiftr x 10)).
Definition bsig0 (x : Z) : Z :=
  Z.lxor (rotr32 x 2) (Z.lxor (rotr32 x 13) (rotr32 x 22)).
Definition bsig1 (x : Z) : Z :=
  Z.lxor (rotr32 x 6) (Z.lxor (rotr32 x 11) (rotr32 x 25)).

(** The message schedule: sixteen words of the block, then forty-eight
    derived ones. *)
Definition extend (w : list Z) (t : nat) : list Z :=
  (w ++ [add32 (add32 (ssig1 (nth (t - 2) w 0)) (nth (t - 7) w 0))
               (add32 (ssig0 (nth (t - 15) w 0)) (nth (t - 16) w 0))])%list.

Definition schedule (m : list Z) : list Z := fold_left extend (seq 16 48) m.

Definition round (w : list Z) (st : list Z) (t : nat) : list Z :=
  match st with
  | [a; b; c; d; e; f; g; h] =>
      let ch := Z.lxor (Z.land e f) (Z.land (not32 e) g) in
      let maj := Z.lxor (Z.land a b) (Z.lxor (Z.land a c) (Z.land b c)) in
      let t1 := add32 (add32 (add32 h (bsig1 e)) (add32 ch (nth t constants 0)))
                      (nth t w 0) in
      let t2 := add32 (bsig0 a) maj in
      [add32 t1 t2; a; b; c; add32 d t1; e; f; g]
  | _ => st
  end.

Definition process (st : list Z) (m : list Z) : list Z :=
  let w := schedule m in
  map (fun p => add32 (fst p) (snd p))
      (combine st (fold_left (round w) (seq 0 64) st)).

Definition digest_octets (msg : list Z) : list Z :=
  let ws := words (pad msg) in
  flat_map (be_octets 4) (fold_left process (blocks (List.length ws) ws) init).

Definition digest (data : bytes) : bytes := of_octets (digest_octets (octets data)).

End SHA256.

(** RSASSA-PKCS1-v1_5 with SHA-256, after RFC 8017 section 8.2.1. *)
Module RSA.

Local Open Scope Z_scope.

Record private_numbers : Type := mk_private {
  rsa_n : Z;   (** modulus *)
  rsa_e : Z;   (** public exponent *)
  rsa_d : Z    (** private exponent *)
}.

Fixpoint pow_mod_pos (b : Z) (e : positive) (n : Z) : Z :=
  match e with
  | xH => b mod n
  | xO e' => let r := pow_mod_pos b e' n in (r * r) mod n
  | xI e' => let r := pow_mod_pos b e' n in (r * r * b) mod n
  end.

Definition pow_mod (b e n : Z) : Z :=
  match e with
  | Zpos p => pow_mod_pos b p n
  | _ => 1 mod n
  end.

(** Length of the modulus in octets. *)
Definition modulus_octets (n : Z) : nat := Z.to_nat ((Z.log2 n + 8) / 8).

Definition os2ip (l : list Z) : Z :=
  fold_left (fun acc b => 256 * acc + b) l 0.

Definition i2osp (x : Z) (k : nat) : list Z :=
  map (fun i => Z.land (Z.shiftr x (8 * Z.of_nat (k - 1 - i))) 255) (seq 0 k).

(** DER prefix of the DigestInfo of SHA-256. *)
Definition sha256_prefix : list Z :=
  [0x30; 0x31; 0x30; 0x0d; 0x06; 0x09; 0x60; 0x86; 0x48; 0x01; 0x65;
   0x03; 0x04; 0x02; 0x01; 0x05; 0x00; 0x04; 0x20].

(** EMSA-PKCS1-v1_5 encoding: [00 01 FF .. FF 00 T], the padding fixed
    by the lengths alone. *)
Definition emsa_pkcs1_v15 (digest : list Z) (k : nat) : option (list Z) :=
  let t := (sha256_prefix ++ digest)%list in
  if (k <? List.length t + 11)%nat then None
  else Some ([0; 1] ++ repeat 255 (k - List.length t - 3) ++ [0] ++ t)%list.

Definition sign_pkcs1_v15 (key : private_numbers) (message : bytes)
    : result bytes :=
  let k := modulus_octets (rsa_n key) in
  match emsa_pkcs1_v15 (SHA256.digest_octets (octets message)) k with
  | None => Raise (ValueError "Digest too large for key size. Use a larger key.")
  | Some em =>
      Ok (of_octets (i2osp (pow_mod (os2ip em) (rsa_d key) (rsa_n key)) k))
  end.

End RSA.

(* ================================================================= *)
(** ** The outside world: files, HTTP, JSON *)

(** Values of [json.loads]; numbers are the integers, which is what the
    pagination metadata holds. *)
Module Json.

#[local] Set Warnings "-register-all".

Inductive value : Type :=
| JNull
| JBool (b : bool)
| JInt (z : Z)
| JStr (s : string)
| JArr (l : list value)
| JObj (fields : list (string * value)).

(** [v[key]]. *)
Definition getitem (v : value) (key : string) : M value :=
  match v with
  | JObj fields => dict_getitem fields key
  | JArr _ => raise (TypeError "list indices must be integers or slices, not str")
  | JStr _ => raise (TypeError "string indices must be integers")
  | _ => raise (TypeError "object is not subscriptable")
  end.

(** [v.get(key, default)]. *)
Definition get (v : value) (key : string) (default : value) : M value :=
  match v with
  | JObj fields =>
      match dict_get fields key with
      | Some x => ret x
      | None => ret default
      end
  | _ => raise (AttributeError "object has no attribute 'get'")
  end.

(** [v == n] for an [int] [n]; [True] and [False] compare as 1 and 0. *)
Definition eq_int (v : value) (n : Z) : bool :=
  match v with
  | JInt z => Z.eqb z n
  | JBool b => Z.eqb (if b then 1 else 0) n
  | _ => false
  end.

End Json.

(** A [requests.Response]. *)
Record http_response : Type := mk_response {
  r_status_code : Z;
  r_reason : string;
  r_url : string;
  r_text : string;
  r_json : result Json.value   (** [r.json()] *)
}.

(** An open text file: what [read()] or the iteration over it gives. *)
Record file : Type := mk_file {
  f_repr : string;             (** [str(f)] *)
  f_read : result string
}.

(** What the outside answers.  The server sees the requests made so far. *)
Record Env : Type := mk_env {
  env_http : list http_request -> http_request -> result http_response;
  env_open : string -> result file
}.

Definition str_of_Z (z : Z) : string := NilZero.string_of_int (Z.to_int z).

(** [requests.get] and [requests.post]: the request is recorded and the
    environment answers it. *)
Definition requests_send (env : Env) (rq : http_request) : M http_response :=
  fun w =>
    (env_http env (w_http w) rq,
     mk_world (w_log w) (w_http w ++ [rq])%list (w_stdout w)).

Definition requests_get (env : Env) (url : string) (headers : dict string)
    (params : dict string) (verify : bool) : M http_response :=
  requests_send env (mk_request "GET" url headers params None verify).

Definition requests_post (env : Env) (url : string) (data : string)
    (headers : dict string) (verify : bool) : M http_response :=
  requests_send env (mk_request "POST" url headers [] (Some data) verify).

(** [r.raise_for_status()]. *)
Definition raise_for_status (r : http_response) : M unit :=
  let st := r_status_code r in
  if ((400 <=? st) && (st <? 500))%Z then
    raise (HTTPError (str_of_Z st ++ " Client Error: " ++ r_reason r
                        ++ " for url: " ++ r_url r))
  else if ((500 <=? st) && (st <? 600))%Z then
    raise (HTTPError (str_of_Z st ++ " Server Error: " ++ r_reason r
                        ++ " for url: " ++ r_url r))
  else ret tt.

Definition open_ (env : Env) (path : string) : M file :=
  lift (env_open env path).

(** The lines a text file iterates over, each with its line feed. *)
Fixpoint file_lines (text : string) : list string :=
  match text with
  | EmptyString => []
  | String a text' =>
      if Ascii.eqb a LF then String a EmptyString :: file_lines text'
      else match file_lines text' with
           | [] => [String a EmptyString]
           | h :: t => String a h :: t
           end
  end.

(** [s.rstrip(c)] for a one-character [c]. *)
Fixpoint str_rstrip (c : ascii) (s : string) : string :=
  match s with
  | EmptyString => EmptyString
  | String a s' =>
      match str_rstrip c s' with
      | EmptyString => if Ascii.eqb a c then EmptyString else String a EmptyString
      | r => String a r
      end
  end.
(* ================================================================= *)
(** ** The process: files, subprocesses, the console, exit handlers

    The methods below also write files, start subprocesses, read the
    console and register exit handlers.  They run in a second monad [P]
    over the process state [proc], which holds a [world]; a computation of
    [M] runs in it through [run_m].

    The files are the regular files, each with its octets; every file
    that is there can be read, directories are not represented, and a
    subprocess leaves the files alone.  Text files are read as UTF-8, the
    encoding of the locale. *)

Module Proc.

(** What ends a computation: an exception of [exn], or one of the three
    other ways these methods meet. *)
Inductive failure : Type :=
| Exc (e : exn)
| CalledProcessError (returncode : Z) (cmd : string)
| EOFError
| SystemExit (code : Z).

Inductive outcome (A : Type) : Type :=
| Val (a : A)
| Fail (f : failure).
Arguments Val {A} a.
Arguments Fail {A} f.

(** What the operator does at a prompt: a line and Enter, or Ctrl-C
    ([KeyboardInterrupt], which both callers of [input] catch). *)
Inductive console_input : Type :=
| Line (text : string)
| Interrupt.

Record proc : Type := mk_proc {
  p_world : world;
  p_files : dict bytes;            (** the files, by path *)
  p_atexit : list string;          (** paths handed to [atexit.register]
                                       with [_remove_test_list_file] *)
  p_spawned : list (list string * string);
                                   (** the commands started, each with its
                                       working directory *)
  p_prompts : list string;         (** the prompts written by [input] *)
  p_stdin : list console_input     (** what the operator is going to do *)
}.

Definition set_world (p : proc) (w : world) : proc :=
  mk_proc w (p_files p) (p_atexit p) (p_spawned p) (p_prompts p) (p_stdin p).

Definition set_files (p : proc) (files : dict bytes) : proc :=
  mk_proc (p_world p) files (p_atexit p) (p_spawned p) (p_prompts p)
    (p_stdin p).

(** A finished subprocess whose standard output went to a pipe. *)
Record completed : Type := mk_completed {
  returncode : Z;
  stdout : bytes
}.

(** What the operating system and the remote servers answer.  A
    subprocess is a function of its command, of its directory and of the
    commands started before it; [sys_mktemp] is the path
    [tempfile.NamedTemporaryFile] picks, given the files there are;
    [sys_subunit] is [SubunitProcessor(path).process_stream()], whose
    module is not part of this development. *)
Record Sys : Type := mk_sys {
  sys_http : list http_request -> http_request -> result http_response;
  sys_popen : list (list string * string) -> list string -> string ->
              result completed;
  sys_mktemp : dict bytes -> string;
  sys_subunit : string -> result (list Json.value)
}.

Definition P (A : Type) : Type := proc -> outcome A * proc.

Definition pret {A} (a : A) : P A := fun p => (Val a, p).

Definition pbind {A B} (c : P A) (k : A -> P B) : P B :=
  fun p =>
    match c p with
    | (Val a, p') => k a p'
    | (Fail f, p') => (Fail f, p')
    end.

Definition pfail {A} (f : failure) : P A := fun p => (Fail f, p).

(** A computation of [M], run on the world of the process. *)
Definition run_m {A} (c : M A) : P A :=
  fun p =>
    match c (p_world p) with
    | (Ok a, w) => (Val a, set_world p w)
    | (Raise e, w) => (Fail (Exc e), set_world p w)
    end.

(** *** Bytes and text *)

Definition CR : ascii := ascii_of_nat 13.
Definition TAB : ascii := ascii_of_nat 9.
Definition DQUOTE : ascii := ascii_of_nat 34.
Definition BACKSLASH : ascii := ascii_of_nat 92.

(** Strict UTF-8 (RFC 3629), as [bytes.decode()] checks it: [pending]
    lists the ranges the next continuation octets must lie in. *)
Fixpoint utf8_scan (s : bytes) (pending : list (N * N)) : bool :=
  match s with
  | EmptyString => match pending with [] => true | _ => false end
  | String c s' =>
      let n := N_of_ascii c in
      let cont := (128, 191)%N in
      match pending with
      | (lo, hi) :: rest => ((lo <=? n) && (n <=? hi))%N && utf8_scan s' rest
      | [] =>
          if (n <=? 127)%N then utf8_scan s' []
          else if ((194 <=? n) && (n <=? 223))%N then utf8_scan s' [cont]
          else if (n =? 224)%N then utf8_scan s' [(160, 191)%N; cont]
          else if (((225 <=? n) && (n <=? 236)) || ((238 <=? n) && (n <=? 239)))%N
               then utf8_scan s' [cont; cont]
          else if (n =? 237)%N then utf8_scan s' [(128, 159)%N; cont]
          else if (n =? 240)%N then utf8_scan s' [(144, 191)%N; cont; cont]
          else if ((241 <=? n) && (n <=? 243))%N then utf8_scan s' [cont; cont; cont]
          else if (n =? 244)%N then utf8_scan s' [(128, 143)%N; cont; cont]
          else false
      end
  end.

Definition utf8_valid (s : bytes) : bool := utf8_scan s [].

(** [b.decode()]: the text whose encoding [b] is.  The message of the
    [UnicodeDecodeError], a [ValueError], is cut short. *)
Definition decode_utf8 (b : bytes) : result string :=
  if utf8_valid b then Ok b
  else Raise (ValueError "'utf-8' codec can't decode bytes").

(** The newline translation of a file read in text mode: "\r\n" and a
    lone "\r" both come out as "\n".  [after_cr] says that the octet
    before was a carriage return. *)
Fixpoint universal_newlines (s : string) (after_cr : bool) : string :=
  match s with
  | EmptyString => EmptyString
  | String c s' =>
      if Ascii.eqb c CR then String LF (universal_newlines s' true)
      else if Ascii.eqb c LF then
        if after_cr then universal_newlines s' false
        else String LF (universal_newlines s' false)
      else String c (universal_newlines s' false)
  end.

(** [repr(b)], which is also [str(b)] and ['%s' % b], for [bytes]. *)
Definition repr_octet (quote : ascii) (c : ascii) : string :=
  if Ascii.eqb c quote || Ascii.eqb c BACKSLASH then String BACKSLASH (String c "")
  else if Ascii.eqb c TAB then String BACKSLASH "t"
  else if Ascii.eqb c LF then String BACKSLASH "n"
  else if Ascii.eqb c CR then String BACKSLASH "r"
  else if (N_of_ascii c <? 32)%N || (127 <=? N_of_ascii c)%N then
    String BACKSLASH ("x" ++ Hex.of_octets [Z.of_N (N_of_ascii c)])
  else String c "".

Fixpoint repr_octets (quote : ascii) (b : bytes) : string :=
  match b with
  | EmptyString => EmptyString
  | String c b' => repr_octet quote c ++ repr_octets quote b'
  end.

Definition bytes_repr (b : bytes) : string :=
  let quote :=
    if str_contains "'" b && negb (str_contains DQUOTE b) then DQUOTE
    else "'"%char in
  "b" ++ String quote (repr_octets quote b ++ String quote "").

(** *** Paths and files *)

Fixpoint str_endswith (c : ascii) (s : string) : bool :=
  match s with
  | EmptyString => false
  | String a EmptyString => Ascii.eqb a c
  | String _ s' => str_endswith c s'
  end.

(** [os.path.join(a, b)] of [posixpath]. *)
Definition path_join (a b : string) : string :=
  match b with
  | String "/" _ => b
  | _ => if negb (truthy a) || str_endswith "/" a then a ++ b
         else a ++ "/" ++ b
  end.

(** [del d[k]]. *)
Definition dict_del {V} (d : dict V) (k : string) : dict V :=
  filter (fun kv => negb (String.eqb (fst kv) k)) d.

Definition has_file (files : dict bytes) (path : string) : bool :=
  match dict_get files path with Some _ => true | None => false end.

(** [os.path.isfile(path)]; it is [os.path.exists] as well, directories
    being no part of [p_files]. *)
Definition isfile (path : string) : P bool :=
  fun p => (Val (has_file (p_files p) path), p).

(** [os.remove(path)]. *)
Definition os_remove (path : string) : P unit :=
  fun p =>
    if has_file (p_files p) path
    then (Val tt, set_files p (dict_del (p_files p) path))
    else (Fail (Exc (IOError ("[Errno 2] No such file or directory: '"
                              ++ path ++ "'"))), p).

(** The text a file gives when it is read in text mode. *)
Definition read_text (content : bytes) : result string :=
  match decode_utf8 content with
  | Ok text => Ok (universal_newlines text false)
  | Raise e => Raise e
  end.

(** [open(path)] on the files of the process. *)
Definition open_file (files : dict bytes) (path : string) : result file :=
  match dict_get files path with
  | Some content => Ok (mk_file ("<file '" ++ path ++ "'>") (read_text content))
  | None => Raise (IOError ("[Errno 2] No such file or directory: '"
                            ++ path ++ "'"))
  end.

(** The environment the methods of [M] see from inside the process. *)
Definition env_of (sys : Sys) (files : dict bytes) : Env :=
  mk_env (sys_http sys) (open_file files).

(** A computation of [M] that reads the environment. *)
Definition run_env {A} (sys : Sys) (c : Env -> M A) : P A :=
  fun p => run_m (c (env_of sys (p_files p))) p.

(** *** Subprocesses *)

(** [subprocess.Popen(cmd, stdout=subprocess.PIPE, cwd=cwd)], with the
    result [communicate()] is going to give.  A command that cannot be
    started raises at once. *)
Definition popen (sys : Sys) (cmd : list string) (cwd : string) : P completed :=
  fun p =>
    match sys_popen sys (p_spawned p) cmd cwd with
    | Ok r =>
        (Val r,
         mk_proc (p_world p) (p_files p) (p_atexit p)
           (p_spawned p ++ [(cmd, cwd)])%list (p_prompts p) (p_stdin p))
    | Raise e => (Fail (Exc e), p)
    end.

(** *** The console and exit *)

(** [input(prompt)]: the prompt is written and the operator answers; at
    the end of the input the call raises [EOFError]. *)
Definition input (prompt : string) : P console_input :=
  fun p =>
    let p' := mk_proc (p_world p) (p_files p) (p_atexit p) (p_spawned p)
                (p_prompts p ++ [prompt])%list (p_stdin p) in
    match p_stdin p with
    | [] => (Fail EOFError, p')
    | x :: rest =>
        (Val x,
         mk_proc (p_world p) (p_files p) (p_atexit p) (p_spawned p)
           (p_prompts p ++ [prompt])%list rest)
    end.

(** [exit(code)]. *)
Definition exit_ {A} (code : Z) : P A := pfail (SystemExit code).

End Proc.

Import Proc.

Declare Scope proc_scope.
Delimit Scope proc_scope with proc.
Notation "x <- c ;; k" := (pbind c (fun x => k))
  (at level 61, c at next level, right associativity) : proc_scope.
Notation "c ;;; k" := (pbind c (fun _ => k))
  (at level 61, right associativity) : proc_scope.

(* ================================================================= *)
(** ** [list_parser.py]: class [TestListParser] *)

Module ListParser.

(** The pattern [\[.*\]]; in [_form_test_id_mappings] it is searched
    for as [(\[.*\])], whose group 1 is the whole match. *)
Definition bracket_re : Re.pattern :=
  [Re.One (Re.Chr "["); Re.Star Re.AnyChar; Re.One (Re.Chr "]")].

(** The body of the loop of [_form_test_id_mappings]. *)
Definition form_test_id_mappings_body (test_mappings : dict string)
    (testcase : string) : dict string :=
  if negb (String.eqb testcase "") then
    match Re.search bracket_re testcase with
    | Some m =>
        let testcase := Re.sub bracket_re "" testcase in
        dict_set test_mappings testcase (Re.group m)
    | None => dict_set test_mappings testcase ""
    end
  else test_mappings.

Definition _form_test_id_mappings (test_list : list string) : dict string :=
  fold_left form_test_id_mappings_body test_list [].

(** [self.insecure] is the only attribute these methods read. *)
Definition _get_base_test_ids_from_list_file (env : Env) (insecure : bool)
    (list_location : string) : M (list string) :=
  test_mappings <-
    try_except
      (response <- requests_get env list_location [] [] (negb insecure) ;;
       let testcase_list := str_split LF (r_text response) in
       ret (_form_test_id_mappings testcase_list))
      (fun e =>
         match e with
         | MissingSchema _ =>
             (* the location is not a URL: it is taken for a file path *)
             Some (try_except
                     (data_file <- open_ env list_location ;;
                      text <- lift (f_read data_file) ;;
                      let testcase_list :=
                        map (str_rstrip LF) (file_lines text) in
                      ret (_form_test_id_mappings testcase_list))
                     (fun e' =>
                        Some (logger_log ERROR
                                ("Error reading the passed in test list " ++
                                 "file.") ;;;
                              raise e')))
         | _ =>
             Some (logger_log ERROR
                     "Error reading the passed in test list file." ;;;
                   raise e)
         end) ;;
  ret (dict_keys test_mappings).

(** The [{ ... }] part of [_get_full_test_ids]'s loop: one requested
    identifier, [test_list] being the list built so far. *)
Definition get_full_test_ids_body (tempest_ids : dict string)
    (test_id : string) (test_list : list string) : M (list string) :=
  try_except
    (attr <- dict_getitem tempest_ids test_id ;;
     if str_contains "("%char test_id && truthy attr then
       let components := str_split1 "("%char test_id in
       test_portion <- list_getitem components 0 ;;
       tail <- list_getitem components 1 ;;
       let scenario := "(" ++ tail in
       ret (list_append test_list (test_portion ++ attr ++ scenario))
     else
       ret (list_append test_list (test_id ++ attr)))
    (fun e =>
       match e with
       | KeyError _ =>
           Some (logger_log DEBUG
                   ("Test " ++ test_id ++ " not found in Tempest list.") ;;;
                 ret test_list)
       | _ => None
       end).

Definition _get_full_test_ids (tempest_ids : dict string)
    (base_ids : list string) : M (list string) :=
  test_list <- for_each base_ids (get_full_test_ids_body tempest_ids) [] ;;
  logger_log DEBUG ("Number of tests: " ++ str_of_nat (List.length test_list)) ;;;
  ret test_list.

End ListParser.

Import ListParser.
(* ================================================================= *)
(** ** [list_parser.py]: the methods of [TestListParser] that run
       Tempest and write the list files *)

Module TestListParser.

Local Open Scope proc_scope.

(** [re.findall(p, s)] for a pattern without groups: the non-overlapping
    matches, leftmost first.  [skip] counts the characters of the current
    match that the scan still has to pass. *)
Fixpoint findall_from (p : Re.pattern) (s : string) (skip : nat) : list string :=
  match s, skip with
  | EmptyString, S _ => []
  | EmptyString, O =>
      match Re.match_here p EmptyString with
      | Some _ => [EmptyString]
      | None => []
      end
  | String c s', S k => findall_from p s' k
  | String c s', O =>
      match Re.match_here p s with
      | Some (S n) => substring 0 (S n) s :: findall_from p s' n
      | Some O => EmptyString :: findall_from p s' 0
      | None => findall_from p s' 0
      end
  end.

Definition findall (p : Re.pattern) (s : string) : list string :=
  findall_from p s 0.

(** [os.path.join(self.tempest_dir, 'tools/with_venv.sh')]. *)
Definition with_venv (tempest_dir : string) : string :=
  path_join tempest_dir "tools/with_venv.sh".

(** [self.tempest_dir] is the attribute this method reads.  The standard
    error of the subprocess is not piped, so [communicate()] gives [None]
    for it. *)
Definition _get_tempest_test_ids (sys : Sys) (tempest_dir : string)
    : P (dict string) :=
  stestr <- isfile (path_join tempest_dir ".stestr.conf") ;;
  cmd <-
    (if stestr then
       let init_cmd := [with_venv tempest_dir; "stestr"; "init"] in
       popen sys init_cmd tempest_dir ;;;
       pret [with_venv tempest_dir; "stestr"; "list"]
     else
       pret [with_venv tempest_dir; "testr"; "list-tests"]) ;;
  process <- popen sys cmd tempest_dir ;;
  if negb (returncode process =? 0)%Z then
    run_m (logger_log ERROR (bytes_repr (stdout process))) ;;;
    run_m (logger_log ERROR "None") ;;;
    pfail (CalledProcessError (returncode process) (String.concat " " cmd))
  else
    run_m
      (try_except
         (* [stdout] is [bytes] and the separator a [str] *)
         (raise (TypeError "a bytes-like object is required, not 'str'"))
         (fun e =>
            match e with
            | TypeError _ =>
                Some (text <- lift (decode_utf8 (stdout process)) ;;
                      ret (_form_test_id_mappings (str_split LF text)))%py
            | _ => None
            end)).

(** The file is written when [flush()] is called; it is not closed. *)
Definition _write_normalized_test_list (sys : Sys) (test_ids : list string)
    : P string :=
  fun p =>
    let name := sys_mktemp sys (p_files p) in
    let created := dict_set (p_files p) name EmptyString in
    let buffer :=
      fold_left (fun buffer test_id =>
                   buffer ++ encode_utf8 (test_id ++ String LF ""))
        test_ids EmptyString in
    (Val name,
     mk_proc (p_world p) (dict_set created name buffer)
       (p_atexit p ++ [name])%list (p_spawned p) (p_prompts p) (p_stdin p)).

Definition _remove_test_list_file (file_path : string) : P unit :=
  there <- isfile file_path ;;
  if there then os_remove file_path else pret tt.

(** What [atexit] does when the interpreter exits: the registered calls
    run, the last registered first. *)
Fixpoint run_handlers (paths : list string) : P unit :=
  match paths with
  | [] => pret tt
  | path :: rest => _remove_test_list_file path ;;; run_handlers rest
  end.

Definition at_exit : P unit :=
  fun p =>
    run_handlers (rev (p_atexit p))
      (mk_proc (p_world p) (p_files p) [] (p_spawned p) (p_prompts p)
         (p_stdin p)).

(** [None] is the result when Tempest lists no tests. *)
Definition get_normalized_test_list (sys : Sys) (tempest_dir : string)
    (insecure : bool) (list_location : string) : P (option string) :=
  tempest_test_ids <- _get_tempest_test_ids sys tempest_dir ;;
  match tempest_test_ids with
  | [] => pret None
  | _ =>
      base_test_ids <-
        run_env sys (fun env =>
          _get_base_test_ids_from_list_file env insecure list_location) ;;
      full_capability_test_ids <-
        run_m (_get_full_test_ids tempest_test_ids base_test_ids) ;;
      list_file <- _write_normalized_test_list sys full_capability_test_ids ;;
      pret (Some list_file)
  end.

(** The pattern [.*\[] and the pattern [\[]. *)
Definition up_to_bracket_re : Re.pattern :=
  [Re.Star Re.AnyChar; Re.One (Re.Chr "[")].

Definition open_bracket_re : Re.pattern := [Re.One (Re.Chr "[")].

(** [open(path, 'r').read()], where [path] may be [None]. *)
Definition read_path (sys : Sys) (path : option string) : P string :=
  match path with
  | None =>
      pfail (Exc (TypeError
        "expected str, bytes or os.PathLike object, not NoneType"))
  | Some path =>
      run_env sys (fun env => f <- open_ env path ;; lift (f_read f))%py
  end.

Definition create_include_list (sys : Sys) (tempest_dir : string)
    (insecure : bool) (list_location : string) : P string :=
  normalized_path <-
    get_normalized_test_list sys tempest_dir insecure list_location ;;
  normalized_list <- read_path sys normalized_path ;;
  let tests_list :=
    map (fun test => Re.sub open_bracket_re "\[" test)
        (findall up_to_bracket_re normalized_list) in
  _write_normalized_test_list sys tests_list.

End TestListParser.

Import TestListParser.

(* ================================================================= *)
(** ** [urllib.parse.urlparse], as far as the client reads its result

    After [urlsplit] of CPython 3.11, for URLs of ASCII characters. *)

Module Urllib.

Record parse_result : Type := mk_parse_result {
  scheme : string;
  netloc : string;
  hostname : option string   (** [None] when the URL names no host *)
}.

Definition in_range (lo hi : N) (c : ascii) : bool :=
  let n := N_of_ascii c in ((lo <=? n) && (n <=? hi))%N.

Definition is_upper : ascii -> bool := in_range 65 90.
Definition is_lower : ascii -> bool := in_range 97 122.
Definition is_digit : ascii -> bool := in_range 48 57.

Definition scheme_char (c : ascii) : bool :=
  is_upper c || is_lower c || is_digit c
  || Ascii.eqb c "+" || Ascii.eqb c "-" || Ascii.eqb c ".".

Fixpoint str_all (f : ascii -> bool) (s : string) : bool :=
  match s with
  | EmptyString => true
  | String c s' => f c && str_all f s'
  end.

(** [s.lower()] on ASCII letters; other octets are left as they are. *)
Definition lower_char (c : ascii) : ascii :=
  if is_upper c then ascii_of_N (N_of_ascii c + 32) else c.

Fixpoint str_lower (s : string) : string :=
  match s with
  | EmptyString => EmptyString
  | String c s' => String (lower_char c) (str_lower s')
  end.

(** [url.lstrip(...)] of the C0 control characters and the space, then
    the removal of tabs, carriage returns and line feeds. *)
Fixpoint lstrip_c0 (s : string) : string :=
  match s with
  | String c s' => if in_range 0 32 c then lstrip_c0 s' else s
  | EmptyString => EmptyString
  end.

Fixpoint remove_unsafe (s : string) : string :=
  match s with
  | EmptyString => EmptyString
  | String c s' =>
      if in_range 9 10 c || in_range 13 13 c then remove_unsafe s'
      else String c (remove_unsafe s')
  end.

(** The scheme and what follows its colon.  The text before the first
    colon is a scheme when it starts with a letter and is made of scheme
    characters. *)
Definition split_scheme (url : string) : string * string :=
  match str_partition ":" url with
  | Some (String c pre, rest) =>
      if (is_upper c || is_lower c) && str_all scheme_char (String c pre)
      then (str_lower (String c pre), rest)
      else ("", url)
  | _ => ("", url)
  end.

(** [_splitnetloc(url, 2)]: the text after the two slashes up to the
    first of "/", "?" and "#". *)
Fixpoint until_delimiter (s : string) : string :=
  match s with
  | EmptyString => EmptyString
  | String c s' =>
      if Ascii.eqb c "/" || Ascii.eqb c "?" || Ascii.eqb c "#"
      then EmptyString
      else String c (until_delimiter s')
  end.

Definition split_netloc (rest : string) : string :=
  match rest with
  | String "/" (String "/" after) => until_delimiter after
  | _ => EmptyString
  end.

(** The [hostname] property: the host between the user information and
    the port, lower-cased up to a "%" (the zone of a scoped address keeps
    its case), or [None] for an empty host. *)
Definition hostname_of (netloc : string) : option string :=
  let hostinfo :=
    match str_rpartition "@" netloc with
    | Some (_, h) => h
    | None => netloc
    end in
  let host :=
    match str_partition "[" hostinfo with
    | Some (_, bracketed) =>
        match str_partition "]" bracketed with
        | Some (h, _) => h
        | None => bracketed
        end
    | None =>
        match str_partition ":" hostinfo with
        | Some (h, _) => h
        | None => hostinfo
        end
    end in
  if truthy host then
    match str_partition "%" host with
    | Some (h, zone) => Some (str_lower h ++ "%" ++ zone)
    | None => Some (str_lower host)
    end
  else None.

Definition urlparse (url : string) : result parse_result :=
  let url := remove_unsafe (lstrip_c0 url) in
  let '(scheme, rest) := split_scheme url in
  let netloc := split_netloc rest in
  if (str_contains "[" netloc && negb (str_contains "]" netloc))
     || (str_contains "]" netloc && negb (str_contains "[" netloc))
  then Raise (ValueError "Invalid IPv6 URL")
  else Ok (mk_parse_result scheme netloc (hostname_of netloc)).

End Urllib.

(* ================================================================= *)
(** ** [refstack_client.py]: class [RefstackClient] *)

Module Client.

Inductive private_key : Type :=
| RSAPrivateKey (numbers : RSA.private_numbers)
| OtherPrivateKey (kind : string).

(** The library functions the client calls and this development leaves
    open: each is a function of its arguments alone. *)
Record Lib : Type := mk_lib {
  lib_urlparse : string -> result Urllib.parse_result;
  lib_json_dumps : Json.value -> string;
  lib_str : Json.value -> string;                    (** ['%s' % v] *)
  lib_load_pem_private_key : bytes -> result private_key;
  lib_public_bytes_openssh : RSA.private_numbers -> bytes
}.

Fixpoint str_in (s : string) (l : list string) : bool :=
  match l with
  | [] => false
  | x :: l' => String.eqb s x || str_in s l'
  end.

(** [h.encode('utf-8')] where [h] may be [None]. *)
Definition encode_attr (h : option string) : M bytes :=
  match h with
  | Some s => ret (encode_utf8 s)
  | None => raise (AttributeError "'NoneType' object has no attribute 'encode'")
  end.

Definition _generate_cpid_from_endpoint (lib : Lib) (endpoint : string)
    : M string :=
  logger_log INFO "Creating hash from endpoint to use as CPID." ;;;
  url_parts <- lift (lib_urlparse lib endpoint) ;;
  if negb (str_in (Urllib.scheme url_parts) ["http"; "https"]) then
    raise (ValueError ("Invalid Keystone endpoint format. Make sure " ++
                       "the endpoint (" ++ endpoint ++
                       ") includes the URL scheme " ++ "(i.e. http/https)."))
  else
    data <- encode_attr (Urllib.hostname url_parts) ;;
    ret (MD5.hexdigest data).

Definition _form_result_content (cpid : string) (duration : Z)
    (results : Json.value) : Json.value :=
  Json.JObj [("cpid", Json.JStr cpid);
             ("duration_seconds", Json.JInt duration);
             ("results", results)].

(** *** [post_results] *)

(** The object [private_key.signer(padding.PKCS1v15(), hashes.SHA256())]
    returns: the key and the data fed to it so far. *)
Record signer : Type := mk_signer {
  sg_key : RSA.private_numbers;
  sg_data : bytes
}.

Definition key_signer (k : private_key) : M signer :=
  match k with
  | RSAPrivateKey numbers => ret (mk_signer numbers "")
  | OtherPrivateKey _ =>
      raise (TypeError "signer() takes 2 positional arguments but 3 were given")
  end.

Definition signer_update (s : signer) (data : bytes) : signer :=
  mk_signer (sg_key s) (sg_data s ++ data).

Definition signer_finalize (s : signer) : M bytes :=
  lift (RSA.sign_pkcs1_v15 (sg_key s) (sg_data s)).

Definition public_bytes (lib : Lib) (k : private_key) : M bytes :=
  match k with
  | RSAPrivateKey numbers => ret (lib_public_bytes_openssh lib numbers)
  | OtherPrivateKey _ => raise (ValueError "OpenSSH format needs an RSA key")
  end.

(** The [try] around [load_pem_private_key]; [None] stands for the
    [return] in the handler. *)
Definition load_key (lib : Lib) (private_key_file : file)
    : M (option private_key) :=
  try_except
    (text <- lift (f_read private_key_file) ;;
     private_key <- lift (lib_load_pem_private_key lib (encode_utf8 text)) ;;
     ret (Some private_key))
    (fun e =>
       match e with
       | IOError _ | UnsupportedAlgorithm _ | ValueError _ =>
           Some (logger_log INFO ("Error during upload key pair " ++
                                  f_repr private_key_file) ;;;
                 logger_log ERROR (exn_str e) ;;;
                 ret None)
       | _ => None
       end).

(** The [if sign_with:] block; [None] again stands for [return]. *)
Definition sign_headers (lib : Lib) (env : Env) (headers : dict string)
    (data : string) (sign_with : option string) : M (option (dict string)) :=
  match sign_with with
  | Some (String c p) =>
      private_key_file <- open_ env (String c p) ;;
      loaded <- load_key lib private_key_file ;;
      match loaded with
      | None => ret None
      | Some private_key =>
          signer <- key_signer private_key ;;
          let signer := signer_update signer (encode_utf8 data) in
          raw <- signer_finalize signer ;;
          let signature := b2a_hex raw in
          pubkey <- public_bytes lib private_key ;;
          let headers := dict_set headers "X-Signature" signature in
          let headers := dict_set headers "X-Public-Key" pubkey in
          ret (Some headers)
      end
  | _ => ret (Some headers)
  end.

(** The rest of [post_results], from the [try] around [requests.post]. *)
Definition send_results (lib : Lib) (env : Env) (insecure : bool)
    (endpoint data : string) (headers : dict string) : M unit :=
  posted <-
    try_except
      (response <- requests_post env endpoint data headers (negb insecure) ;;
       logger_log INFO (endpoint ++ " Response: " ++ r_text response) ;;;
       ret (Some response))
      (fun e =>
         Some (logger_log INFO ("Failed to post " ++ endpoint ++ " - " ++
                                exn_str e ++ " ") ;;;
               logger_log ERROR (exn_str e) ;;;
               ret None)) ;;
  match posted with
  | None => ret tt
  | Some response =>
      if (r_status_code response =? 201)%Z then
        resp <- lift (r_json response) ;;
        u <- Json.get resp "url" (Json.JStr "") ;;
        print ("Test results uploaded!" ++ String LF "URL: " ++ lib_str lib u)
      else ret tt
  end.

Definition post_results (lib : Lib) (env : Env) (insecure : bool)
    (url : string) (content : Json.value) (sign_with : option string)
    : M unit :=
  let endpoint := url ++ "/v1/results/" in
  let headers : dict string := [("Content-type", "application/json")] in
  let data := lib_json_dumps lib content in
  logger_log DEBUG ("API request content: " ++ lib_str lib content ++ " ") ;;;
  signed <- sign_headers lib env headers data sign_with ;;
  match signed with
  | None => ret tt
  | Some headers => send_results lib env insecure endpoint data headers
  end.

(** *** [yield_results]

    A generator: [gen_next] is one call of [next()] on it, which yields a
    batch ([Some]), reports exhaustion ([None], the caller's
    [StopIteration]) or lets an exception out.

    The body ends the iteration with [raise StopIteration].  What that
    does is the interpreter's choice: up to Python 3.6 (and in 2.7) the
    exception left the generator as it was and the caller saw exhaustion;
    since Python 3.7 (PEP 479) the interpreter turns a [StopIteration]
    raised in a generator body into a [RuntimeError].  [generator_stop]
    says which: [true] is PEP 479. *)

Record yield_args : Type := mk_yield_args {
  ya_url : string;
  ya_start_page : Z;
  ya_start_date : string;
  ya_end_date : string;
  ya_cpid : string
}.

Inductive generator : Type :=
| AtPage (page : Z)                          (** at the head of the loop *)
| Yielded (page : Z) (resp : Json.value)     (** suspended at [yield] *)
| Finished.

Definition yield_results (a : yield_args) : generator :=
  AtPage (ya_start_page a).

(** [raise StopIteration] in the body. *)
Definition raise_StopIteration (generator_stop : bool)
    : M (option Json.value * generator) :=
  if generator_stop then raise (RuntimeError "generator raised StopIteration")
  else ret (None, Finished).

Definition results_endpoint (a : yield_args) : string :=
  ya_url a ++ "/v1/results/".

Definition page_params (a : yield_args) (page : Z) : dict string :=
  fold_left
    (fun params p =>
       if truthy (snd p) then dict_set params (fst p) (snd p) else params)
    [("start_date", ya_start_date a); ("end_date", ya_end_date a);
     ("cpid", ya_cpid a)]
    [("page", str_of_Z page)].

Definition page_request (insecure : bool) (a : yield_args) (page : Z)
    : http_request :=
  mk_request "GET" (results_endpoint a)
    [("Content-type", "application/json")] (page_params a page) None
    (negb insecure).

(** The body of the loop up to the [yield]. *)
Definition fetch_page (generator_stop : bool) (env : Env) (insecure : bool)
    (a : yield_args) (page : Z) : M (option Json.value * generator) :=
  let endpoint := results_endpoint a in
  let headers : dict string := [("Content-type", "application/json")] in
  let params := page_params a page in
  got <-
    try_except
      (resp <- requests_get env endpoint headers params (negb insecure) ;;
       raise_for_status resp ;;;
       ret (Some resp))
      (fun e =>
         match e with
         | HTTPError _ =>
             Some (logger_log INFO ("Failed to list " ++ endpoint ++ " - " ++
                                    exn_str e ++ " ") ;;;
                   ret None)
         | _ => None
         end) ;;
  match got with
  | None => raise_StopIteration generator_stop
  | Some resp =>
      resp <- lift (r_json resp) ;;
      results <- Json.get resp "results" (Json.JArr []) ;;
      ret (Some results, Yielded page resp)
  end.

Definition gen_next (generator_stop : bool) (env : Env) (insecure : bool)
    (a : yield_args) (g : generator) : M (option Json.value * generator) :=
  match g with
  | AtPage page => fetch_page generator_stop env insecure a page
  | Yielded page resp =>
      pagination <- Json.getitem resp "pagination" ;;
      total_pages <- Json.getitem pagination "total_pages" ;;
      if Json.eq_int total_pages page then raise_StopIteration generator_stop
      else fetch_page generator_stop env insecure a (page + 1)
  | Finished => ret (None, Finished)
  end.

(** How a loop over the generator came to its end. *)
Inductive ending : Type :=
| Ended                   (** the generator was exhausted *)
| Faulted (e : exn)       (** an exception came out of [next()] *)
| Unfinished.             (** the fuel ran out first *)

(** [for batch in gen: ...] keeping the batches, at most [fuel] calls of
    [next()]. *)
Fixpoint drain (generator_stop : bool) (env : Env) (insecure : bool)
    (a : yield_args) (fuel : nat) (g : generator) (w : world)
    : (list Json.value * ending) * world :=
  match fuel with
  | O => (([], Unfinished), w)
  | S fuel' =>
      match gen_next generator_stop env insecure a g w with
      | (Ok (None, _), w1) => (([], Ended), w1)
      | (Ok (Some batch, g'), w1) =>
          let '((batches, e), w2) :=
            drain generator_stop env insecure a fuel' g' w1 in
          ((batch :: batches, e), w2)
      | (Raise e, w1) => (([], Faulted e), w1)
      end
  end.

End Client.

Import Client.
(* ================================================================= *)
(** ** [refstack_client.py]: the Keystone lookup, the prompts, the
       listing and the self-signature *)

Module RefstackClient.

(** *** Values of JSON as Python objects *)

(** [bool(v)]. *)
Definition json_truthy (v : Json.value) : bool :=
  match v with
  | Json.JNull => false
  | Json.JBool b => b
  | Json.JInt z => negb (z =? 0)%Z
  | Json.JStr s => truthy s
  | Json.JArr l => match l with [] => false | _ => true end
  | Json.JObj fields => match fields with [] => false | _ => true end
  end.

(** [v == s] for a [str] [s]. *)
Definition json_eq_str (v : Json.value) (s : string) : bool :=
  match v with
  | Json.JStr t => String.eqb t s
  | _ => false
  end.

(** The characters of a [str]: an octet and the continuation octets
    (10xxxxxx) that follow it. *)
Fixpoint str_chars (s : string) : list string :=
  match s with
  | EmptyString => []
  | String c s' =>
      match s' with
      | String c' _ =>
          if Urllib.in_range 128 191 c' then
            match str_chars s' with
            | h :: t => String c h :: t
            | [] => [String c EmptyString]
            end
          else String c EmptyString :: str_chars s'
      | EmptyString => [String c EmptyString]
      end
  end.

(** [iter(v)], as the list of what it yields: a [dict] gives its keys, a
    [str] its characters. *)
Definition json_iter (v : Json.value) : M (list Json.value) :=
  match v with
  | Json.JArr l => ret l
  | Json.JObj fields => ret (map (fun kv => Json.JStr (fst kv)) fields)
  | Json.JStr s => ret (map Json.JStr (str_chars s))
  | _ => raise (TypeError "object is not iterable")
  end.

(** [v[0]].  The keys of a JSON object are [str], so none is [0]. *)
Definition json_first (v : Json.value) : M Json.value :=
  match v with
  | Json.JArr l => list_getitem l 0
  | Json.JStr s => c <- list_getitem (str_chars s) 0 ;; ret (Json.JStr c)
  | Json.JObj _ => raise (KeyError "0")
  | _ => raise (TypeError "object is not subscriptable")
  end.

(** *** [_get_cpid_from_keystone] *)

(** The loop over the service catalog of a Keystone v2 answer; [None]
    when the loop ends without [return]. *)
Fixpoint identity_endpoint_id (services : list Json.value)
    : M (option Json.value) :=
  match services with
  | [] => ret None
  | service :: rest =>
      type <- Json.getitem service "type" ;;
      if json_eq_str type "identity" then
        endpoints <- Json.getitem service "endpoints" ;;
        endpoint <- json_first endpoints ;;
        id <- Json.getitem endpoint "id" ;;
        if json_truthy id then ret (Some id)
        else identity_endpoint_id rest
      else identity_endpoint_id rest
  end.

(** The loop over the catalog of a Keystone v3 answer. *)
Fixpoint identity_service_id (services : list Json.value)
    : M (option Json.value) :=
  match services with
  | [] => ret None
  | service :: rest =>
      type <- Json.getitem service "type" ;;
      if json_eq_str type "identity" then
        id <- Json.getitem service "id" ;;
        if json_truthy id then ret (Some id)
        else identity_service_id rest
      else identity_service_id rest
  end.

(** The [try] block after the request; [KeyError ""] is the bare
    [raise KeyError]. *)
Definition catalog_id (lib : Lib) (response : http_response) : M Json.value :=
  rsp <- lift (r_json response) ;;
  if ((r_status_code response =? 200) || (r_status_code response =? 203))%Z then
    access <- Json.getitem rsp "access" ;;
    catalog <- Json.getitem access "serviceCatalog" ;;
    services <- json_iter catalog ;;
    found <- identity_endpoint_id services ;;
    match found with
    | Some id => ret id
    | None => raise (KeyError "")
    end
  else if (r_status_code response =? 201)%Z then
    token <- Json.getitem rsp "token" ;;
    catalog <- Json.getitem token "catalog" ;;
    services <- json_iter catalog ;;
    found <- identity_service_id services ;;
    match found with
    | Some id => ret id
    | None => raise (KeyError "")
    end
  else
    error <- Json.getitem rsp "error" ;;
    code <- Json.getitem error "code" ;;
    error <- Json.getitem rsp "error" ;;
    message <- Json.getitem error "message" ;;
    raise (HTTPError ("Invalid request with error code: " ++ lib_str lib code
                      ++ ". Error message: " ++ lib_str lib message)).

(** The [try] block. *)
Definition keystone_lookup (lib : Lib) (env : Env) (insecure : bool)
    (auth_url : string) (content : Json.value) : M Json.value :=
  let headers : dict string := [("content-type", "application/json")] in
  response <- requests_post env auth_url (lib_json_dumps lib content) headers
                (negb insecure) ;;
  catalog_id lib response.

(** The result is the identifier the catalog holds, a value of JSON, or
    the hash of the endpoint, a [str]. *)
Definition _get_cpid_from_keystone (lib : Lib) (env : Env) (insecure : bool)
    (auth_version auth_url : string) (content : Json.value) : M Json.value :=
  found <-
    try_except
      (id <- keystone_lookup lib env insecure auth_url content ;;
       ret (Some id))
      (fun e =>
         match e with
         | KeyError _ | IndexError =>
             Some (logger_log WARNING
                     ("Unable to retrieve CPID from Keystone " ++ auth_version
                      ++ " catalog. The catalog or the identity "
                      ++ "service endpoint was not found.") ;;;
                   ret None)
         | _ =>
             Some (logger_log WARNING
                     ("Problems retrieving CPID from Keystone using "
                      ++ auth_version ++ " endpoint (" ++ auth_url
                      ++ ") with error (" ++ exn_str e ++ ")") ;;;
                   ret None)
         end) ;;
  match found with
  | Some id => ret id
  | None =>
      cpid <- _generate_cpid_from_endpoint lib auth_url ;;
      ret (Json.JStr cpid)
  end.

(** *** [_sign_pubkey] and [self_sign] *)

(** The public key: the text of the [.pub] file, a [str], or the octets
    derived from the private key, [bytes]. *)
Inductive key_text : Type :=
| FromFile (text : string)
| Derived (data : bytes).

(** ['%s' % k]. *)
Definition key_text_str (k : key_text) : string :=
  match k with
  | FromFile text => text
  | Derived data => bytes_repr data
  end.

(** [None] is the result of the bare [return]. *)
Definition _sign_pubkey (lib : Lib) (env : Env) (priv_key_to_sign : string)
    : M (option (key_text * bytes)) :=
  let private_key_file := priv_key_to_sign in
  loaded <-
    try_except
      (pkf <- open_ env private_key_file ;;
       text <- lift (f_read pkf) ;;
       private_key <- lift (lib_load_pem_private_key lib (encode_utf8 text)) ;;
       ret (Some private_key))
      (fun e =>
         match e with
         | IOError _ | UnsupportedAlgorithm _ | ValueError _ =>
             Some (logger_log ERROR
                     ("Error reading private key " ++ private_key_file) ;;;
                   logger_log ERROR (exn_str e) ;;;
                   ret None)
         | _ => None
         end) ;;
  match loaded with
  | None => ret None
  | Some private_key =>
      let public_key_file := String.concat "." [private_key_file; "pub"] in
      pub_key <-
        try_except
          (pkf <- open_ env public_key_file ;;
           text <- lift (f_read pkf) ;;
           ret (FromFile text))
          (fun e =>
             match e with
             | IOError _ =>
                 Some (logger_log ERROR
                         ("Public key file " ++ public_key_file
                          ++ " not found. "
                          ++ "Public key is generated from private one.") ;;;
                       data <- public_bytes lib private_key ;;
                       ret (Derived data))
             | _ => None
             end) ;;
      signer <- key_signer private_key ;;
      let signer := signer_update signer (encode_utf8 "signature") in
      raw <- signer_finalize signer ;;
      let signature := b2a_hex raw in
      ret (Some (pub_key, signature))
  end.

Definition self_sign (lib : Lib) (env : Env) (priv_key_to_sign : string)
    : M unit :=
  signed <- _sign_pubkey lib env priv_key_to_sign ;;
  match signed with
  | None => raise (TypeError "cannot unpack non-iterable NoneType object")
  | Some (pub_key, signature) =>
      print ("Public key:" ++ String LF (key_text_str pub_key ++ String LF "")) ;;;
      print ("Self signature:" ++ String LF (bytes_repr signature ++ String LF ""))
  end.

(** *** The overrides of [generate_tempest_config] *)

(** [s.replace(a, b)] for one-character [a] and [b]. *)
Fixpoint str_replace (a b : ascii) (s : string) : string :=
  match s with
  | EmptyString => EmptyString
  | String c s' =>
      String (if Ascii.eqb c a then b else c) (str_replace a b s')
  end.

(** [sub in s] for two texts. *)
Fixpoint str_has (sub s : string) : bool :=
  String.prefix sub s ||
  match s with
  | EmptyString => false
  | String _ s' => str_has sub s'
  end.

Definition cinder_overrides : string := "volume-feature-enabled.api_v2=True".

(** The lines of [generate_tempest_config] that compute [overrides],
    the list handed to [parse_overrides], from [self.args.overrides]. *)
Definition tempest_overrides (args_overrides : option string) : list string :=
  let overrides_format := str_split "," (str_replace "=" "," cinder_overrides) in
  match args_overrides with
  | Some (String c s) =>
      let overrides := str_split "," (str_replace "=" "," (String c s)) in
      if negb (str_has cinder_overrides (String c s))
      then (overrides ++ overrides_format)%list
      else overrides
  | _ => overrides_format
  end.

(** *** The prompts, [upload_subunit] and [list] *)

Local Open Scope proc_scope.

(** The attributes of [self.args] that these methods read. *)
Record Args : Type := mk_args {
  a_quiet : bool;
  a_url : string;
  a_insecure : bool;
  a_priv_key : option string;
  a_file : string;
  a_keystone_endpoint : string;
  a_start_date : option string;
  a_end_date : option string
}.

(** The result is [True], [False] or, after Ctrl-C, [None].  [str.lower]
    maps no character outside ASCII to "y", "e" or "s", so lowering the
    ASCII letters decides whether the answer is one of the two words. *)
Definition _user_query (args : Args) (q : string) : P (option bool) :=
  if a_quiet args then pret (Some true)
  else
    inp <- input (q ++ " (yes/y): ") ;;
    match inp with
    | Interrupt => pret None
    | Line inp => pret (Some (str_in (Urllib.str_lower inp) ["yes"; "y"]))
    end.

Definition _upload_prompt (lib : Lib) (sys : Sys) (args : Args)
    (upload_content : Json.value) : P unit :=
  agreed <- _user_query args ("Test results will be uploaded to " ++ a_url args
                              ++ ". Ok?") ;;
  match agreed with
  | Some true =>
      run_env sys (fun env =>
        post_results lib env (a_insecure args) (a_url args) upload_content
          (a_priv_key args))
  | _ => pret tt
  end.

(** The result is [self.upload_file]. *)
Definition _prep_upload (args : Args) : P string :=
  there <- isfile (a_file args) ;;
  if negb there then
    run_m (logger_log ERROR ("File not valid: " ++ a_file args)) ;;;
    exit_ 1
  else pret (a_file args).

Definition get_passed_tests (sys : Sys) (result_file : string)
    : P (list Json.value) :=
  run_m (lift (sys_subunit sys result_file)).

Definition upload_subunit (lib : Lib) (sys : Sys) (args : Args) : P unit :=
  upload_file <- _prep_upload args ;;
  cpid <- run_m (_generate_cpid_from_endpoint lib (a_keystone_endpoint args)) ;;
  let duration := 0%Z in
  results <- get_passed_tests sys upload_file ;;
  run_m (logger_log INFO ("Number of passed tests in given subunit file: "
                          ++ str_of_nat (List.length results) ++ " ")) ;;;
  let content := _form_result_content cpid duration (Json.JArr results) in
  _upload_prompt lib sys args content.

(** An absent date ([None]) and the empty text are the same to
    [yield_results], which only tests the dates for truth. *)
Definition date_arg (d : option string) : string :=
  match d with Some s => s | None => EmptyString end.

Definition list_args (args : Args) : yield_args :=
  mk_yield_args (a_url args) 1 (date_arg (a_start_date args))
    (date_arg (a_end_date args)) EmptyString.

(** The inner loop of [list]: one line for each result of the page. *)
Definition print_page (lib : Lib) (page_of_results : Json.value) : M unit :=
  (rows <- json_iter page_of_results ;;
   for_each rows
     (fun r _ =>
        created_at <- Json.getitem r "created_at" ;;
        u <- Json.getitem r "url" ;;
        print (lib_str lib created_at ++ " - " ++ lib_str lib u))
     tt)%py.

(** The state after [input(prompt)] has written its prompt and the
    operator has answered, [rest] being what the operator does next. *)
Definition answered (prompt : string) (rest : list console_input) (p : proc)
    : proc :=
  mk_proc (p_world p) (p_files p) (p_atexit p) (p_spawned p)
    (p_prompts p ++ [prompt])%list rest.

(** The outer loop of [list].  Each turn ends with a read of the console,
    so the loop is a recursion on what the operator is going to do:
    [answers] is [p_stdin] at the head of the loop, and the [match] on it
    is the call of [input] with its [except KeyboardInterrupt]. *)
Fixpoint list_pages (generator_stop : bool) (lib : Lib) (sys : Sys)
    (args : Args) (answers : list console_input) (g : generator) (p : proc)
    : outcome unit * proc :=
  match run_env sys (fun env =>
          gen_next generator_stop env (a_insecure args) (list_args args) g) p with
  | (Fail f, p1) => (Fail f, p1)
  | (Val (None, _), p1) => (Val tt, p1)
  | (Val (Some page_of_results, g'), p1) =>
      match run_m (print_page lib page_of_results) p1 with
      | (Fail f, p2) => (Fail f, p2)
      | (Val _, p2) =>
          let prompt := "Press Enter to go to next page..." in
          match answers with
          | [] => (Fail EOFError, answered prompt [] p2)
          | Interrupt :: rest => (Val tt, answered prompt rest p2)
          | Line _ :: rest =>
              list_pages generator_stop lib sys args rest g'
                (answered prompt rest p2)
          end
      end
  end.

Definition list_ (generator_stop : bool) (lib : Lib) (sys : Sys) (args : Args)
    : P unit :=
  fun p =>
    list_pages generator_stop lib sys args (p_stdin p)
      (yield_results (list_args args)) p.

End RefstackClient.

Import RefstackClient.

(* ================================================================= *)
(** ** Reference descriptions of the list parser *)

(** The full identifier for a requested identifier [test_id] whose tag in
    the mapping is [attr]: the identifier itself for an empty tag;
    otherwise the tag goes before the first "(" when there is one and at
    the end when there is none. *)
Definition full_id (test_id attr : string) : string :=
  match attr with
  | EmptyString => test_id
  | _ =>
      match str_partition "("%char test_id with
      | Some (prefix, remainder) => prefix ++ attr ++ "(" ++ remainder
      | None => test_id ++ attr
      end
  end.

(** What one requested identifier contributes to the output. *)
Definition emitted (tempest_ids : dict string) (test_id : string) : list string :=
  match dict_get tempest_ids test_id with
  | Some attr => [full_id test_id attr]
  | None => []
  end.

(** The record logged for a requested identifier, if any. *)
Definition not_found_record (tempest_ids : dict string) (test_id : string)
    : list (level * string) :=
  match dict_get tempest_ids test_id with
  | Some _ => []
  | None => [(DEBUG, "Test " ++ test_id ++ " not found in Tempest list.")]
  end.

Definition in_dict {V} (d : dict V) (k : string) : bool :=
  match dict_get d k with Some _ => true | None => false end.

Definition add_log (w : world) (recs : list (level * string)) : world :=
  mk_world (w_log w ++ recs)%list (w_http w) (w_stdout w).

(** A line of a listing: a piece of text with no line feed in it, as
    [text.split('\n')] and the iteration over a text file produce them. *)
Definition is_line (s : string) : Prop := str_contains LF s = false.

(** Position of the first and of the last occurrence of a character. *)
Fixpoint find_first (c : ascii) (s : string) : option nat :=
  match s with
  | EmptyString => None
  | String a s' =>
      if Ascii.eqb a c then Some 0 else option_map S (find_first c s')
  end.

Fixpoint find_last (c : ascii) (s : string) : option nat :=
  match s with
  | EmptyString => None
  | String a s' =>
      match find_last c s' with
      | Some j => Some (S j)
      | None => if Ascii.eqb a c then Some 0 else None
      end
  end.

(** The bracket group of a line: the positions of its first "[" and of
    its last "]", when the former comes before the latter. *)
Definition bracket_span (line : string) : option (nat * nat) :=
  match find_first "["%char line, find_last "]"%char line with
  | Some i, Some j => if Nat.ltb i j then Some (i, j) else None
  | _, _ => None
  end.

(** Key and value stored for a nonempty line: the line with the span
    removed and the span, or the whole line and the empty string. *)
Definition base_and_tag (line : string) : string * string :=
  match bracket_span line with
  | Some (i, j) =>
      (substring 0 i line ++ substring (S j) (String.length line - S j) line,
       substring i (S j - i) line)
  | None => (line, "")
  end.

(** The same group as three pieces of text: before the first "[", between
    the brackets, after the last "]". *)
Definition split_span (s : string) : option (string * string * string) :=
  match str_partition "["%char s with
  | Some (pre, t) =>
      match str_rpartition "]"%char t with
      | Some (mid, post) => Some (pre, mid, post)
      | None => None
      end
  | None => None
  end.

(** The last nonempty line with key [k] decides the value stored at [k]. *)
Definition decides (lines : list string) (k v : string) : Prop :=
  exists l1 line l2,
    lines = (l1 ++ line :: l2)%list /\ line <> "" /\
    base_and_tag line = (k, v) /\
    forall l, In l l2 -> l <> "" -> fst (base_and_tag l) <> k.


(** A list file of four lines, at a path that is not a URL. *)
Definition sample_list_env : Env :=
  mk_env
    (fun _ _ => Raise (MissingSchema "Invalid URL 'list.txt': No schema supplied."))
    (fun _ =>
       Ok (mk_file "<list.txt>"
             (Ok (String.concat (String LF "")
                    ["t.a[x]"; "t.a[x]"; "t.a[y]"; "t.b(s)[z]"; ""])))).

(* ================================================================= *)
(** ** Sample library, key and servers *)

(** A 512-bit RSA key made for these examples. *)
Definition sample_key : RSA.private_numbers :=
  RSA.mk_private
    9825253288939147926365182164073766613816315723213242604516378408393439578947532038651203299352670884796704797818434209067132732391480793469906383788577443
    65537
    2750867030818383894607240604980233205623015658410360384977509306431652697470201907417851943726094982246038597116218033750360349296335839077486390957231433.

Fixpoint sample_dumps (v : Json.value) : string :=
  match v with
  | Json.JNull => "null"
  | Json.JBool b => if b then "true" else "false"
  | Json.JInt z => str_of_Z z
  | Json.JStr s => "'" ++ s ++ "'"
  | Json.JArr l => "[" ++ String.concat ", " (map sample_dumps l) ++ "]"
  | Json.JObj fields =>
      "{" ++ String.concat ", "
               (map (fun kv => "'" ++ fst kv ++ "': " ++ sample_dumps (snd kv))
                    fields) ++ "}"
  end.

(** A library instance: the URL parser above, and stand-ins for the
    serialisers and for the key loader, which knows one key file. *)
Definition sample_lib : Lib :=
  mk_lib
    Urllib.urlparse
    sample_dumps
    (fun v => match v with Json.JStr s => s | _ => sample_dumps v end)
    (fun pem =>
       if String.eqb pem "PEM(sample_key)" then Ok (RSAPrivateKey sample_key)
       else Raise (ValueError "Could not deserialize key data."))
    (fun k => "ssh-rsa " ++ str_of_Z (RSA.rsa_e k) ++ " " ++ str_of_Z (RSA.rsa_n k)).

(** The record every call of [_generate_cpid_from_endpoint] leaves. *)
Definition creating_hash_record : list (level * string) :=
  [(INFO, "Creating hash from endpoint to use as CPID.")].


(** The world after one more request. *)
Definition sent (w : world) (rq : http_request) : world :=
  mk_world (w_log w) (w_http w ++ [rq])%list (w_stdout w).

(** *** Paginated retrieval *)

Definition status_is_error (r : http_response) : bool :=
  ((400 <=? r_status_code r) && (r_status_code r <? 600))%Z.

(** The answer is a success whose pagination metadata gives [n] total
    pages. *)
Definition reports_total_pages (r : http_response) (n : Z) : Prop :=
  status_is_error r = false /\
  exists fields pagination,
    r_json r = Ok (Json.JObj fields) /\
    dict_get fields "pagination" = Some (Json.JObj pagination) /\
    dict_get pagination "total_pages" = Some (Json.JInt n).

(** Every page request succeeds and reports [n] total pages. *)
Definition serves_pages (env : Env) (n : nat) : Prop :=
  forall history rq, exists r,
    env_http env history rq = Ok r /\ reports_total_pages r (Z.of_nat n).

(** The batch an answer carries: its [results], or the empty list. *)
Definition batch_of (r : http_response) : Json.value :=
  match r_json r with
  | Ok (Json.JObj fields) =>
      match dict_get fields "results" with
      | Some x => x
      | None => Json.JArr []
      end
  | _ => Json.JNull
  end.

(** The requests for pages 1 to [n], in order. *)
Definition page_requests (insecure : bool) (a : yield_args) (n : nat)
    : list http_request :=
  map (fun i => page_request insecure a (Z.of_nat i)) (seq 1 n).

(** The batch of page [i]: what the server answers to the request for
    page [i] after the requests for the pages before it. *)
Definition page_batch (env : Env) (insecure : bool) (a : yield_args)
    (history : list http_request) (i : nat) : Json.value :=
  match env_http env (history ++ page_requests insecure a (i - 1))%list
          (page_request insecure a (Z.of_nat i)) with
  | Ok r => batch_of r
  | Raise _ => Json.JNull
  end.

(** How the iteration is over once the body has raised [StopIteration]. *)
Definition closing (generator_stop : bool) : ending :=
  if generator_stop then Faulted (RuntimeError "generator raised StopIteration")
  else Ended.

(** The iteration yields the batches of pages 1 to [n], one request each,
    and then the sequence ends. *)
Definition yields_pages (generator_stop : bool) (env : Env) (insecure : bool)
    (a : yield_args) (w : world) (n : nat) : Prop :=
  exists fuel w',
    drain generator_stop env insecure a fuel (yield_results a) w =
      ((map (page_batch env insecure a (w_http w)) (seq 1 n), Ended), w') /\
    w_http w' = (w_http w ++ page_requests insecure a n)%list.

(** The page request fails with an HTTP error: [requests] raises
    [HTTPError], or the status is 4xx or 5xx and [raise_for_status] does. *)
Definition http_error_at (env : Env) (history : list http_request)
    (rq : http_request) : Prop :=
  (exists msg, env_http env history rq = Raise (HTTPError msg)) \/
  (exists r, env_http env history rq = Ok r /\ status_is_error r = true).

(** The generator is about to request [page] on its next step. *)
Definition about_to_request (g : generator) (page : Z) : Prop :=
  g = AtPage page \/
  exists p fields pagination total,
    g = Yielded p (Json.JObj fields) /\ page = (p + 1)%Z /\
    dict_get fields "pagination" = Some (Json.JObj pagination) /\
    dict_get pagination "total_pages" = Some total /\
    Json.eq_int total p = false.

Definition sample_args : yield_args :=
  mk_yield_args "https://refstack.example.org/api" 1 "" "" "".

Definition page_answer (total : Z) (batch : Json.value) : http_response :=
  mk_response 200 "OK" "https://refstack.example.org/api/v1/results/" ""
    (Ok (Json.JObj [("results", batch);
                    ("pagination", Json.JObj [("current_page", Json.JInt 1);
                                              ("total_pages", Json.JInt total)])])).

(** A server with three pages of results. *)
Definition three_pages_env : Env :=
  mk_env
    (fun _ rq =>
       Ok (page_answer 3
             (Json.JArr [Json.JStr (match dict_get (rq_params rq) "page" with
                                    | Some p => "result of page " ++ p
                                    | None => "no page"
                                    end)])))
    (fun _ => Raise (IOError "no such file")).

(** A server that has no results: it reports zero pages. *)
Definition zero_pages_env : Env :=
  mk_env (fun _ _ => Ok (page_answer 0 (Json.JArr [])))
         (fun _ => Raise (IOError "no such file")).

(** A server that fails on the third request. *)
Definition failing_env : Env :=
  mk_env
    (fun history rq =>
       if (List.length history <? 2)%nat
       then Ok (page_answer 5 (Json.JArr [Json.JStr "a result"]))
       else Ok (mk_response 500 "Internal Server Error"
                  "https://refstack.example.org/api/v1/results/?page=3" ""
                  (Raise (ValueError "No JSON object could be decoded"))))
    (fun _ => Raise (IOError "no such file")).

(** *** Signed submission *)

(** What reading the key file and parsing it comes to. *)
Definition load_result (lib : Lib) (private_key_file : file) : result private_key :=
  match f_read private_key_file with
  | Ok text => lib_load_pem_private_key lib (encode_utf8 text)
  | Raise e => Raise e
  end.

(** The exceptions the handler around the key loader names. *)
Definition is_key_error (e : exn) : bool :=
  match e with
  | IOError _ | UnsupportedAlgorithm _ | ValueError _ => true
  | _ => false
  end.

Definition plain_headers : dict string := [("Content-type", "application/json")].

(** The headers of a signed submission. *)
Definition signed_headers (lib : Lib) (key : RSA.private_numbers)
    (raw : bytes) : dict string :=
  dict_set (dict_set plain_headers "X-Signature" (b2a_hex raw))
    "X-Public-Key" (lib_public_bytes_openssh lib key).

(** The call makes one request, a POST of the serialised content that
    carries neither signature header. *)
Definition posts_unsigned (lib : Lib) (env : Env) (insecure : bool)
    (url : string) (content : Json.value) (sign_with : option string)
    (w : world) : Prop :=
  exists rq,
    w_http (snd (post_results lib env insecure url content sign_with w)) =
      (w_http w ++ [rq])%list /\
    rq_method rq = "POST" /\
    rq_data rq = Some (lib_json_dumps lib content) /\
    dict_get (rq_headers rq) "X-Signature" = None /\
    dict_get (rq_headers rq) "X-Public-Key" = None.

(** A key file that holds no key. *)
Definition bad_key_env : Env :=
  mk_env (fun _ _ => Ok (mk_response 201 "Created" "" "{}"
                           (Ok (Json.JObj [("url", Json.JStr "https://r/1")]))))
         (fun path => Ok (mk_file ("<" ++ path ++ ">") (Ok "not a key"))).

(** Two environments that hold the sample key, at different servers. *)
Definition good_key_env (status : Z) : Env :=
  mk_env (fun _ _ => Ok (mk_response status "" "" "{}" (Ok (Json.JObj []))))
         (fun path => Ok (mk_file ("<" ++ path ++ ">") (Ok "PEM(sample_key)"))).

Definition sample_content : Json.value :=
  _form_result_content "111d5bfb97c0767001d84c0d0449fdf8" 0 (Json.JArr []).

(** The text [json.dumps] gives for [sample_content]. *)
Definition sample_envelope_json : string :=
  let q := String (ascii_of_nat 34) "" in
  "{" ++ q ++ "cpid" ++ q ++ ": " ++ q ++ "111d5bfb97c0767001d84c0d0449fdf8" ++ q
      ++ ", " ++ q ++ "duration_seconds" ++ q ++ ": 0, "
      ++ q ++ "results" ++ q ++ ": []}".
(* ================================================================= *)
(** ** Reference descriptions for the list files *)

(** No bracket occurs in the text. *)
Definition bracket_free (s : string) : Prop :=
  str_contains "[" s = false /\ str_contains "]" s = false.

(** What a list file holds for a list of identifiers: each identifier
    and a line feed. *)
Definition list_file_content (test_ids : list string) : bytes :=
  String.concat "" (map (fun test_id => test_id ++ String LF "") test_ids).

(** Every "[" with a backslash before it. *)
Fixpoint escape_brackets (s : string) : string :=
  match s with
  | EmptyString => EmptyString
  | String c s' =>
      if Ascii.eqb c "[" then String BACKSLASH (String c (escape_brackets s'))
      else String c (escape_brackets s')
  end.

(** The include pattern of a line: the line up to its last "[", with the
    brackets escaped; a line without "[" has none. *)
Definition include_pattern (line : string) : list string :=
  match str_rpartition "[" line with
  | Some (before, _) => [escape_brackets (before ++ "[")]
  | None => []
  end.

(** A piece of text that a file read in text mode gives back as it is:
    valid UTF-8 without a carriage return. *)
Definition plain_text (s : string) : Prop :=
  utf8_valid s = true /\ str_contains CR s = false.

(** The process after a list file was written: the file is there and its
    removal is registered. *)
Definition with_list_file (p : proc) (name : string) (content : bytes) : proc :=
  mk_proc (p_world p) (dict_set (dict_set (p_files p) name "") name content)
    (p_atexit p ++ [name])%list (p_spawned p) (p_prompts p) (p_stdin p).

(** The ranges that are pending in [utf8_scan] start at 128. *)
Definition high (pending : list (N * N)) : Prop :=
  Forall (fun r => (128 <= fst r)%N) pending.

(** *** Listing the tests of Tempest *)

(** Tempest is run by [stestr] when its directory holds [.stestr.conf]. *)
Definition uses_stestr (tempest_dir : string) (p : proc) : bool :=
  has_file (p_files p) (path_join tempest_dir ".stestr.conf").

Definition init_command (tempest_dir : string) : list string :=
  [with_venv tempest_dir; "stestr"; "init"].

Definition list_command (tempest_dir : string) (stestr : bool) : list string :=
  if stestr then [with_venv tempest_dir; "stestr"; "list"]
  else [with_venv tempest_dir; "testr"; "list-tests"].

(** The commands started before the listing command is. *)
Definition before_listing (tempest_dir : string) (p : proc)
    : list (list string * string) :=
  if uses_stestr tempest_dir p
  then (p_spawned p ++ [(init_command tempest_dir, tempest_dir)])%list
  else p_spawned p.

(** What the system answers to the listing command. *)
Definition listing (sys : Sys) (tempest_dir : string) (p : proc)
    : result completed :=
  if uses_stestr tempest_dir p then
    match sys_popen sys (p_spawned p) (init_command tempest_dir) tempest_dir with
    | Ok _ =>
        sys_popen sys (before_listing tempest_dir p)
          (list_command tempest_dir true) tempest_dir
    | Raise e => Raise e
    end
  else
    sys_popen sys (p_spawned p) (list_command tempest_dir false) tempest_dir.

(** The process once the listing command has run, with [recs] logged. *)
Definition listed (tempest_dir : string) (p : proc)
    (recs : list (level * string)) : proc :=
  mk_proc (add_log (p_world p) recs) (p_files p) (p_atexit p)
    (before_listing tempest_dir p ++
     [(list_command tempest_dir (uses_stestr tempest_dir p), tempest_dir)])%list
    (p_prompts p) (p_stdin p).

(** The mapping of a listing output. *)
Definition listed_ids (r : completed) : dict string :=
  _form_test_id_mappings (str_split LF (stdout r)).

(** The full identifiers of the requested base identifiers that the
    listing knows, in the order of the request. *)
Definition normalized_ids (r : completed) (base_ids : list string)
    : list string :=
  flat_map (emitted (listed_ids r)) base_ids.

(** The records [_get_full_test_ids] logs for the request. *)
Definition normalizing_log (r : completed) (base_ids : list string)
    : list (level * string) :=
  (flat_map (not_found_record (listed_ids r)) base_ids ++
   [(DEBUG, ("Number of tests: " ++
             str_of_nat (List.length (normalized_ids r base_ids)))%string)])%list.

(** The system never picks the path of a file that is there for a new
    temporary file. *)
Definition fresh_names (sys : Sys) : Prop :=
  forall files, has_file files (sys_mktemp sys files) = false.

(** A Tempest that lists three tests, and a list file that asks for
    three, one of them unknown to Tempest. *)
Definition sample_listing : bytes :=
  String.concat (String LF "")
    ["t.a[id-1,smoke]"; "t.b(scenario)[id-2]"; "t.c"; ""].

(** A path that is longer than the path of every file there is. *)
Fixpoint pad (n : nat) : string :=
  match n with
  | O => EmptyString
  | S n' => String "a" (pad n')
  end.

Definition longer_name (files : dict bytes) : string :=
  "/tmp/tmp" ++ pad (list_max (map (fun kv => String.length (fst kv)) files)).

Definition sample_sys : Sys :=
  mk_sys
    (fun _ _ => Raise (MissingSchema "Invalid URL 'list.txt': No schema supplied."))
    (fun _ _ _ => Ok (mk_completed 0 sample_listing))
    longer_name
    (fun _ => Ok []).

Definition sample_proc : proc :=
  mk_proc empty_world
    [("/opt/tempest/.stestr.conf", "[DEFAULT]");
     ("list.txt",
      String.concat (String LF "") ["t.b(scenario)[old]"; "t.x"; "t.a"; ""])]
    [] [] [] [].

(** A Tempest that lists nothing: its output is one empty line. *)
Definition silent_sys : Sys :=
  mk_sys (sys_http sample_sys)
    (fun _ _ _ => Ok (mk_completed 0 (String LF "")))
    longer_name (fun _ => Ok []).
(* ================================================================= *)
(** ** Reference descriptions for the Keystone lookup *)

(** The computation has the result [r] and leaves the world as it is. *)
Definition pure_as {A} (c : M A) (r : result A) : Prop :=
  forall w, c w = (r, w).

(** The request [_get_cpid_from_keystone] makes. *)
Definition keystone_request (lib : Lib) (insecure : bool) (auth_url : string)
    (content : Json.value) : http_request :=
  mk_request "POST" auth_url [("content-type", "application/json")] []
    (Some (lib_json_dumps lib content)) (negb insecure).

(** What the method comes to when the catalog gives no identifier: the
    hash of the endpoint, computed in the world [w]. *)
Definition cpid_fallback (lib : Lib) (auth_url : string) (w : world)
    : result Json.value * world :=
  match _generate_cpid_from_endpoint lib auth_url w with
  | (Ok cpid, w') => (Ok (Json.JStr cpid), w')
  | (Raise e, w') => (Raise e, w')
  end.

(** An entry of a v3 catalog that the loop passes over: an object whose
    type is not "identity", or whose [id] is there and false. *)
Definition passed_over_v3 (service : Json.value) : Prop :=
  exists fields type,
    service = Json.JObj fields /\
    dict_get fields "type" = Some type /\
    (json_eq_str type "identity" = false \/
     exists id, dict_get fields "id" = Some id /\ json_truthy id = false).

(** An entry of a v3 catalog that ends the loop with [id]. *)
Definition chosen_v3 (service id : Json.value) : Prop :=
  exists fields,
    service = Json.JObj fields /\
    dict_get fields "type" = Some (Json.JStr "identity") /\
    dict_get fields "id" = Some id /\
    json_truthy id = true.

(** The [id] of the first endpoint of a v2 service, when the service is
    an object whose [endpoints] is a nonempty array that starts with an
    object holding [id]. *)
Definition first_endpoint_id (fields : list (string * Json.value))
    (id : Json.value) : Prop :=
  exists endpoint others,
    dict_get fields "endpoints" = Some (Json.JArr (Json.JObj endpoint :: others)) /\
    dict_get endpoint "id" = Some id.

Definition passed_over_v2 (service : Json.value) : Prop :=
  exists fields type,
    service = Json.JObj fields /\
    dict_get fields "type" = Some type /\
    (json_eq_str type "identity" = false \/
     exists id, first_endpoint_id fields id /\ json_truthy id = false).

Definition chosen_v2 (service id : Json.value) : Prop :=
  exists fields,
    service = Json.JObj fields /\
    dict_get fields "type" = Some (Json.JStr "identity") /\
    first_endpoint_id fields id /\
    json_truthy id = true.

(** A Keystone that answers every request with [status] and [body]. *)
Definition keystone_env (status : Z) (body : result Json.value) : Env :=
  mk_env (fun _ rq => Ok (mk_response status "" (rq_url rq) "" body))
         (fun _ => Raise (IOError "no such file")).

(** A v3 token whose catalog lists a compute service, an identity service
    without a usable id and an identity service with one. *)
Definition sample_token : Json.value :=
  Json.JObj
    [("token",
      Json.JObj
        [("catalog",
          Json.JArr
            [Json.JObj [("type", Json.JStr "compute"); ("id", Json.JStr "c1")];
             Json.JObj [("type", Json.JStr "identity"); ("id", Json.JStr "")];
             Json.JObj [("type", Json.JStr "identity");
                        ("id", Json.JStr "4a5b6c7d8e9f")]])])].

(** A v2 access answer of the same shape. *)
Definition sample_access : Json.value :=
  Json.JObj
    [("access",
      Json.JObj
        [("serviceCatalog",
          Json.JArr
            [Json.JObj [("type", Json.JStr "compute");
                        ("endpoints", Json.JArr [])];
             Json.JObj [("type", Json.JStr "identity");
                        ("endpoints",
                         Json.JArr [Json.JObj [("id", Json.JStr "0a1b2c")]])]])])].

(** The answer is a Keystone v3 token (status 201) with this catalog, or
    a v2 access (status 200 or 203) with this service catalog. *)
Definition v3_catalog (r : http_response) (catalog : list Json.value) : Prop :=
  r_status_code r = 201%Z /\
  exists top token,
    r_json r = Ok (Json.JObj top) /\
    dict_get top "token" = Some (Json.JObj token) /\
    dict_get token "catalog" = Some (Json.JArr catalog).

Definition v2_catalog (r : http_response) (catalog : list Json.value) : Prop :=
  (r_status_code r = 200%Z \/ r_status_code r = 203%Z) /\
  exists top access,
    r_json r = Ok (Json.JObj top) /\
    dict_get top "access" = Some (Json.JObj access) /\
    dict_get access "serviceCatalog" = Some (Json.JArr catalog).

(** A Keystone that cannot be reached. *)
Definition unreachable_env : Env :=
  mk_env (fun _ _ => Raise (ConnectionError "Connection refused"))
         (fun _ => Raise (IOError "no such file")).

(* ================================================================= *)
(** ** Reference descriptions for the submission *)

(** The request [post_results] makes for [content], with these headers. *)
Definition results_request (lib : Lib) (insecure : bool) (url : string)
    (content : Json.value) (headers : dict string) : http_request :=
  mk_request "POST" (url ++ "/v1/results/") headers []
    (Some (lib_json_dumps lib content)) (negb insecure).

(** What is printed after a submission that the server accepted with the
    JSON object [fields]. *)
Definition uploaded_message (lib : Lib) (fields : list (string * Json.value))
    : string :=
  "Test results uploaded!" ++
  String LF ("URL: " ++ lib_str lib (match dict_get fields "url" with
                                     | Some u => u
                                     | None => Json.JStr ""
                                     end)).

(** No key is given: [sign_with] is [None] or empty. *)
Definition no_key (sign_with : option string) : Prop :=
  sign_with = None \/ sign_with = Some "".

(** *** The prompt before an upload *)

(** The operator's answer is "yes" or "y", in any letter case. *)
Definition agrees (answer : string) : bool :=
  str_in (Urllib.str_lower answer) ["yes"; "y"].

(** The prompt [_upload_prompt] writes. *)
Definition upload_question (args : Args) : string :=
  "Test results will be uploaded to " ++ a_url args ++ ". Ok? (yes/y): ".

(** The upload goes ahead: [--quiet] was given, or the operator's next
    line agrees. *)
Definition consent (args : Args) (p : proc) : bool :=
  a_quiet args ||
  match p_stdin p with
  | Line answer :: _ => agrees answer
  | _ => false
  end.

(** The process when the question has been asked and answered; with
    [--quiet] nothing is asked. *)
Definition asked (args : Args) (p : proc) : proc :=
  if a_quiet args then p
  else answered (upload_question args) (tl (p_stdin p)) p.

(** The submission [_upload_prompt] makes once the upload goes ahead. *)
Definition submit (lib : Lib) (sys : Sys) (args : Args) (content : Json.value)
    : P unit :=
  run_env sys (fun env =>
    post_results lib env (a_insecure args) (a_url args) content (a_priv_key args)).

(** *** The listing *)

(** The operator entered a line (for [list], pressed Enter). *)
Definition is_enter (x : console_input) : bool :=
  match x with
  | Line _ => true
  | Interrupt => false
  end.

(** A server with three pages of results, each result with the two
    fields [list] prints, and no files. *)
Definition listing_sys : Sys :=
  mk_sys
    (fun _ rq =>
       let page := match dict_get (rq_params rq) "page" with
                   | Some n => n
                   | None => "?"
                   end in
       Ok (page_answer 3
             (Json.JArr
                [Json.JObj [("created_at", Json.JStr ("2016-01-0" ++ page));
                            ("url", Json.JStr ("https://r/" ++ page))]])))
    (fun _ _ _ => Raise (IOError "no such command"))
    longer_name
    (fun _ => Ok []).

Definition listing_args : Args :=
  mk_args false "https://refstack.example.org/api" false None "" "" None None.

(** *** The self-signature *)

(** What opening, reading and parsing the key file comes to. *)
Definition key_of (lib : Lib) (env : Env) (path : string) : result private_key :=
  match env_open env path with
  | Ok f => load_result lib f
  | Raise e => Raise e
  end.

(** The text of the file beside the key that holds the public key. *)
Definition pub_file (env : Env) (path : string) : result string :=
  match env_open env (path ++ ".pub") with
  | Ok f => f_read f
  | Raise e => Raise e
  end.

(** The environment of [good_key_env] with a public key file as well. *)
Definition key_pair_env : Env :=
  mk_env (env_http (good_key_env 201))
    (fun path =>
       if String.eqb path "key.pem.pub"
       then Ok (mk_file "<key.pem.pub>" (Ok "ssh-rsa AAAAB3Nza operator@host"))
       else env_open (good_key_env 201) path).

(** *** Pages *)

(** A server whose answers carry results but no pagination metadata. *)
Definition bare_env : Env :=
  mk_env
    (fun _ _ =>
       Ok (mk_response 200 "OK" "https://refstack.example.org/api/v1/results/" ""
             (Ok (Json.JObj [("results", Json.JArr [Json.JStr "a result"])]))))
    (fun _ => Raise (IOError "no such file")).

(** *** The overrides *)

(** The items of a text of overrides: the pieces between its "=" and
    ",". *)
Definition override_items (text : string) : list string :=
  str_split "," (str_replace "=" "," text).

(** An item holds no separator. *)
Definition is_item (x : string) : Prop :=
  str_contains "=" x = false /\ str_contains "," x = false.

(** *** Endpoints *)

(** The characters of a host name: letters, digits, "." and "-". *)
Definition host_char (c : ascii) : bool :=
  Urllib.is_upper c || Urllib.is_lower c || Urllib.is_digit c
  || Ascii.eqb c "." || Ascii.eqb c "-".

(** The parts of an endpoint [scheme://host[:port][/path]]: a scheme that
    is "http" or "https" in some letter case, a host name, a port that is
    absent or a colon and digits, a path that is absent or starts with a
    slash. *)
Definition is_http_scheme (s : string) : Prop :=
  Urllib.str_lower s = "http" \/ Urllib.str_lower s = "https".

Definition is_host (s : string) : Prop :=
  s <> "" /\ Urllib.str_all host_char s = true.

Definition is_port_part (s : string) : Prop :=
  s = "" \/
  exists digits, s = String ":" digits /\ Urllib.str_all Urllib.is_digit digits = true.

Definition is_path_part (s : string) : Prop :=
  s = "" \/ exists rest, s = String "/" rest.

(** A character that the URL parser does not treat specially: no space
    or control character, none of "/", "?", "#", "@", "[", "]", "%". *)
Definition inert (c : ascii) : bool :=
  negb (Urllib.in_range 0 32 c) &&
  negb (Urllib.in_range 9 10 c || Urllib.in_range 13 13 c) &&
  negb (Ascii.eqb c "/" || Ascii.eqb c "?" || Ascii.eqb c "#") &&
  negb (Ascii.eqb c "@") && negb (Ascii.eqb c "[") && negb (Ascii.eqb c "]") &&
  negb (Ascii.eqb c "%").

(* ================================================================= *)
(** ** Properties of the runtime model *)

Lemma str_contains_app (c : ascii) (s t : string) :
  str_contains c (s ++ t) = str_contains c s || str_contains c t.
Proof.
  induction s as [|a s IH]; simpl; [reflexivity|].
  destruct (Ascii.eqb a c); [reflexivity | exact IH].
Qed.

Lemma str_partition_Some (c : ascii) (s p r : string) :
  str_partition c s = Some (p, r) ->
  s = p ++ String c r /\ str_contains c p = false.
Proof.
  revert p r; induction s as [|a s IH]; simpl; intros p r H; [discriminate|].
  destruct (Ascii.eqb_spec a c) as [->|Hne].
  - inversion H; subst; simpl; auto.
  - destruct (str_partition c s) as [[p' r']|]; [|discriminate].
    inversion H; subst; clear H.
    destruct (IH p' r eq_refl) as [-> Hp]; simpl.
    split; [reflexivity|].
    destruct (Ascii.eqb_spec a c); [contradiction | exact Hp].
Qed.

Lemma str_partition_None (c : ascii) (s : string) :
  str_partition c s = None <-> str_contains c s = false.
Proof.
  induction s as [|a s IH]; simpl; [tauto|].
  destruct (Ascii.eqb a c); [split; discriminate|].
  destruct (str_partition c s) as [[p r]|].
  - split; [discriminate|]. intros H. apply IH in H. discriminate.
  - split; intros _; [apply IH|]; reflexivity.
Qed.

Lemma str_partition_first (c : ascii) (p r : string) :
  str_contains c p = false ->
  str_partition c (p ++ String c r) = Some (p, r).
Proof.
  induction p as [|a p IH]; simpl; intros H.
  - rewrite Ascii.eqb_refl. reflexivity.
  - destruct (Ascii.eqb a c); [discriminate|].
    rewrite (IH H). reflexivity.
Qed.

Lemma append_nil_r (s : string) : s ++ "" = s.
Proof. induction s; simpl; congruence. Qed.

Lemma append_assoc (s t u : string) : (s ++ t) ++ u = s ++ t ++ u.
Proof. induction s; simpl; congruence. Qed.

Lemma add_log_nil (w : world) : add_log w [] = w.
Proof. destruct w; unfold add_log; simpl. rewrite app_nil_r. reflexivity. Qed.

Lemma add_log_app (w : world) (a b : list (level * string)) :
  add_log (add_log w a) b = add_log w (a ++ b).
Proof. unfold add_log; simpl. rewrite app_assoc. reflexivity. Qed.

(* ================================================================= *)
(** ** [_get_full_test_ids] *)

(** One turn of the loop: the contribution of [test_id] is appended and a
    missing identifier leaves one DEBUG record; no exception escapes. *)
Lemma get_full_test_ids_body_run (d : dict string) (test_id : string)
    (test_list : list string) (w : world) :
  get_full_test_ids_body d test_id test_list w =
    (Ok (test_list ++ emitted d test_id)%list,
     add_log w (not_found_record d test_id)).
Proof.
  unfold get_full_test_ids_body, try_except, bind, dict_getitem, emitted,
    not_found_record, full_id.
  destruct (dict_get d test_id) as [attr|]; simpl.
  - rewrite add_log_nil.
    destruct attr as [|a attr].
    + rewrite andb_false_r. simpl. rewrite append_nil_r. reflexivity.
    + rewrite andb_true_r. unfold str_split1.
      destruct (str_partition "(" test_id) as [[p r]|] eqn:Hp.
      * apply str_partition_Some in Hp as Hp'. destruct Hp' as [Heq _].
        assert (Hc : str_contains "(" test_id = true).
        { rewrite Heq, str_contains_app. simpl. apply orb_true_r. }
        rewrite Hc. reflexivity.
      * apply str_partition_None in Hp. rewrite Hp. reflexivity.
  - unfold logger_log, ret, add_log. simpl. rewrite app_nil_r. reflexivity.
Qed.

Lemma for_each_get_full_test_ids (d : dict string) (ids : list string) :
  forall (acc : list string) (w : world),
    for_each ids (get_full_test_ids_body d) acc w =
      (Ok (acc ++ flat_map (emitted d) ids)%list,
       add_log w (flat_map (not_found_record d) ids)).
Proof.
  induction ids as [|x ids IH]; intros acc w; simpl.
  - unfold ret. rewrite app_nil_r, add_log_nil. reflexivity.
  - unfold bind. rewrite get_full_test_ids_body_run, IH.
    rewrite add_log_app, <- app_assoc. reflexivity.
Qed.

(** The whole call, as a function of its arguments and of the world. *)
Lemma get_full_test_ids_run (d : dict string) (ids : list string) (w : world) :
  _get_full_test_ids d ids w =
    (Ok (flat_map (emitted d) ids),
     add_log w (flat_map (not_found_record d) ids ++
                [(DEBUG, "Number of tests: " ++
                    str_of_nat (List.length (flat_map (emitted d) ids)))])).
Proof.
  unfold _get_full_test_ids, bind.
  rewrite for_each_get_full_test_ids.
  unfold logger_log, ret, add_log. simpl. rewrite app_assoc. reflexivity.
Qed.

Lemma flat_map_emitted_filter (d : dict string) (ids : list string) :
  flat_map (emitted d) ids =
    map (fun t => match dict_get d t with
                  | Some attr => full_id t attr
                  | None => t
                  end) (filter (in_dict d) ids).
Proof.
  induction ids as [|x ids IH]; simpl; [reflexivity|].
  unfold emitted at 1, in_dict at 1.
  destruct (dict_get d x) eqn:Hx; simpl; rewrite IH; [rewrite Hx|]; reflexivity.
Qed.

Lemma full_id_cases (test_id attr : string) :
  (attr = "" -> full_id test_id attr = test_id) /\
  (attr <> "" -> str_contains "(" test_id = false ->
     full_id test_id attr = test_id ++ attr) /\
  (attr <> "" -> forall prefix remainder,
     test_id = prefix ++ "(" ++ remainder ->
     str_contains "(" prefix = false ->
     full_id test_id attr = prefix ++ attr ++ "(" ++ remainder).
Proof.
  unfold full_id. repeat split.
  - intros ->. reflexivity.
  - intros Hne Hc. destruct attr; [congruence|].
    apply str_partition_None in Hc. rewrite Hc. reflexivity.
  - intros Hne p r -> Hp. destruct attr; [congruence|].
    change (p ++ "(" ++ r) with (p ++ String "(" r).
    rewrite (str_partition_first _ _ _ Hp). reflexivity.
Qed.

(** C1.  For every mapping and every requested identifier [test_id] that
    the mapping holds with tag [attr], wherever it stands in the request
    ([before ++ test_id :: after]), normalisation emits exactly one entry
    [e] for it, between what it emits for [before] and for [after]; [e] is
    [test_id] unchanged when the tag is empty, [test_id ++ attr] when the
    tag is nonempty and [test_id] has no "(", and
    [prefix ++ attr ++ "(" ++ remainder] when the tag is nonempty and
    [test_id] splits at its first "(" into [prefix] and [remainder].
    Requesting [pkg.t2(variant)] under tag [[id-3,smoke]] yields
    [pkg.t2[id-3,smoke](variant)], and [pkg.t1] under [[gate,id-2]] yields
    [pkg.t1[gate,id-2]]. *)
Theorem get_full_test_ids_emits :
  (forall (tempest_ids : dict string) (before after : list string)
          (test_id attr : string) (w : world),
      dict_get tempest_ids test_id = Some attr ->
      exists (e : string) (o1 o2 : list string),
        fst (_get_full_test_ids tempest_ids before w) = Ok o1 /\
        fst (_get_full_test_ids tempest_ids after w) = Ok o2 /\
        fst (_get_full_test_ids tempest_ids (before ++ test_id :: after) w) =
          Ok (o1 ++ e :: o2)%list /\
        fst (_get_full_test_ids tempest_ids [test_id] w) = Ok [e] /\
        (attr = "" -> e = test_id) /\
        (attr <> "" -> str_contains "(" test_id = false ->
           e = test_id ++ attr) /\
        (attr <> "" -> forall prefix remainder,
           test_id = prefix ++ "(" ++ remainder ->
           str_contains "(" prefix = false ->
           e = prefix ++ attr ++ "(" ++ remainder)) /\
  fst (_get_full_test_ids [("pkg.t2(variant)", "[id-3,smoke]")]
         ["pkg.t2(variant)"] empty_world) = Ok ["pkg.t2[id-3,smoke](variant)"] /\
  fst (_get_full_test_ids [("pkg.t1", "[gate,id-2]")]
         ["pkg.t1"] empty_world) = Ok ["pkg.t1[gate,id-2]"].
Proof.
  split; [|split; reflexivity].
  intros d before after test_id attr w Hget.
  exists (full_id test_id attr),
    (flat_map (emitted d) before), (flat_map (emitted d) after).
  rewrite !get_full_test_ids_run. simpl fst.
  assert (He : emitted d test_id = [full_id test_id attr])
    by (unfold emitted; rewrite Hget; reflexivity).
  rewrite flat_map_app. simpl flat_map. rewrite He, app_nil_r. simpl.
  repeat split; try reflexivity; apply full_id_cases.
Qed.

Lemma get_full_test_ids_emits_witness :
  exists e : string,
    fst (_get_full_test_ids
           [("a.t0", ""); ("a.t1(s)", "[x]"); ("a.t2", "[y]")]
           ["a.t0"; "a.t1(s)"; "a.t2"] empty_world) =
      Ok (["a.t0"] ++ e :: ["a.t2[y]"])%list /\
    e = "a.t1" ++ "[x]" ++ "(" ++ "s)".
Proof.
  destruct (proj1 get_full_test_ids_emits
              [("a.t0", ""); ("a.t1(s)", "[x]"); ("a.t2", "[y]")]
              ["a.t0"] ["a.t2"] "a.t1(s)" "[x]" empty_world eq_refl)
    as (e & o1 & o2 & H1 & H2 & H3 & _ & _ & _ & H7).
  exists e. split.
  - vm_compute in H1, H2. inversion H1; inversion H2; subst o1 o2. exact H3.
  - apply H7; [discriminate | reflexivity | reflexivity].
Defined.

(** C2.  For every mapping and every requested sequence the call returns
    (it never raises) the requested sequence filtered to the identifiers
    that are keys of the mapping, each kept one rewritten where it stands,
    so order and duplicates are those of the input and the output is no
    longer than the input.  Each time an absent identifier is met it
    leaves one DEBUG record; nothing else is recorded but the final DEBUG
    count, and nothing else in the world changes. *)
Theorem get_full_test_ids_filters :
  forall (tempest_ids : dict string) (base_ids : list string) (w : world),
    let out :=
      map (fun t => match dict_get tempest_ids t with
                    | Some attr => full_id t attr
                    | None => t
                    end) (filter (in_dict tempest_ids) base_ids) in
    let recs :=
      (flat_map (not_found_record tempest_ids) base_ids ++
       [(DEBUG, ("Number of tests: " ++ str_of_nat (List.length out))%string)])%list in
    _get_full_test_ids tempest_ids base_ids w = (Ok out, add_log w recs) /\
    List.length out <= List.length base_ids /\
    Forall (fun r => fst r = DEBUG) recs /\
    (forall t, In t base_ids -> dict_get tempest_ids t = None ->
       ~ In t (filter (in_dict tempest_ids) base_ids) /\
       In (DEBUG, "Test " ++ t ++ " not found in Tempest list.") recs) /\
    (forall t, dict_get tempest_ids t <> None ->
       count_occ string_dec (filter (in_dict tempest_ids) base_ids) t =
       count_occ string_dec base_ids t).
Proof.
  intros d ids w out recs. subst out recs.
  rewrite get_full_test_ids_run, flat_map_emitted_filter.
  split; [reflexivity|].
  split; [rewrite length_map; apply filter_length_le|].
  split.
  { apply Forall_app. split; [|repeat constructor].
    apply Forall_forall. intros r Hr. apply in_flat_map in Hr.
    destruct Hr as (t & _ & Hr). unfold not_found_record in Hr.
    destruct (dict_get d t); simpl in Hr; [contradiction|].
    destruct Hr as [<-|[]]. reflexivity. }
  split.
  - intros t Hin Hnone. split.
    + intros Hf. apply filter_In in Hf. destruct Hf as [_ Hf].
      unfold in_dict in Hf. rewrite Hnone in Hf. discriminate.
    + apply in_or_app. left. apply in_flat_map. exists t. split; [exact Hin|].
      unfold not_found_record. rewrite Hnone. left. reflexivity.
  - intros t Hsome. induction ids as [|x ids IH]; simpl; [reflexivity|].
    unfold in_dict at 1. destruct (string_dec x t) as [->|Hne].
    + destruct (dict_get d t); [|congruence]. simpl.
      destruct (string_dec t t); [|congruence]. rewrite IH. reflexivity.
    + destruct (dict_get d x); simpl; [|exact IH].
      destruct (string_dec x t); [contradiction | exact IH].
Qed.

(* ================================================================= *)
(** ** The pattern [\[.*\]] on a line *)

Lemma str_rpartition_Some (c : ascii) (s p r : string) :
  str_rpartition c s = Some (p, r) ->
  s = p ++ String c r /\ str_contains c r = false.
Proof.
  revert p r; induction s as [|a s IH]; simpl; intros p r H; [discriminate|].
  destruct (str_rpartition c s) as [[p' r']|] eqn:Hs.
  - inversion H; subst; clear H.
    destruct (IH p' r eq_refl) as [-> Hr]. simpl. auto.
  - destruct (Ascii.eqb_spec a c) as [->|]; [|discriminate].
    inversion H; subst; clear H. simpl. split; [reflexivity|].
    clear IH. induction r as [|b r IHr]; simpl in *; [reflexivity|].
    destruct (str_rpartition c r) as [[? ?]|]; [discriminate|].
    destruct (Ascii.eqb b c); [discriminate|]. apply IHr. reflexivity.
Qed.

Lemma str_rpartition_None (c : ascii) (s : string) :
  str_rpartition c s = None <-> str_contains c s = false.
Proof.
  induction s as [|a s IH]; simpl; [tauto|].
  destruct (str_rpartition c s) as [[p r]|].
  - split; [discriminate|]. destruct (Ascii.eqb a c); [discriminate|].
    intros H. apply IH in H. discriminate.
  - destruct (Ascii.eqb a c); [split; discriminate|].
    split; intros _; [apply IH|]; reflexivity.
Qed.

Lemma str_rpartition_last (c : ascii) (p r : string) :
  str_contains c r = false ->
  str_rpartition c (p ++ String c r) = Some (p, r).
Proof.
  intros Hr. induction p as [|a p IH]; simpl.
  - apply str_rpartition_None in Hr. rewrite Hr, Ascii.eqb_refl. reflexivity.
  - rewrite IH. reflexivity.
Qed.

Lemma is_line_cons (a : ascii) (s : string) :
  is_line (String a s) -> a <> LF /\ is_line s.
Proof.
  unfold is_line; simpl. destruct (Ascii.eqb_spec a LF); [discriminate|auto].
Qed.

Lemma is_line_app (s t : string) :
  is_line (s ++ t) <-> is_line s /\ is_line t.
Proof.
  unfold is_line. rewrite str_contains_app. apply orb_false_iff.
Qed.

(** [.*\]] after the opening bracket: the star runs to the end of the line
    and backs up to the last "]". *)
Lemma match_star_close (t : string) :
  is_line t ->
  Re.match_star Re.AnyChar (Re.match_here [Re.One (Re.Chr "]")]) t =
    match str_rpartition "]" t with
    | Some (mid, _) => Some (S (String.length mid))
    | None => None
    end.
Proof.
  induction t as [|c t IH]; intros Hl; [reflexivity|].
  apply is_line_cons in Hl. destruct Hl as [Hc Hl].
  cbn [Re.match_star Re.atom_matches].
  destruct (Ascii.eqb_spec c LF) as [|_]; [contradiction|]. cbn [negb].
  rewrite (IH Hl). cbn [str_rpartition].
  destruct (str_rpartition "]" t) as [[mid post]|]; [reflexivity|].
  cbn [Re.match_here Re.atom_matches].
  destruct (Ascii.eqb c "]"); reflexivity.
Qed.

Lemma match_here_bracket (s : string) :
  is_line s ->
  Re.match_here bracket_re s =
    match s with
    | EmptyString => None
    | String c t =>
        if Ascii.eqb c "[" then
          match str_rpartition "]" t with
          | Some (mid, _) => Some (S (S (String.length mid)))
          | None => None
          end
        else None
    end.
Proof.
  intros Hl. destruct s as [|c t]; [reflexivity|].
  apply is_line_cons in Hl. destruct Hl as [_ Hl].
  change (Re.match_here bracket_re (String c t)) with
    (if Ascii.eqb c "[" then
       option_map S (Re.match_star Re.AnyChar
                       (Re.match_here [Re.One (Re.Chr "]")]) t)
     else None).
  destruct (Ascii.eqb c "["); [|reflexivity].
  rewrite (match_star_close t Hl).
  destruct (str_rpartition "]" t) as [[mid post]|]; reflexivity.
Qed.

Lemma split_span_no_close (s : string) :
  str_contains "]" s = false -> split_span s = None.
Proof.
  intros H. unfold split_span.
  destruct (str_partition "[" s) as [[pre t]|] eqn:Hp; [|reflexivity].
  apply str_partition_Some in Hp. destruct Hp as [-> _].
  rewrite str_contains_app in H. apply orb_false_iff in H. destruct H as [_ H].
  simpl in H. apply str_rpartition_None in H. rewrite H. reflexivity.
Qed.

Lemma split_span_cons (c : ascii) (s : string) :
  split_span (String c s) =
    if Ascii.eqb c "[" then
      match str_rpartition "]" s with
      | Some (mid, post) => Some ("", mid, post)
      | None => None
      end
    else
      match split_span s with
      | Some (pre, mid, post) => Some (String c pre, mid, post)
      | None => None
      end.
Proof.
  unfold split_span. simpl. destruct (Ascii.eqb c "["); [reflexivity|].
  destruct (str_partition "[" s) as [[pre t]|]; [|reflexivity].
  destruct (str_rpartition "]" t) as [[mid post]|]; reflexivity.
Qed.

(** [re.search]: the match starts at the first "[" that has a "]" after
    it, which on a line is the first "[" of all, and ends at the last "]". *)
Lemma search_from_bracket (s : string) :
  is_line s -> forall pos,
  Re.search_from bracket_re s pos =
    match split_span s with
    | Some (pre, mid, _) =>
        Some (pos + String.length pre, S (S (String.length mid)))
    | None => None
    end.
Proof.
  induction s as [|c s IH]; intros Hl pos.
  - reflexivity.
  - cbn [Re.search_from]. rewrite (match_here_bracket _ Hl), split_span_cons.
    apply is_line_cons in Hl. destruct Hl as [_ Hl].
    destruct (Ascii.eqb c "[").
    + destruct (str_rpartition "]" s) as [[mid post]|] eqn:Hr.
      * simpl. rewrite Nat.add_0_r. reflexivity.
      * rewrite (IH Hl). apply str_rpartition_None in Hr.
        rewrite (split_span_no_close _ Hr). reflexivity.
    + rewrite (IH Hl). destruct (split_span s) as [[[pre mid] post]|];
        [|reflexivity].
      simpl. rewrite Nat.add_succ_r. reflexivity.
Qed.

Lemma sub_from_skip (p : Re.pattern) (repl a b : string) :
  Re.sub_from p repl (a ++ b) (String.length a) = Re.sub_from p repl b 0.
Proof.
  induction a as [|c a IH]; simpl; [reflexivity | exact IH].
Qed.

Lemma sub_from_no_close (s : string) :
  is_line s -> str_contains "]" s = false ->
  Re.sub_from bracket_re "" s 0 = s.
Proof.
  induction s as [|c s IH]; intros Hl Hc; [reflexivity|].
  cbn [Re.sub_from]. rewrite (match_here_bracket _ Hl).
  apply is_line_cons in Hl. destruct Hl as [_ Hl].
  simpl in Hc. destruct (Ascii.eqb c "]"); [discriminate|].
  assert (Hr : str_rpartition "]" s = None) by (apply str_rpartition_None; exact Hc).
  rewrite Hr. rewrite (IH Hl Hc).
  destruct (Ascii.eqb c "["); reflexivity.
Qed.

(** [re.sub]: on a line the first match swallows every "]", so the one
    span is removed and nothing else. *)
Lemma sub_bracket (s : string) :
  is_line s ->
  Re.sub bracket_re "" s =
    match split_span s with
    | Some (pre, _, post) => pre ++ post
    | None => s
    end.
Proof.
  unfold Re.sub. induction s as [|c s IH]; intros Hl; [reflexivity|].
  cbn [Re.sub_from]. rewrite (match_here_bracket _ Hl), split_span_cons.
  apply is_line_cons in Hl. destruct Hl as [_ Hl].
  destruct (Ascii.eqb c "[").
  - destruct (str_rpartition "]" s) as [[mid post]|] eqn:Hr.
    + apply str_rpartition_Some in Hr. destruct Hr as [-> Hpost].
      apply is_line_app in Hl. destruct Hl as [_ Hl].
      apply is_line_cons in Hl. destruct Hl as [_ Hl].
      change (mid ++ String "]" post) with (mid ++ String "]" "" ++ post).
      rewrite <- append_assoc.
      replace (S (String.length mid)) with (String.length (mid ++ String "]" "")).
      * rewrite sub_from_skip. simpl. apply sub_from_no_close; assumption.
      * clear. induction mid; simpl; congruence.
    + rewrite (IH Hl). apply str_rpartition_None in Hr.
      rewrite (split_span_no_close _ Hr). reflexivity.
  - rewrite (IH Hl). destruct (split_span s) as [[[pre mid] post]|]; reflexivity.
Qed.

(* ================================================================= *)
(** ** The bracket group by positions *)

Lemma length_append (s t : string) :
  String.length (s ++ t) = String.length s + String.length t.
Proof. induction s; simpl; congruence. Qed.

Lemma substring_all (s : string) : substring 0 (String.length s) s = s.
Proof. induction s; simpl; congruence. Qed.

Lemma substring_prefix (s t : string) :
  substring 0 (String.length s) (s ++ t) = s.
Proof.
  induction s as [|a s IH]; simpl; [destruct t; reflexivity | congruence].
Qed.

Lemma substring_skip (s t : string) (n m : nat) :
  substring (String.length s + n) m (s ++ t) = substring n m t.
Proof. induction s as [|a s IH]; simpl; [reflexivity | exact IH]. Qed.

Lemma find_first_partition (c : ascii) (s : string) :
  find_first c s =
    match str_partition c s with
    | Some (p, _) => Some (String.length p)
    | None => None
    end.
Proof.
  induction s as [|a s IH]; simpl; [reflexivity|].
  destruct (Ascii.eqb a c); [reflexivity|]. rewrite IH.
  destruct (str_partition c s) as [[p r]|]; reflexivity.
Qed.

Lemma find_last_rpartition (c : ascii) (s : string) :
  find_last c s =
    match str_rpartition c s with
    | Some (p, _) => Some (String.length p)
    | None => None
    end.
Proof.
  induction s as [|a s IH]; simpl; [reflexivity|]. rewrite IH.
  destruct (str_rpartition c s) as [[p r]|]; [reflexivity|].
  destruct (Ascii.eqb a c); reflexivity.
Qed.

Lemma find_last_app (c : ascii) (s t : string) :
  find_last c (s ++ t) =
    match find_last c t with
    | Some j => Some (String.length s + j)
    | None => find_last c s
    end.
Proof.
  induction s as [|a s IH]; simpl.
  - destruct (find_last c t); reflexivity.
  - rewrite IH. destruct (find_last c t); reflexivity.
Qed.

Lemma find_last_lt (c : ascii) (s : string) (j : nat) :
  find_last c s = Some j -> j < String.length s.
Proof.
  revert j; induction s as [|a s IH]; simpl; intros j H; [discriminate|].
  destruct (find_last c s) as [j'|].
  - inversion H; subst. specialize (IH j' eq_refl). lia.
  - destruct (Ascii.eqb a c); inversion H; subst. lia.
Qed.

Lemma split_span_Some (s pre mid post : string) :
  split_span s = Some (pre, mid, post) ->
  s = pre ++ "[" ++ mid ++ "]" ++ post /\
  str_contains "[" pre = false /\ str_contains "]" post = false.
Proof.
  unfold split_span. intros H.
  destruct (str_partition "[" s) as [[p t]|] eqn:Hp; [|discriminate].
  destruct (str_rpartition "]" t) as [[m r]|] eqn:Hr; [|discriminate].
  inversion H; subst; clear H.
  apply str_partition_Some in Hp. destruct Hp as [-> Hpre].
  apply str_rpartition_Some in Hr. destruct Hr as [-> Hpost].
  auto.
Qed.

Lemma split_span_intro (pre mid post : string) :
  str_contains "[" pre = false -> str_contains "]" post = false ->
  split_span (pre ++ "[" ++ mid ++ "]" ++ post) = Some (pre, mid, post).
Proof.
  intros Hpre Hpost. unfold split_span.
  change (pre ++ "[" ++ mid ++ "]" ++ post)
    with (pre ++ String "[" (mid ++ String "]" post)).
  rewrite (str_partition_first _ _ _ Hpre), (str_rpartition_last _ _ _ Hpost).
  reflexivity.
Qed.

Lemma str_rpartition_app_Some (c : ascii) (x y : string) :
  str_rpartition c (x ++ String c y) <> None.
Proof.
  intros H. apply str_rpartition_None in H.
  rewrite str_contains_app in H. simpl in H.
  rewrite Ascii.eqb_refl, orb_true_r in H. discriminate.
Qed.

(** No "[" with a "]" somewhere after it: no group. *)
Lemma split_span_None (s : string) :
  split_span s = None ->
  forall a b c, s <> a ++ "[" ++ b ++ "]" ++ c.
Proof.
  intros H a b c ->. revert H.
  change (a ++ "[" ++ b ++ "]" ++ c) with (a ++ String "[" (b ++ String "]" c)).
  induction a as [|x a IH]; cbn [append]; rewrite split_span_cons.
  - rewrite Ascii.eqb_refl.
    pose proof (str_rpartition_app_Some "]" b c) as Hn.
    destruct (str_rpartition "]" (b ++ String "]" c)) as [[? ?]|];
      [discriminate | contradiction].
  - destruct (Ascii.eqb x "[").
    + pose proof (str_rpartition_app_Some "]" (a ++ String "[" b) c) as Hn.
      rewrite append_assoc in Hn. cbn [append] in Hn.
      destruct (str_rpartition "]" (a ++ String "[" (b ++ String "]" c)))
        as [[? ?]|]; [discriminate | contradiction].
    + destruct (split_span (a ++ String "[" (b ++ String "]" c)))
        as [[[? ?] ?]|]; [discriminate | exact IH].
Qed.

Lemma substring_middle (a b c : string) :
  substring (String.length a) (String.length b) (a ++ b ++ c) = b.
Proof.
  rewrite <- (Nat.add_0_r (String.length a)), substring_skip.
  apply substring_prefix.
Qed.

Lemma substring_suffix (a c : string) :
  substring (String.length a) (String.length c) (a ++ c) = c.
Proof.
  rewrite <- (Nat.add_0_r (String.length a)), substring_skip.
  apply substring_all.
Qed.

(** The positions and the three pieces describe the same group. *)
Lemma base_and_tag_split_span (line : string) :
  base_and_tag line =
    match split_span line with
    | Some (pre, mid, post) => (pre ++ post, "[" ++ mid ++ "]")
    | None => (line, "")
    end.
Proof.
  unfold base_and_tag, bracket_span.
  rewrite find_first_partition.
  destruct (split_span line) as [[[pre mid] post]|] eqn:Hs.
  - apply split_span_Some in Hs. destruct Hs as (-> & Hpre & Hpost).
    change (pre ++ "[" ++ mid ++ "]" ++ post)
      with (pre ++ String "[" (mid ++ String "]" post)).
    rewrite (str_partition_first _ _ _ Hpre).
    rewrite find_last_app. cbn [find_last].
    rewrite find_last_rpartition, (str_rpartition_last _ _ _ Hpost).
    assert (Hlt : Nat.ltb (String.length pre)
                    (String.length pre + S (String.length mid)) = true)
      by (apply Nat.ltb_lt; lia).
    rewrite Hlt.
    set (tag := "[" ++ mid ++ "]").
    assert (Hline : pre ++ String "[" (mid ++ String "]" post) = pre ++ tag ++ post).
    { unfold tag. simpl. rewrite append_assoc. reflexivity. }
    assert (Htag : String.length tag = S (S (String.length mid))).
    { unfold tag. simpl. rewrite length_append. simpl. lia. }
    rewrite Hline. f_equal.
    + rewrite substring_prefix. f_equal.
      rewrite <- append_assoc.
      replace (S (String.length pre + S (String.length mid)))
        with (String.length (pre ++ tag)) by (rewrite length_append; lia).
      replace (String.length ((pre ++ tag) ++ post) - String.length (pre ++ tag))
        with (String.length post) by (rewrite (length_append (pre ++ tag)); lia).
      apply substring_suffix.
    + replace (S (String.length pre + S (String.length mid)) - String.length pre)
        with (String.length tag) by lia.
      apply substring_middle.
  - unfold split_span in Hs.
    destruct (str_partition "[" line) as [[pre t]|] eqn:Hp; [|reflexivity].
    destruct (str_rpartition "]" t) as [[? ?]|] eqn:Hr; [discriminate|].
    apply str_partition_Some in Hp. destruct Hp as [-> Hpre].
    rewrite find_last_app. cbn [find_last].
    rewrite find_last_rpartition, Hr. simpl.
    destruct (find_last "]" pre) as [j|] eqn:Hj; [|reflexivity].
    apply find_last_lt in Hj.
    assert (Hge : Nat.ltb (String.length pre) j = false) by (apply Nat.ltb_ge; lia).
    rewrite Hge. reflexivity.
Qed.

(* ================================================================= *)
(** ** Dictionaries *)

Lemma dict_get_set {V} (d : dict V) (k k' : string) (v : V) :
  dict_get (dict_set d k v) k' =
    if String.eqb k k' then Some v else dict_get d k'.
Proof.
  induction d as [|[k0 v0] d IH]; simpl.
  - reflexivity.
  - destruct (String.eqb_spec k0 k) as [->|Hne]; simpl.
    + destruct (String.eqb k k'); reflexivity.
    + rewrite IH. destruct (String.eqb_spec k0 k') as [->|]; [|reflexivity].
      destruct (String.eqb_spec k k'); [congruence | reflexivity].
Qed.

Lemma dict_keys_set {V} (d : dict V) (k : string) (v : V) :
  dict_keys (dict_set d k v) =
    if in_dict d k then dict_keys d else (dict_keys d ++ [k])%list.
Proof.
  unfold dict_keys, in_dict. induction d as [|[k0 v0] d IH]; simpl.
  - reflexivity.
  - destruct (String.eqb k0 k); simpl; [reflexivity|].
    rewrite IH. destruct (dict_get d k); reflexivity.
Qed.

Lemma dict_get_In_keys {V} (d : dict V) (k : string) :
  In k (dict_keys d) <-> dict_get d k <> None.
Proof.
  unfold dict_keys. induction d as [|[k0 v0] d IH]; simpl.
  - split; [tauto | congruence].
  - destruct (String.eqb_spec k0 k) as [->|Hne].
    + split; [discriminate | auto].
    + rewrite <- IH. split; [intros [?|?]; [contradiction | assumption] | auto].
Qed.

Lemma dict_set_NoDup {V} (d : dict V) (k : string) (v : V) :
  NoDup (dict_keys d) -> NoDup (dict_keys (dict_set d k v)).
Proof.
  intros Hd. rewrite dict_keys_set. unfold in_dict.
  destruct (dict_get d k) eqn:Hk; [exact Hd|].
  apply NoDup_app; [exact Hd | repeat constructor; intros [] |].
  intros x Hx [<-|[]]. apply dict_get_In_keys in Hx. congruence.
Qed.

(* ================================================================= *)
(** ** [_form_test_id_mappings] *)

(** One turn of the loop on a line, by the positions of the brackets. *)
Lemma form_test_id_mappings_body_line (d : dict string) (testcase : string) :
  is_line testcase ->
  form_test_id_mappings_body d testcase =
    if String.eqb testcase "" then d
    else dict_set d (fst (base_and_tag testcase)) (snd (base_and_tag testcase)).
Proof.
  intros Hl. unfold form_test_id_mappings_body.
  destruct (String.eqb testcase ""); [reflexivity|]. cbn [negb].
  unfold Re.search. rewrite (search_from_bracket _ Hl), (sub_bracket _ Hl).
  rewrite base_and_tag_split_span.
  destruct (split_span testcase) as [[[pre mid] post]|] eqn:Hs; [|reflexivity].
  cbn [fst snd]. f_equal.
  apply split_span_Some in Hs. destruct Hs as (-> & _ & _).
  unfold Re.group. cbn [Re.m_string Re.m_start Re.m_length].
  change (0 + String.length pre) with (String.length pre).
  set (tag := "[" ++ mid ++ "]").
  replace (S (S (String.length mid))) with (String.length tag)
    by (unfold tag; simpl; rewrite length_append; simpl; lia).
  replace (pre ++ "[" ++ mid ++ "]" ++ post) with (pre ++ tag ++ post)
    by (unfold tag; simpl; rewrite append_assoc; reflexivity).
  apply substring_middle.
Qed.

Lemma form_test_id_mappings_snoc (lines : list string) (x : string) :
  _form_test_id_mappings (lines ++ [x]) =
    form_test_id_mappings_body (_form_test_id_mappings lines) x.
Proof. unfold _form_test_id_mappings. rewrite fold_left_app. reflexivity. Qed.

Lemma form_test_id_mappings_NoDup (lines : list string) :
  NoDup (dict_keys (_form_test_id_mappings lines)).
Proof.
  induction lines as [|x lines IH] using rev_ind; [constructor|].
  rewrite form_test_id_mappings_snoc. unfold form_test_id_mappings_body.
  destruct (negb (String.eqb x "")); [|exact IH].
  destruct (Re.search bracket_re x); apply dict_set_NoDup; exact IH.
Qed.

Lemma snoc_split {A} (l l1 l2 : list A) (x y : A) :
  (l ++ [x] = l1 ++ y :: l2)%list ->
  (l2 = [] /\ l = l1 /\ x = y) \/
  (exists l2', l2 = (l2' ++ [x])%list /\ l = (l1 ++ y :: l2')%list).
Proof.
  intros H. destruct l2 as [|z l2 _] using rev_ind.
  - left. apply app_inj_tail in H. destruct H; auto.
  - right. exists l2.
    change (l1 ++ y :: l2 ++ [z])%list with (l1 ++ (y :: l2) ++ [z])%list in H.
    rewrite app_assoc in H. apply app_inj_tail in H. destruct H as [-> ->]. auto.
Qed.

Lemma decides_snoc_other (lines : list string) (x k v : string) :
  (x = "" \/ fst (base_and_tag x) <> k) ->
  decides (lines ++ [x]) k v <-> decides lines k v.
Proof.
  intros Hx. split.
  - intros (l1 & line & l2 & Heq & Hne & Hbt & Hlast).
    apply snoc_split in Heq. destruct Heq as [(-> & -> & ->)|(l2' & -> & ->)].
    + destruct Hx as [Hx|Hx]; [contradiction|]. rewrite Hbt in Hx. contradiction.
    + exists l1, line, l2'. repeat split; auto.
      intros l Hl. apply Hlast. apply in_or_app. auto.
  - intros (l1 & line & l2 & -> & Hne & Hbt & Hlast).
    exists l1, line, (l2 ++ [x])%list. rewrite <- app_assoc. repeat split; auto.
    intros l Hl Hlne. apply in_app_or in Hl. destruct Hl as [Hl|[<-|[]]].
    + apply Hlast; assumption.
    + destruct Hx; [contradiction | assumption].
Qed.

Lemma decides_snoc_same (lines : list string) (x k v : string) :
  x <> "" -> fst (base_and_tag x) = k ->
  decides (lines ++ [x]) k v <-> v = snd (base_and_tag x).
Proof.
  intros Hne Hk. split.
  - intros (l1 & line & l2 & Heq & _ & Hbt & Hlast).
    apply snoc_split in Heq. destruct Heq as [(-> & -> & ->)|(l2' & -> & ->)].
    + rewrite Hbt. reflexivity.
    + exfalso. apply (Hlast x); auto. apply in_or_app. right. left. reflexivity.
  - intros ->. exists lines, x, []. split; [reflexivity|]. split; [exact Hne|].
    split; [rewrite <- Hk; destruct (base_and_tag x); reflexivity|].
    intros l [].
Qed.

Lemma form_test_id_mappings_get (lines : list string) :
  Forall is_line lines ->
  forall k v,
    dict_get (_form_test_id_mappings lines) k = Some v <-> decides lines k v.
Proof.
  induction lines as [|x lines IH] using rev_ind; intros Hl k v.
  - simpl. split; [discriminate|].
    intros (l1 & line & l2 & Heq & _). destruct l1; discriminate.
  - apply Forall_app in Hl. destruct Hl as [Hl Hx].
    apply Forall_inv in Hx.
    rewrite form_test_id_mappings_snoc, (form_test_id_mappings_body_line _ _ Hx).
    destruct (String.eqb_spec x "") as [->|Hne].
    + rewrite decides_snoc_other by auto. apply IH; assumption.
    + rewrite dict_get_set.
      destruct (String.eqb_spec (fst (base_and_tag x)) k) as [Hk|Hk].
      * rewrite (decides_snoc_same _ _ _ _ Hne Hk).
        split; [intros H; inversion H; reflexivity | intros ->; reflexivity].
      * rewrite decides_snoc_other by auto. apply IH; assumption.
Qed.

Lemma form_test_id_mappings_keys (lines : list string) :
  Forall is_line lines ->
  forall k,
    In k (dict_keys (_form_test_id_mappings lines)) <->
    exists line, In line lines /\ line <> "" /\ fst (base_and_tag line) = k.
Proof.
  induction lines as [|x lines IH] using rev_ind; intros Hl k.
  - simpl. split; [tauto | intros (? & [] & _)].
  - apply Forall_app in Hl. destruct Hl as [Hl Hx]. apply Forall_inv in Hx.
    rewrite form_test_id_mappings_snoc, (form_test_id_mappings_body_line _ _ Hx).
    assert (Hrest :
      (exists line, In line lines /\ line <> "" /\ fst (base_and_tag line) = k) ->
       exists line, In line (lines ++ [x]) /\ line <> "" /\
                    fst (base_and_tag line) = k).
    { intros (line & Hin & H). exists line. split; [|exact H].
      apply in_or_app. auto. }
    destruct (String.eqb_spec x "") as [->|Hne].
    + rewrite (IH Hl). split; [exact Hrest|].
      intros (line & Hin & Hne & Hk). exists line. split; [|auto].
      apply in_app_or in Hin. destruct Hin as [Hin|[<-|[]]]; [exact Hin|].
      contradiction.
    + rewrite dict_get_In_keys, dict_get_set.
      destruct (String.eqb_spec (fst (base_and_tag x)) k) as [Hk|Hk].
      * split; [|discriminate]. intros _. exists x. split; [|auto].
        apply in_or_app. right. left. reflexivity.
      * rewrite <- dict_get_In_keys, (IH Hl). split; [exact Hrest|].
        intros (line & Hin & Hlne & Hlk). exists line. split; [|auto].
        apply in_app_or in Hin. destruct Hin as [Hin|[<-|[]]]; [exact Hin|].
        contradiction.
Qed.

(** The pieces of [text.split('\n')] are lines. *)
Lemma str_split_lines (text : string) : Forall is_line (str_split LF text).
Proof.
  induction text as [|a text IH]; simpl.
  - repeat constructor.
  - destruct (Ascii.eqb_spec a LF) as [->|Hne].
    + constructor; [reflexivity | exact IH].
    + destruct (str_split LF text) as [|h t]; [repeat constructor|].
      * unfold is_line. simpl. destruct (Ascii.eqb_spec a LF); [contradiction|reflexivity].
      * inversion IH; subst. constructor; [|assumption].
        unfold is_line in *. simpl.
        destruct (Ascii.eqb_spec a LF); [contradiction | assumption].
Qed.

(** Why lines: [.] does not cross a line feed and [re.sub] replaces every
    match, so on a text of two lines each line loses its own group and the
    first group alone is the value. *)
Remark form_test_id_mappings_two_lines :
  let text := "a[b]" ++ String LF "c[d]" in
  _form_test_id_mappings [text] = [("a" ++ String LF "c", "[b]")] /\
  base_and_tag text = ("a", "[b]" ++ String LF "c[d]").
Proof. split; reflexivity. Qed.

(** C3.  For every sequence of lines, the mapping that
    [_form_test_id_mappings] returns (a total function: nothing in it can
    raise) holds at key [k] the value [v] exactly when the last nonempty
    line whose key is [k] has value [v]; so empty lines store nothing and a
    later line overwrites an earlier one with the same key.  Key and value
    of a nonempty line are [base_and_tag]: with the line's first "[" before
    its last "]", the line without the span between them and the span with
    its brackets; otherwise the whole line and the empty string.  The keys
    of the mapping are the keys of the nonempty lines, each once. *)
Theorem form_test_id_mappings_spec :
  forall lines : list string,
    Forall is_line lines ->
    let m := _form_test_id_mappings lines in
    (forall k v, dict_get m k = Some v <-> decides lines k v) /\
    (forall k, In k (dict_keys m) <->
       exists line, In line lines /\ line <> "" /\ fst (base_and_tag line) = k) /\
    NoDup (dict_keys m) /\
    (forall pre mid post,
       str_contains "[" pre = false -> str_contains "]" post = false ->
       base_and_tag (pre ++ "[" ++ mid ++ "]" ++ post) =
         (pre ++ post, "[" ++ mid ++ "]")) /\
    (forall line, (forall a b c, line <> a ++ "[" ++ b ++ "]" ++ c) ->
       base_and_tag line = (line, "")) /\
    (forall line,
       (exists pre mid post, line = pre ++ "[" ++ mid ++ "]" ++ post /\
          str_contains "[" pre = false /\ str_contains "]" post = false) \/
       (forall a b c, line <> a ++ "[" ++ b ++ "]" ++ c)).
Proof.
  intros lines Hl m. subst m.
  split; [apply form_test_id_mappings_get; exact Hl|].
  split; [apply form_test_id_mappings_keys; exact Hl|].
  split; [apply form_test_id_mappings_NoDup|].
  split; [|split].
  - intros pre mid post Hpre Hpost.
    rewrite base_and_tag_split_span, (split_span_intro _ _ _ Hpre Hpost).
    reflexivity.
  - intros line Hno. rewrite base_and_tag_split_span.
    destruct (split_span line) as [[[pre mid] post]|] eqn:Hs; [|reflexivity].
    apply split_span_Some in Hs. destruct Hs as (Heq & _). 
    exfalso. exact (Hno _ _ _ Heq).
  - intros line. destruct (split_span line) as [[[pre mid] post]|] eqn:Hs.
    + left. exists pre, mid, post. apply split_span_Some. exact Hs.
    + right. apply split_span_None. exact Hs.
Qed.

Lemma form_test_id_mappings_spec_witness :
  let lines := str_split LF
    (String.concat (String LF "")
       ["a.b[x,y]"; ""; "c(d)[e][f]g"; "x[y"; "a.b[z]"]) in
  _form_test_id_mappings lines =
    [("a.b", "[z]"); ("c(d)g", "[e][f]"); ("x[y", "")] /\
  decides lines "a.b" "[z]" /\
  decides lines "c(d)g" "[e][f]" /\
  decides lines "x[y" "".
Proof.
  intros lines.
  pose proof (form_test_id_mappings_spec lines (str_split_lines _)) as H.
  destruct H as (Hget & _).
  split; [vm_compute; reflexivity|].
  repeat split; apply Hget; vm_compute; reflexivity.
Defined.

(* ================================================================= *)
(** ** [_get_base_test_ids_from_list_file] *)

Lemma str_rstrip_file_lines (text : string) :
  Forall is_line (map (str_rstrip LF) (file_lines text)).
Proof.
  induction text as [|a text IH]; simpl; [constructor|].
  destruct (Ascii.eqb_spec a LF) as [->|Hne].
  - simpl. constructor; [reflexivity | exact IH].
  - assert (Ha : forall h, is_line (str_rstrip LF h) ->
                           is_line (str_rstrip LF (String a h))).
    { intros h Hh. simpl. unfold is_line in *.
      destruct (str_rstrip LF h) as [|b r]; simpl in *.
      - destruct (Ascii.eqb_spec a LF); [contradiction|]. simpl.
        destruct (Ascii.eqb_spec a LF); [contradiction | reflexivity].
      - destruct (Ascii.eqb_spec a LF); [contradiction | exact Hh]. }
    destruct (file_lines text) as [|h t]; simpl in *.
    + constructor; [|constructor]. apply (Ha ""). reflexivity.
    + inversion IH; subst. constructor; [apply Ha|]; assumption.
Qed.

(** The three ways the call can go, by what the outside answers. *)
Lemma get_base_test_ids_run (env : Env) (insecure : bool) (loc : string)
    (w : world) :
  let rq := mk_request "GET" loc [] [] None (negb insecure) in
  let w1 := mk_world (w_log w) (w_http w ++ [rq])%list (w_stdout w) in
  let failed e :=
    (@Raise (list string) e,
     add_log w1 [(ERROR, "Error reading the passed in test list file.")]) in
  _get_base_test_ids_from_list_file env insecure loc w =
    match env_http env (w_http w) rq with
    | Ok response =>
        (Ok (dict_keys (_form_test_id_mappings (str_split LF (r_text response)))),
         w1)
    | Raise (MissingSchema m) =>
        match env_open env loc with
        | Ok data_file =>
            match f_read data_file with
            | Ok text =>
                (Ok (dict_keys (_form_test_id_mappings
                                  (map (str_rstrip LF) (file_lines text)))), w1)
            | Raise e => failed e
            end
        | Raise e => failed e
        end
    | Raise e => failed e
    end.
Proof.
  intros rq w1 failed. subst failed.
  unfold _get_base_test_ids_from_list_file, bind, try_except, requests_get,
    requests_send, open_, lift, logger_log, raise, ret, add_log.
  fold rq. cbn [w_log w_http w_stdout]. fold w1.
  destruct (env_http env (w_http w) rq) as [response|e]; [reflexivity|].
  destruct e; try reflexivity.
  destruct (env_open env loc) as [f|e]; [|reflexivity].
  destruct (f_read f) as [text|e]; reflexivity.
Qed.

Lemma keys_count_once (lines : list string) :
  Forall is_line lines ->
  forall line, In line lines -> line <> "" ->
    count_occ string_dec (dict_keys (_form_test_id_mappings lines))
      (fst (base_and_tag line)) = 1.
Proof.
  intros Hl line Hin Hne.
  apply NoDup_count_occ'; [apply form_test_id_mappings_NoDup|].
  apply form_test_id_mappings_keys; [exact Hl|]. exists line. auto.
Qed.

(** C10.  Whenever [_get_base_test_ids_from_list_file] returns, what it
    returns is the key list of the mapping built from the lines of the
    user's list, so no identifier is in it twice: every nonempty line,
    however often it is repeated and whatever its bracket tag, accounts for
    exactly one entry, its base identifier.  It does return when the
    location is fetched as a URL and when, the location having no URL
    scheme, it is read as a file.  A list with the lines [t.a[x]], [t.a[x]],
    [t.a[y]] and [t.b(s)[z]] gives [t.a] and [t.b(s)]. *)
Theorem get_base_test_ids_unique :
  forall (env : Env) (insecure : bool) (list_location : string) (w : world),
    let rq := mk_request "GET" list_location [] [] None (negb insecure) in
    (forall ids w',
       _get_base_test_ids_from_list_file env insecure list_location w
         = (Ok ids, w') ->
       NoDup ids /\
       exists lines,
         Forall is_line lines /\
         ids = dict_keys (_form_test_id_mappings lines) /\
         forall line, In line lines -> line <> "" ->
           count_occ string_dec ids (fst (base_and_tag line)) = 1) /\
    (forall response,
       env_http env (w_http w) rq = Ok response ->
       fst (_get_base_test_ids_from_list_file env insecure list_location w) =
         Ok (dict_keys (_form_test_id_mappings
                          (str_split LF (r_text response))))) /\
    (forall m data_file text,
       env_http env (w_http w) rq = Raise (MissingSchema m) ->
       env_open env list_location = Ok data_file ->
       f_read data_file = Ok text ->
       fst (_get_base_test_ids_from_list_file env insecure list_location w) =
         Ok (dict_keys (_form_test_id_mappings
                          (map (str_rstrip LF) (file_lines text))))) /\
    dict_keys (_form_test_id_mappings
                 ["t.a[x]"; "t.a[x]"; "t.a[y]"; "t.b(s)[z]"]) = ["t.a"; "t.b(s)"].
Proof.
  intros env insecure loc w rq.
  pose proof (get_base_test_ids_run env insecure loc w) as Hrun.
  cbv zeta in Hrun. fold rq in Hrun.
  split; [|split; [|split]].
  - intros ids w' Hcall. rewrite Hcall in Hrun.
    assert (Hk : exists lines, Forall is_line lines /\
                   ids = dict_keys (_form_test_id_mappings lines)).
    { destruct (env_http env (w_http w) rq) as [response|e].
      - inversion Hrun; subst. eexists. split; [apply str_split_lines | reflexivity].
      - destruct e; try discriminate.
        destruct (env_open env loc) as [f|e]; [|discriminate].
        destruct (f_read f) as [text|e]; [|discriminate].
        inversion Hrun; subst. eexists.
        split; [apply str_rstrip_file_lines | reflexivity]. }
    destruct Hk as (lines & Hl & ->).
    split; [apply form_test_id_mappings_NoDup|].
    exists lines. split; [exact Hl|]. split; [reflexivity|].
    apply keys_count_once. exact Hl.
  - intros response Hr. rewrite Hrun, Hr. reflexivity.
  - intros m f text Hr Ho Hf. rewrite Hrun, Hr, Ho, Hf. reflexivity.
  - reflexivity.
Qed.

Lemma get_base_test_ids_unique_witness :
  fst (_get_base_test_ids_from_list_file sample_list_env false "list.txt"
         empty_world) = Ok ["t.a"; "t.b(s)"] /\
  NoDup ["t.a"; "t.b(s)"].
Proof.
  pose proof (get_base_test_ids_unique sample_list_env false "list.txt"
                empty_world) as (Hok & _ & Hfile & _).
  split.
  - rewrite (Hfile _ _ _ eq_refl eq_refl eq_refl). reflexivity.
  - destruct (Hok ["t.a"; "t.b(s)"]
                (snd (_get_base_test_ids_from_list_file sample_list_env false
                        "list.txt" empty_world)) eq_refl) as [Hnd _].
    exact Hnd.
Defined.

(* ================================================================= *)
(** ** [_generate_cpid_from_endpoint] *)

Lemma hex_of_octets_length (l : list Z) :
  String.length (Hex.of_octets l) = 2 * List.length l.
Proof. induction l as [|b l IH]; simpl; [reflexivity | rewrite IH; lia]. Qed.

Lemma hex_digit_ok (n : Z) :
  (0 <= n < 16)%Z -> Hex.is_digit (Hex.digit n) = true.
Proof.
  intros Hn.
  assert (Hall : forallb (fun i => Hex.is_digit (Hex.digit (Z.of_nat i)))
                   (seq 0 16) = true) by (vm_compute; reflexivity).
  rewrite forallb_forall in Hall.
  rewrite <- (Z2Nat.id n) by lia. apply Hall. apply in_seq. lia.
Qed.

Lemma hex_of_octets_is_hex (l : list Z) :
  Forall (fun b => 0 <= b < 256)%Z l -> Hex.is_hex (Hex.of_octets l) = true.
Proof.
  induction 1 as [|b l Hb _ IH]; simpl; [reflexivity|].
  rewrite IH, !hex_digit_ok; [reflexivity | |].
  - change 15%Z with (Z.ones 4). rewrite Z.land_ones by lia.
    apply Z.mod_pos_bound. lia.
  - rewrite Z.shiftr_div_pow2 by lia. change (2 ^ 4)%Z with 16%Z.
    split; [apply Z.div_pos; lia | apply Z.div_lt_upper_bound; lia].
Qed.

Lemma octet_range (x : Z) : (0 <= Z.land x 255 < 256)%Z.
Proof.
  change 255%Z with (Z.ones 8). rewrite Z.land_ones by lia.
  apply Z.mod_pos_bound. lia.
Qed.

(** A list of [n] octets cut out of a number: its length and the range of
    its elements. *)
Ltac octet_list :=
  split;
  [ rewrite length_map, length_seq; reflexivity
  | apply Forall_forall; intros ? Hb; apply in_map_iff in Hb;
    destruct Hb as (? & <- & _); apply octet_range ].

Lemma le_octets_spec (n : nat) (x : Z) :
  List.length (MD5.le_octets n x) = n /\
  Forall (fun b => 0 <= b < 256)%Z (MD5.le_octets n x).
Proof. unfold MD5.le_octets. octet_list. Qed.

(** An MD5 digest is sixteen octets, its hexadecimal form thirty-two
    digits. *)
Lemma md5_hexdigest_shape (data : bytes) :
  String.length (MD5.hexdigest data) = 32 /\
  Hex.is_hex (MD5.hexdigest data) = true.
Proof.
  unfold MD5.hexdigest, MD5.digest_octets.
  destruct (fold_left MD5.process _ MD5.init) as [[[a b] c] d].
  split.
  - rewrite hex_of_octets_length, !length_app.
    rewrite !(proj1 (le_octets_spec 4 _)). reflexivity.
  - apply hex_of_octets_is_hex.
    repeat (apply Forall_app; split); apply le_octets_spec.
Qed.

(** The call, by what the URL parser returns. *)
Lemma generate_cpid_run (lib : Lib) (endpoint : string) (w : world) :
  _generate_cpid_from_endpoint lib endpoint w =
    (match lib_urlparse lib endpoint with
     | Raise e => Raise e
     | Ok url_parts =>
         if str_in (Urllib.scheme url_parts) ["http"; "https"] then
           match Urllib.hostname url_parts with
           | Some h => Ok (MD5.hexdigest (encode_utf8 h))
           | None =>
               Raise (AttributeError "'NoneType' object has no attribute 'encode'")
           end
         else
           Raise (ValueError
                    ("Invalid Keystone endpoint format. Make sure the endpoint ("
                     ++ endpoint ++ ") includes the URL scheme (i.e. http/https)."))
     end,
     add_log w creating_hash_record).
Proof.
  unfold _generate_cpid_from_endpoint, bind, logger_log, lift, raise, ret,
    encode_attr, add_log, creating_hash_record. cbn [w_log w_http w_stdout].
  destruct (lib_urlparse lib endpoint) as [parts|e]; [|reflexivity].
  destruct (str_in (Urllib.scheme parts) ["http"; "https"]); cbn [negb].
  - destruct (Urllib.hostname parts); reflexivity.
  - reflexivity.
Qed.

Lemma str_in_http (s : string) :
  str_in s ["http"; "https"] = true <-> s = "http" \/ s = "https".
Proof.
  cbn [str_in]. rewrite orb_false_r, orb_true_iff, !String.eqb_eq. tauto.
Qed.





(** With an [http] or [https] scheme and no host in the URL, the digest is
    never reached: encoding hits [None]. *)
Lemma generate_cpid_no_host (lib : Lib) (endpoint : string)
    (url_parts : Urllib.parse_result) (w : world) :
  lib_urlparse lib endpoint = Ok url_parts ->
  Urllib.scheme url_parts = "http" \/ Urllib.scheme url_parts = "https" ->
  Urllib.hostname url_parts = None ->
  fst (_generate_cpid_from_endpoint lib endpoint w) =
    Raise (AttributeError "'NoneType' object has no attribute 'encode'").
Proof.
  intros Hp Hs Hh. rewrite generate_cpid_run, Hp. cbn [fst].
  apply str_in_http in Hs. rewrite Hs, Hh. reflexivity.
Qed.

(** C9, at an endpoint that passes the scheme check and names no host:
    [http://] parses to the scheme [http] with no host name, and the call
    raises [AttributeError] instead of returning a digest; the same for
    [https:///v3] and [http:10.0.0.1:5000/v3]. *)
Theorem generate_cpid_hostless_endpoint_raises :
  Urllib.urlparse "http://" = Ok (Urllib.mk_parse_result "http" "" None) /\
  forall w,
    fst (_generate_cpid_from_endpoint sample_lib "http://" w) =
      Raise (AttributeError "'NoneType' object has no attribute 'encode'") /\
    fst (_generate_cpid_from_endpoint sample_lib "https:///v3" w) =
      Raise (AttributeError "'NoneType' object has no attribute 'encode'") /\
    fst (_generate_cpid_from_endpoint sample_lib "http:10.0.0.1:5000/v3" w) =
      Raise (AttributeError "'NoneType' object has no attribute 'encode'").
Proof.
  split; [reflexivity|]. intros w. rewrite !generate_cpid_run.
  repeat split; reflexivity.
Qed.

(* ================================================================= *)
(** ** [yield_results] *)

Lemma raise_for_status_ok (r : http_response) (w : world) :
  status_is_error r = false -> raise_for_status r w = (Ok tt, w).
Proof.
  unfold status_is_error, raise_for_status. intros H.
  destruct (400 <=? r_status_code r)%Z eqn:H4;
    destruct (r_status_code r <? 500)%Z eqn:H5;
    destruct (500 <=? r_status_code r)%Z eqn:H6;
    destruct (r_status_code r <? 600)%Z eqn:H7;
    simpl in *; try reflexivity; try discriminate;
    rewrite ?Z.leb_le, ?Z.ltb_lt, ?Z.leb_gt, ?Z.ltb_ge in *; lia.
Qed.

Lemma raise_for_status_error (r : http_response) (w : world) :
  status_is_error r = true ->
  exists msg, raise_for_status r w = (Raise (HTTPError msg), w).
Proof.
  unfold status_is_error, raise_for_status. intros H.
  destruct (400 <=? r_status_code r)%Z eqn:H4;
    destruct (r_status_code r <? 500)%Z eqn:H5;
    destruct (500 <=? r_status_code r)%Z eqn:H6;
    destruct (r_status_code r <? 600)%Z eqn:H7;
    simpl in *; try discriminate; try (eexists; reflexivity);
    rewrite ?Z.leb_le, ?Z.ltb_lt, ?Z.leb_gt, ?Z.ltb_ge in *; lia.
Qed.

(** A page that is served: one request, and its batch is yielded. *)
Lemma fetch_page_served (generator_stop : bool) (env : Env) (insecure : bool)
    (a : yield_args) (page : Z) (w : world) (r : http_response)
    (fields : list (string * Json.value)) :
  env_http env (w_http w) (page_request insecure a page) = Ok r ->
  status_is_error r = false ->
  r_json r = Ok (Json.JObj fields) ->
  fetch_page generator_stop env insecure a page w =
    (Ok (Some (batch_of r), Yielded page (Json.JObj fields)),
     sent w (page_request insecure a page)).
Proof.
  intros Hr Hs Hj.
  unfold fetch_page, bind, try_except, requests_get, requests_send.
  fold (page_request insecure a page). rewrite Hr.
  rewrite (raise_for_status_ok _ _ Hs). unfold ret, lift. rewrite Hj.
  unfold batch_of, Json.get, ret. rewrite Hj.
  destruct (dict_get fields "results"); reflexivity.
Qed.

(** A page that fails with an HTTP error: one request, one INFO record,
    and the body raises [StopIteration]. *)
Lemma fetch_page_http_error (generator_stop : bool) (env : Env)
    (insecure : bool) (a : yield_args) (page : Z) (w : world) :
  http_error_at env (w_http w) (page_request insecure a page) ->
  exists msg,
    fetch_page generator_stop env insecure a page w =
      raise_StopIteration generator_stop
        (add_log (sent w (page_request insecure a page))
           [(INFO, "Failed to list " ++ results_endpoint a ++ " - " ++ msg ++ " ")]).
Proof.
  intros [[msg Hr]|(r & Hr & Hs)].
  - exists msg.
    unfold fetch_page, bind, try_except, requests_get, requests_send.
    fold (page_request insecure a page). rewrite Hr. reflexivity.
  - destruct (raise_for_status_error r (sent w (page_request insecure a page)) Hs)
      as [msg Hm].
    exists msg.
    unfold fetch_page, bind, try_except, requests_get, requests_send.
    fold (page_request insecure a page). rewrite Hr.
    unfold sent in Hm. rewrite Hm. reflexivity.
Qed.

(** A loop over a generator whose body raises [StopIteration] at once. *)
Lemma drain_stop (generator_stop : bool) (env : Env) (insecure : bool)
    (a : yield_args) (fuel : nat) (g : generator) (w w' : world) :
  gen_next generator_stop env insecure a g w =
    raise_StopIteration generator_stop w' ->
  drain generator_stop env insecure a (S fuel) g w =
    (([], closing generator_stop), w').
Proof.
  intros H. cbn [drain]. rewrite H.
  destruct generator_stop; reflexivity.
Qed.

Lemma page_requests_snoc (insecure : bool) (a : yield_args) (n : nat) :
  page_requests insecure a (S n) =
    (page_requests insecure a n ++ [page_request insecure a (Z.of_nat (S n))])%list.
Proof.
  unfold page_requests. rewrite seq_S, map_app. reflexivity.
Qed.

Section Served.

Variables (generator_stop : bool) (env : Env) (insecure : bool).
Variables (a : yield_args) (total : nat).
Hypothesis Hserves : serves_pages env total.
Variable h0 : list http_request.

(** The generator suspended after page [p], with [rest] pages to go. *)
Lemma drain_after_page (rest : nat) :
  forall (p : nat) (fields : list (string * Json.value))
         (pagination : list (string * Json.value)) (w : world) (fuel : nat),
    p + rest = total ->
    dict_get fields "pagination" = Some (Json.JObj pagination) ->
    dict_get pagination "total_pages" = Some (Json.JInt (Z.of_nat total)) ->
    w_http w = (h0 ++ page_requests insecure a p)%list ->
    rest < fuel ->
    exists w',
      drain generator_stop env insecure a fuel
        (Yielded (Z.of_nat p) (Json.JObj fields)) w =
        ((map (page_batch env insecure a h0) (seq (S p) rest),
          closing generator_stop), w') /\
      w_http w' = (h0 ++ page_requests insecure a total)%list.
Proof.
  induction rest as [|rest IH]; intros p fields pag w fuel Hp Hf Hg Hw Hfuel.
  - destruct fuel as [|fuel]; [lia|].
    assert (p = total) by lia. subst p.
    exists w. split; [|exact Hw].
    apply drain_stop.
    unfold gen_next, Json.getitem, dict_getitem, bind, ret.
    rewrite Hf, Hg. cbn [Json.eq_int]. rewrite Z.eqb_refl. reflexivity.
  - destruct fuel as [|fuel]; [lia|].
    destruct (Hserves (w_http w)
                (page_request insecure a (Z.of_nat (S p))))
      as (r & Hr & Hs & fields' & pag' & Hj & Hf' & Hg').
    set (w1 := sent w (page_request insecure a (Z.of_nat (S p)))).
    destruct (IH (S p) fields' pag' w1 fuel) as (w' & Hd & Hw');
      try assumption; try lia.
    { unfold w1, sent. cbn [w_http]. rewrite Hw, page_requests_snoc.
      rewrite app_assoc. reflexivity. }
    exists w'. split; [|exact Hw'].
    assert (Hnext :
      gen_next generator_stop env insecure a
        (Yielded (Z.of_nat p) (Json.JObj fields)) w =
        (Ok (Some (batch_of r), Yielded (Z.of_nat (S p)) (Json.JObj fields')), w1)).
    { unfold gen_next, Json.getitem, dict_getitem, bind, ret.
      rewrite Hf, Hg. cbn [Json.eq_int].
      assert (Hne : (Z.of_nat total =? Z.of_nat p)%Z = false)
        by (apply Z.eqb_neq; lia).
      rewrite Hne.
      replace (Z.of_nat p + 1)%Z with (Z.of_nat (S p)) by lia.
      apply fetch_page_served; assumption. }
    cbn [drain]. rewrite Hnext, Hd.
    cbn [seq map]. do 3 f_equal.
    unfold page_batch. replace (S p - 1) with p by lia.
    rewrite <- Hw, Hr. reflexivity.
Qed.

(** From the start: page 1 is always requested. *)
Lemma drain_from_start (w : world) (fuel : nat) :
  1 <= total -> ya_start_page a = 1%Z -> w_http w = h0 -> total < fuel ->
  exists w',
    drain generator_stop env insecure a fuel (yield_results a) w =
      ((map (page_batch env insecure a h0) (seq 1 total),
        closing generator_stop), w') /\
    w_http w' = (h0 ++ page_requests insecure a total)%list.
Proof.
  intros Htotal Hstart Hw Hfuel.
  destruct fuel as [|fuel]; [lia|].
  assert (Hseq : forall t, 1 <= t -> seq 1 t = 1 :: seq 2 (t - 1)).
  { intros [|t] Ht; [lia|]. simpl. rewrite Nat.sub_0_r. reflexivity. }
  destruct (Hserves (w_http w) (page_request insecure a 1))
    as (r & Hr & Hs & fields & pag & Hj & Hf & Hg).
  set (w1 := sent w (page_request insecure a 1)).
  destruct (drain_after_page (total - 1) 1 fields pag w1 fuel)
    as (w' & Hd & Hw'); try assumption; try lia.
  { unfold w1, sent. cbn [w_http]. rewrite Hw. reflexivity. }
  exists w'. split; [|exact Hw'].
  unfold yield_results. rewrite Hstart.
  cbn [drain gen_next].
  rewrite (fetch_page_served _ _ _ _ _ _ _ _ Hr Hs Hj). fold w1.
  change (Z.of_nat 1) with 1%Z in Hd. rewrite Hd.
  rewrite (Hseq total Htotal). cbn [map]. do 3 f_equal.
  unfold page_batch. cbn [Nat.sub page_requests seq map].
  rewrite app_nil_r, <- Hw. change (Z.of_nat 1) with 1%Z. rewrite Hr.
  reflexivity.
Qed.

End Served.

(** Wherever the iteration stands, when the page request it is about to
    make fails with an HTTP error, [next()] makes that one request,
    records one INFO line and the body raises [StopIteration]: the
    iteration is over, with exhaustion before PEP 479 and with a
    [RuntimeError] under it. *)
Lemma gen_next_http_error (generator_stop : bool) (env : Env)
    (insecure : bool) (a : yield_args) (g : generator) (w : world) (page : Z) :
  about_to_request g page ->
  http_error_at env (w_http w) (page_request insecure a page) ->
  exists msg,
    let w' :=
      add_log (sent w (page_request insecure a page))
        [(INFO, "Failed to list " ++ results_endpoint a ++ " - " ++ msg ++ " ")] in
    gen_next generator_stop env insecure a g w =
      raise_StopIteration generator_stop w' /\
    forall fuel,
      drain generator_stop env insecure a (S fuel) g w =
        (([], closing generator_stop), w').
Proof.
  intros Hg Herr.
  destruct (fetch_page_http_error generator_stop env insecure a page w Herr)
    as [msg Hf].
  exists msg. intros w'. subst w'.
  assert (Hnext : gen_next generator_stop env insecure a g w =
            raise_StopIteration generator_stop
              (add_log (sent w (page_request insecure a page))
                 [(INFO, "Failed to list " ++ results_endpoint a ++ " - "
                           ++ msg ++ " ")])).
  { destruct Hg as [->|(p & fields & pag & tp & -> & -> & Hp & Ht & Hne)].
    - exact Hf.
    - unfold gen_next, Json.getitem, dict_getitem, bind, ret.
      rewrite Hp. cbn [Json.getitem]. unfold dict_getitem, ret.
      rewrite Ht, Hne. exact Hf. }
  split; [exact Hnext|].
  intros fuel. apply drain_stop. exact Hnext.
Qed.

(** C7, for a positive page count.  Starting at page 1, against a server
    whose every answer is a success reporting [total >= 1] total pages, the
    iteration yields exactly the batches of pages 1 to [total] in that
    order, from one request a page, and nothing after them: no further
    batch and no further request, whatever the number of [next()] calls
    above [total].  The iteration is then over the way the interpreter
    takes the [raise StopIteration] of the body ([closing]). *)
Theorem yield_results_pages :
  forall (generator_stop : bool) (env : Env) (insecure : bool)
         (a : yield_args) (w : world) (total : nat),
    1 <= total ->
    ya_start_page a = 1%Z ->
    serves_pages env total ->
    List.length (map (page_batch env insecure a (w_http w)) (seq 1 total)) = total /\
    forall fuel, total < fuel ->
      exists w',
        drain generator_stop env insecure a fuel (yield_results a) w =
          ((map (page_batch env insecure a (w_http w)) (seq 1 total),
            closing generator_stop), w') /\
        w_http w' = (w_http w ++ page_requests insecure a total)%list.
Proof.
  intros gs env insecure a w total Htotal Hstart Hserves.
  split; [rewrite length_map, length_seq; reflexivity|].
  intros fuel Hfuel.
  apply (drain_from_start gs env insecure a total Hserves (w_http w) w fuel);
    auto.
Qed.

Lemma three_pages_env_serves : serves_pages three_pages_env 3.
Proof.
  intros history rq. eexists. split; [reflexivity|].
  split; [reflexivity|]. eexists _, _. repeat split; reflexivity.
Qed.

Lemma yield_results_pages_witness :
  fst (fst (drain true three_pages_env false sample_args 7
              (yield_results sample_args) empty_world)) =
    [Json.JArr [Json.JStr "result of page 1"];
     Json.JArr [Json.JStr "result of page 2"];
     Json.JArr [Json.JStr "result of page 3"]] /\
  List.length (w_http (snd (drain true three_pages_env false sample_args 7
                              (yield_results sample_args) empty_world))) = 3.
Proof.
  destruct (yield_results_pages true three_pages_env false sample_args
              empty_world 3
              (le_S _ _ (le_S _ _ (le_n 1))) eq_refl three_pages_env_serves)
    as (_ & Hall).
  destruct (Hall 7 (le_S _ _ (le_S _ _ (le_S _ _ (le_n 4))))) as (w' & Hd & Hw).
  rewrite Hd. cbn [fst snd]. rewrite Hw. split; reflexivity.
Defined.

(** C7 as stated fails for a server that reports zero pages: every page
    request succeeds, yet the first batch is yielded, so the iteration does
    not consist of zero batches, under either reading of
    [raise StopIteration]; three calls of [next()] give three batches and
    the generator is still not exhausted. *)
Lemma yield_results_zero_pages :
  ya_start_page sample_args = 1%Z /\
  serves_pages zero_pages_env 0 /\
  (forall generator_stop,
     ~ yields_pages generator_stop zero_pages_env false sample_args
         empty_world 0) /\
  fst (drain true zero_pages_env false sample_args 3
         (yield_results sample_args) empty_world) =
    ([Json.JArr []; Json.JArr []; Json.JArr []], Unfinished).
Proof.
  split; [reflexivity|]. split; [|split].
  - intros history rq. eexists. split; [reflexivity|].
    split; [reflexivity|]. eexists _, _. repeat split; reflexivity.
  - intros gs (fuel & w' & Hd & _). destruct fuel as [|fuel].
    + cbn in Hd. discriminate.
    + cbn [drain] in Hd.
      assert (Hstep :
        gen_next gs zero_pages_env false sample_args (yield_results sample_args)
          empty_world =
        (Ok (Some (Json.JArr []),
             Yielded 1 (Json.JObj
                          [("results", Json.JArr []);
                           ("pagination",
                            Json.JObj [("current_page", Json.JInt 1);
                                       ("total_pages", Json.JInt 0)])])),
         sent empty_world (page_request false sample_args 1)))
        by (destruct gs; reflexivity).
      rewrite Hstep in Hd.
      match type of Hd with
      | context [drain ?s ?e ?i ?a ?f ?g ?w] =>
          destruct (drain s e i a f g w) as [[bs en] w2]
      end; discriminate.
  - vm_compute. reflexivity.
Qed.

(** C8, on an interpreter with PEP 479 (Python 3.7 and later).  A server
    answers two page requests and fails the third with status 500.  The
    error is logged at INFO, and then the [StopIteration] that the handler
    raises comes out of [next()] as a [RuntimeError]: the loop over the
    generator has had its two batches and ends with that exception. *)
Theorem yield_results_http_error_raises :
  let w2 := sent (sent empty_world (page_request false sample_args 1))
                 (page_request false sample_args 2) in
  http_error_at failing_env (w_http w2) (page_request false sample_args 3) /\
  fst (gen_next true failing_env false sample_args (AtPage 3) w2) =
    Raise (RuntimeError "generator raised StopIteration") /\
  w_log (snd (gen_next true failing_env false sample_args (AtPage 3) w2)) =
    [(INFO, "Failed to list https://refstack.example.org/api/v1/results/ - " ++
            "500 Server Error: Internal Server Error for url: " ++
            "https://refstack.example.org/api/v1/results/?page=3 ")] /\
  fst (drain true failing_env false sample_args 10 (yield_results sample_args)
         empty_world) =
    ([Json.JArr [Json.JStr "a result"]; Json.JArr [Json.JStr "a result"]],
     Faulted (RuntimeError "generator raised StopIteration")).
Proof.
  intros w2. split; [|split; [|split]].
  - right. eexists. split; reflexivity.
  - reflexivity.
  - reflexivity.
  - vm_compute. reflexivity.
Qed.

(** The same run before PEP 479: the two batches, and the sequence ends. *)
Example yield_results_http_error_legacy :
  fst (drain false failing_env false sample_args 10 (yield_results sample_args)
         empty_world) =
    ([Json.JArr [Json.JStr "a result"]; Json.JArr [Json.JStr "a result"]], Ended).
Proof. vm_compute. reflexivity. Qed.

(* ================================================================= *)
(** ** [post_results] *)

Lemma load_key_run (lib : Lib) (f : file) (w : world) :
  load_key lib f w =
    match load_result lib f with
    | Ok k => (Ok (Some k), w)
    | Raise e =>
        if is_key_error e then
          (Ok None,
           add_log w [(INFO, "Error during upload key pair " ++ f_repr f);
                      (ERROR, exn_str e)])
        else (Raise e, w)
    end.
Proof.
  unfold load_key, load_result, try_except, bind, lift, ret, logger_log, add_log.
  destruct (f_read f) as [text|e].
  - destruct (lib_load_pem_private_key lib (encode_utf8 text)) as [k|e];
      [reflexivity|].
    destruct e; cbn [is_key_error w_log w_http w_stdout];
      rewrite <- ?app_assoc; reflexivity.
  - destruct e; cbn [is_key_error w_log w_http w_stdout];
      rewrite <- ?app_assoc; reflexivity.
Qed.

Lemma truthy_cons (s : string) :
  truthy s = true -> exists c p, s = String c p.
Proof. destruct s as [|c p]; [discriminate | eauto]. Qed.

(** The request [send_results] makes, whatever comes back. *)
Lemma send_results_http (lib : Lib) (env : Env) (insecure : bool)
    (endpoint data : string) (headers : dict string) (w : world) :
  w_http (snd (send_results lib env insecure endpoint data headers w)) =
    (w_http w ++ [mk_request "POST" endpoint headers [] (Some data) (negb insecure)])%list.
Proof.
  unfold send_results, bind, try_except, requests_post, requests_send,
    logger_log, ret, lift, print.
  destruct (env_http env (w_http w) _) as [response|e];
    cbn [w_log w_http w_stdout]; [|reflexivity].
  destruct (r_status_code response =? 201)%Z; [|reflexivity].
  destruct (r_json response) as [resp|e]; [|reflexivity].
  unfold Json.get, ret, raise.
  destruct resp; try reflexivity.
  destruct (dict_get fields "url"); reflexivity.
Qed.

(** C6, as the code has it.  When the key file opens but reading it or
    parsing the key fails with [IOError], [UnsupportedAlgorithm] or
    [ValueError], [post_results] records the failure (one INFO and one
    ERROR record after the DEBUG record of the content, no WARNING) and
    returns at once: no request is made, so nothing is submitted.  When the
    key file cannot be opened the exception leaves [post_results], again
    with no request made. *)
Theorem post_results_key_failure_returns :
  forall (lib : Lib) (env : Env) (insecure : bool) (url : string)
         (content : Json.value) (path : string) (w : world),
    truthy path = true ->
    let w0 := add_log w [(DEBUG, "API request content: " ++ lib_str lib content ++ " ")] in
    (forall private_key_file e,
       env_open env path = Ok private_key_file ->
       load_result lib private_key_file = Raise e ->
       is_key_error e = true ->
       post_results lib env insecure url content (Some path) w =
         (Ok tt,
          add_log w0 [(INFO, "Error during upload key pair " ++ f_repr private_key_file);
                      (ERROR, exn_str e)]) /\
       w_http (snd (post_results lib env insecure url content (Some path) w)) =
         w_http w /\
       ~ posts_unsigned lib env insecure url content (Some path) w) /\
    (forall e,
       env_open env path = Raise e ->
       post_results lib env insecure url content (Some path) w = (Raise e, w0)).
Proof.
  intros lib env insecure url content path w Hpath w0.
  destruct (truthy_cons _ Hpath) as (c & p & ->).
  split.
  - intros f e Hopen Hload Herr.
    assert (Hrun :
      post_results lib env insecure url content (Some (String c p)) w =
        (Ok tt,
         add_log w0 [(INFO, "Error during upload key pair " ++ f_repr f);
                     (ERROR, exn_str e)])).
    { unfold post_results, bind at 1 2, sign_headers, bind at 1 2, open_, lift.
      unfold logger_log at 1. cbn [w_log w_http w_stdout]. fold (add_log w [(DEBUG, "API request content: " ++ lib_str lib content ++ " ")]).
      fold w0. rewrite Hopen, load_key_run, Hload, Herr. reflexivity. }
    split; [exact Hrun|]. split.
    + rewrite Hrun. reflexivity.
    + intros (rq & Hrq & _). rewrite Hrun in Hrq. cbn in Hrq.
      apply (f_equal (@List.length _)) in Hrq. rewrite length_app in Hrq.
      cbn in Hrq. lia.
  - intros e Hopen.
    unfold post_results, bind at 1 2, sign_headers, bind at 1, open_, lift.
    unfold logger_log at 1. cbn [w_log w_http w_stdout].
    rewrite Hopen. reflexivity.
Qed.

Lemma post_results_key_failure_returns_witness :
  post_results sample_lib bad_key_env false "https://refstack.example.org/api"
    sample_content (Some "key.pem") empty_world =
    (Ok tt,
     mk_world
       [(DEBUG, "API request content: " ++ sample_dumps sample_content ++ " ");
        (INFO, "Error during upload key pair <key.pem>");
        (ERROR, "Could not deserialize key data.")] [] []).
Proof.
  destruct (post_results_key_failure_returns sample_lib bad_key_env false
              "https://refstack.example.org/api" sample_content "key.pem"
              empty_world eq_refl) as [H _].
  destruct (H (mk_file "<key.pem>" (Ok "not a key"))
              (ValueError "Could not deserialize key data.")
              eq_refl eq_refl eq_refl) as [Hrun _].
  exact Hrun.
Defined.

(** C6 as stated fails: with a key file that holds no key, loading raises
    [ValueError], and the call makes no request at all, so the content is
    not posted; nor is any WARNING recorded. *)
Lemma post_results_bad_key_not_posted :
  load_result sample_lib (mk_file "<key.pem>" (Ok "not a key")) =
    Raise (ValueError "Could not deserialize key data.") /\
  env_open bad_key_env "key.pem" = Ok (mk_file "<key.pem>" (Ok "not a key")) /\
  ~ posts_unsigned sample_lib bad_key_env false
      "https://refstack.example.org/api" sample_content (Some "key.pem")
      empty_world /\
  w_http (snd (post_results sample_lib bad_key_env false
                 "https://refstack.example.org/api" sample_content
                 (Some "key.pem") empty_world)) = [] /\
  forallb (fun r => negb (level_eqb (fst r) WARNING))
    (w_log (snd (post_results sample_lib bad_key_env false
                   "https://refstack.example.org/api" sample_content
                   (Some "key.pem") empty_world))) = true.
Proof.
  split; [reflexivity|]. split; [reflexivity|]. split; [|split; reflexivity].
  intros (rq & Hrq & _). vm_compute in Hrq. destruct (w_http empty_world); discriminate.
Qed.

(* ================================================================= *)
(** ** The signature *)

Lemma sha256_round_length (w st : list Z) (t : nat) :
  List.length (SHA256.round w st t) = List.length st.
Proof.
  unfold SHA256.round.
  destruct st as [|a [|b [|c [|d [|e [|f [|g [|h [|i st]]]]]]]]]; reflexivity.
Qed.

Lemma sha256_process_length (st m : list Z) :
  List.length (SHA256.process st m) = List.length st.
Proof.
  unfold SHA256.process. rewrite length_map, length_combine.
  assert (H : forall l s, List.length (fold_left (SHA256.round (SHA256.schedule m)) l s)
                          = List.length s).
  { induction l as [|t l IH]; intros s; simpl; [reflexivity|].
    rewrite IH. apply sha256_round_length. }
  rewrite H. apply Nat.min_id.
Qed.

Lemma sha256_be_octets_spec (n : nat) (x : Z) :
  List.length (SHA256.be_octets n x) = n /\
  Forall (fun b => 0 <= b < 256)%Z (SHA256.be_octets n x).
Proof. unfold SHA256.be_octets. octet_list. Qed.

(** A SHA-256 digest is thirty-two octets. *)
Lemma sha256_digest_length (msg : list Z) :
  List.length (SHA256.digest_octets msg) = 32.
Proof.
  unfold SHA256.digest_octets.
  assert (H : forall bs s, List.length (fold_left SHA256.process bs s)
                           = List.length s).
  { induction bs as [|b bs IH]; intros s; simpl; [reflexivity|].
    rewrite IH. apply sha256_process_length. }
  specialize (H (SHA256.blocks (List.length (SHA256.words (SHA256.pad msg)))
                   (SHA256.words (SHA256.pad msg))) SHA256.init).
  destruct (fold_left SHA256.process _ SHA256.init)
    as [|a [|b [|c [|d [|e [|f [|g [|h [|i st]]]]]]]]]; try discriminate.
  cbn [flat_map]. rewrite !length_app.
  rewrite !(proj1 (sha256_be_octets_spec 4 _)). reflexivity.
Qed.

Lemma i2osp_spec (x : Z) (k : nat) :
  List.length (RSA.i2osp x k) = k /\
  Forall (fun b => 0 <= b < 256)%Z (RSA.i2osp x k).
Proof. unfold RSA.i2osp. octet_list. Qed.

Lemma octets_of_octets (l : list Z) :
  Forall (fun b => 0 <= b < 256)%Z l -> octets (of_octets l) = l.
Proof.
  unfold octets, of_octets. rewrite list_ascii_of_string_of_list_ascii.
  induction 1 as [|b l Hb _ IH]; simpl; [reflexivity|].
  rewrite IH. f_equal.
  rewrite N_ascii_embedding by (change 256%N with (Z.to_N 256); lia).
  apply Z2N.id. lia.
Qed.

(** With a modulus of at least 62 octets the encoding fits, and the
    signature is a function of the key and the message: the padding is
    the fixed string of the encoding and nothing else enters. *)
Lemma sign_pkcs1_v15_ok (key : RSA.private_numbers) (message : bytes) :
  62 <= RSA.modulus_octets (RSA.rsa_n key) ->
  exists raw,
    RSA.sign_pkcs1_v15 key message = Ok raw /\
    String.length (b2a_hex raw) = 2 * RSA.modulus_octets (RSA.rsa_n key) /\
    Hex.is_hex (b2a_hex raw) = true.
Proof.
  intros Hk. unfold RSA.sign_pkcs1_v15, RSA.emsa_pkcs1_v15.
  rewrite length_app, sha256_digest_length.
  change (List.length RSA.sha256_prefix) with 19.
  assert (Hlt : (RSA.modulus_octets (RSA.rsa_n key) <? 19 + 32 + 11)%nat = false)
    by (apply Nat.ltb_ge; lia).
  rewrite Hlt. eexists. split; [reflexivity|].
  unfold b2a_hex. rewrite octets_of_octets by apply i2osp_spec.
  split.
  - rewrite hex_of_octets_length, (proj1 (i2osp_spec _ _)). reflexivity.
  - apply hex_of_octets_is_hex. apply i2osp_spec.
Qed.

Lemma sign_headers_signed (lib : Lib) (env : Env) (data path : string)
    (w : world) (f : file) (key : RSA.private_numbers) (raw : bytes) :
  truthy path = true ->
  env_open env path = Ok f ->
  load_result lib f = Ok (RSAPrivateKey key) ->
  RSA.sign_pkcs1_v15 key (encode_utf8 data) = Ok raw ->
  sign_headers lib env plain_headers data (Some path) w =
    (Ok (Some (signed_headers lib key raw)), w).
Proof.
  intros Hpath Hopen Hload Hsign.
  destruct (truthy_cons _ Hpath) as (c & p & ->).
  unfold sign_headers, bind at 1 2, open_, lift. rewrite Hopen, load_key_run, Hload.
  unfold key_signer, bind, ret, signer_finalize, signer_update, lift, public_bytes.
  cbn [sg_key sg_data append]. rewrite Hsign. reflexivity.
Qed.

Lemma post_results_signed (lib : Lib) (env : Env) (insecure : bool)
    (url : string) (content : Json.value) (path : string) (w : world)
    (f : file) (key : RSA.private_numbers) (raw : bytes) :
  truthy path = true ->
  env_open env path = Ok f ->
  load_result lib f = Ok (RSAPrivateKey key) ->
  RSA.sign_pkcs1_v15 key (encode_utf8 (lib_json_dumps lib content)) = Ok raw ->
  w_http (snd (post_results lib env insecure url content (Some path) w)) =
    (w_http w ++
     [mk_request "POST" (url ++ "/v1/results/") (signed_headers lib key raw) []
        (Some (lib_json_dumps lib content)) (negb insecure)])%list.
Proof.
  intros Hpath Hopen Hload Hsign.
  unfold post_results, bind at 1 2. unfold logger_log at 1.
  fold plain_headers.
  rewrite (sign_headers_signed lib env _ path _ f key raw Hpath Hopen Hload Hsign).
  rewrite send_results_http. reflexivity.
Qed.

(** A key too small for the encoding: the exception of [finalize()] leaves
    [post_results] before any request. *)
Lemma post_results_sign_raises (lib : Lib) (env : Env) (insecure : bool)
    (url : string) (content : Json.value) (path : string) (w : world)
    (f : file) (key : RSA.private_numbers) (e : exn) :
  truthy path = true ->
  env_open env path = Ok f ->
  load_result lib f = Ok (RSAPrivateKey key) ->
  RSA.sign_pkcs1_v15 key (encode_utf8 (lib_json_dumps lib content)) = Raise e ->
  post_results lib env insecure url content (Some path) w =
    (Raise e,
     add_log w [(DEBUG, "API request content: " ++ lib_str lib content ++ " ")]).
Proof.
  intros Hpath Hopen Hload Hsign.
  destruct (truthy_cons _ Hpath) as (c & p & ->).
  unfold post_results, bind at 1 2. unfold logger_log at 1.
  unfold sign_headers, bind at 1 2, open_, lift.
  rewrite Hopen, load_key_run, Hload.
  unfold key_signer, bind, ret, signer_finalize, signer_update, lift.
  cbn [sg_key sg_data append]. rewrite Hsign. reflexivity.
Qed.

(** Known answers: the digests of [abc], and the signature that OpenSSL
    computes with [sample_key] over a serialised envelope, which raised to
    the public exponent gives back the encoded message of the model. *)
Example md5_known_answer :
  MD5.hexdigest "abc" = "900150983cd24fb0d6963f7d28e17f72".
Proof. vm_compute. reflexivity. Qed.

Example sha256_known_answer :
  b2a_hex (SHA256.digest "abc") =
    "ba7816bf8f01cfea414140de5dae2223b00361a396177a9cb410ff61f20015ad".
Proof. vm_compute. reflexivity. Qed.

Example rsa_signature_known_answer :
  option_map RSA.os2ip
    (RSA.emsa_pkcs1_v15
       (SHA256.digest_octets
          (octets sample_envelope_json))
       (RSA.modulus_octets (RSA.rsa_n sample_key))) =
  Some (RSA.pow_mod
          0x23a96122e1845c822ccf1042c3609ba71c571ade02e27c220bc3b016ec19f24185bd5f6e4140121cb6bf5beee853bf3104f8e009c81c51bcd599fe81a2fca150
          (RSA.rsa_e sample_key) (RSA.rsa_n sample_key)).
Proof. vm_compute. reflexivity. Qed.

(** C5.  Take two calls of [post_results] with the same RSA key in their
    key files and the same content, in any two environments and worlds, to
    any two servers.  Both calls send one POST of the same data whose
    [X-Signature] header is the same string, the hexadecimal form of the
    PKCS#1 v1.5 signature of the serialised content; or, the key being too
    small for the encoding, both raise the same exception and send
    nothing.  A modulus of at least 62 octets is large enough, and the
    signature then has two hexadecimal digits for each octet of the
    modulus. *)
Theorem post_results_signature_deterministic :
  forall (lib : Lib) (env1 env2 : Env) (insecure1 insecure2 : bool)
         (url1 url2 : string) (content : Json.value) (path1 path2 : string)
         (w1 w2 : world) (f1 f2 : file) (key : RSA.private_numbers),
    truthy path1 = true -> truthy path2 = true ->
    env_open env1 path1 = Ok f1 -> env_open env2 path2 = Ok f2 ->
    load_result lib f1 = Ok (RSAPrivateKey key) ->
    load_result lib f2 = Ok (RSAPrivateKey key) ->
    let run1 := post_results lib env1 insecure1 url1 content (Some path1) w1 in
    let run2 := post_results lib env2 insecure2 url2 content (Some path2) w2 in
    match RSA.sign_pkcs1_v15 key (encode_utf8 (lib_json_dumps lib content)) with
    | Ok raw =>
        exists rq1 rq2,
          w_http (snd run1) = (w_http w1 ++ [rq1])%list /\
          w_http (snd run2) = (w_http w2 ++ [rq2])%list /\
          rq_data rq1 = Some (lib_json_dumps lib content) /\
          rq_data rq2 = Some (lib_json_dumps lib content) /\
          dict_get (rq_headers rq1) "X-Signature" = Some (b2a_hex raw) /\
          dict_get (rq_headers rq2) "X-Signature" = Some (b2a_hex raw)
    | Raise e =>
        fst run1 = Raise e /\ fst run2 = Raise e /\
        w_http (snd run1) = w_http w1 /\ w_http (snd run2) = w_http w2
    end /\
    (62 <= RSA.modulus_octets (RSA.rsa_n key) ->
     exists raw,
       RSA.sign_pkcs1_v15 key (encode_utf8 (lib_json_dumps lib content)) = Ok raw /\
       String.length (b2a_hex raw) = 2 * RSA.modulus_octets (RSA.rsa_n key) /\
       Hex.is_hex (b2a_hex raw) = true).
Proof.
  intros lib env1 env2 ins1 ins2 url1 url2 content path1 path2 w1 w2 f1 f2 key
    Hp1 Hp2 Ho1 Ho2 Hl1 Hl2 run1 run2.
  split; [|apply sign_pkcs1_v15_ok].
  destruct (RSA.sign_pkcs1_v15 key (encode_utf8 (lib_json_dumps lib content)))
    as [raw|e] eqn:Hsign.
  - eexists. eexists.
    split; [apply (post_results_signed lib env1 ins1 url1 content path1 w1 f1 key raw);
            assumption|].
    split; [apply (post_results_signed lib env2 ins2 url2 content path2 w2 f2 key raw);
            assumption|].
    repeat split; reflexivity.
  - subst run1 run2.
    rewrite (post_results_sign_raises lib env1 ins1 url1 content path1 w1 f1 key e)
      by assumption.
    rewrite (post_results_sign_raises lib env2 ins2 url2 content path2 w2 f2 key e)
      by assumption.
    repeat split; reflexivity.
Qed.

Lemma post_results_signature_deterministic_witness :
  exists signature rq1 rq2,
    w_http (snd (post_results sample_lib (good_key_env 201) false
                   "https://refstack.example.org/api" sample_content
                   (Some "key.pem") empty_world)) = [rq1] /\
    w_http (snd (post_results sample_lib (good_key_env 500) true
                   "http://localhost:8000" sample_content
                   (Some "/home/user/id_rsa")
                   (mk_world [(INFO, "earlier")] [] ["earlier output"]))) = [rq2] /\
    dict_get (rq_headers rq1) "X-Signature" = Some signature /\
    dict_get (rq_headers rq2) "X-Signature" = Some signature /\
    String.length signature = 128.
Proof.
  assert (Hk : 62 <= RSA.modulus_octets (RSA.rsa_n sample_key))
    by (apply Nat.leb_le; vm_compute; reflexivity).
  destruct (post_results_signature_deterministic sample_lib
              (good_key_env 201) (good_key_env 500) false true
              "https://refstack.example.org/api" "http://localhost:8000"
              sample_content "key.pem" "/home/user/id_rsa"
              empty_world (mk_world [(INFO, "earlier")] [] ["earlier output"])
              (mk_file "<key.pem>" (Ok "PEM(sample_key)"))
              (mk_file "</home/user/id_rsa>" (Ok "PEM(sample_key)"))
              sample_key eq_refl eq_refl eq_refl eq_refl eq_refl eq_refl)
    as (Hruns & Hsize).
  destruct (Hsize Hk) as (raw & Hsign & Hlen & _).
  rewrite Hsign in Hruns.
  destruct Hruns as (rq1 & rq2 & H1 & H2 & _ & _ & H5 & H6).
  exists (b2a_hex raw), rq1, rq2.
  split; [exact H1|]. split; [exact H2|]. split; [exact H5|].
  split; [exact H6|].
  rewrite Hlen. vm_compute. reflexivity.
Defined.
(* ================================================================= *)
(** ** Further properties of [_form_test_id_mappings] *)

Lemma dict_set_absent {V} (d : dict V) (k : string) (v : V) :
  dict_get d k = None -> dict_set d k v = (d ++ [(k, v)])%list.
Proof.
  induction d as [|[k0 v0] d IH]; simpl; [reflexivity|].
  destruct (String.eqb k0 k); [discriminate|].
  intros H. rewrite (IH H). reflexivity.
Qed.

Lemma dict_get_app {V} (d e : dict V) (k : string) :
  dict_get (d ++ e)%list k =
    match dict_get d k with Some v => Some v | None => dict_get e k end.
Proof.
  induction d as [|[k0 v0] d IH]; simpl; [reflexivity|].
  destruct (String.eqb k0 k); [reflexivity | exact IH].
Qed.

Lemma dict_get_In {V} (d : dict V) (e : string * V) :
  NoDup (dict_keys d) -> In e d -> dict_get d (fst e) = Some (snd e).
Proof.
  unfold dict_keys.
  induction d as [|[k0 v0] d IH]; simpl; intros Hnd Hin; [contradiction|].
  inversion Hnd as [|? ? Hnotin Hnd']; subst.
  destruct Hin as [<-|Hin]; simpl.
  - rewrite String.eqb_refl. reflexivity.
  - destruct (String.eqb_spec k0 (fst e)) as [->|]; [|apply IH; assumption].
    exfalso. apply Hnotin. apply in_map. exact Hin.
Qed.

(** Lines that are new to the mapping and parse into the entries they
    stand for go into the mapping one after the other. *)
Lemma form_test_id_mappings_fresh (entries : list (string * string))
    (line_of : string * string -> string) :
  NoDup (map fst entries) ->
  (forall e, In e entries ->
     is_line (line_of e) /\ line_of e <> "" /\ base_and_tag (line_of e) = e) ->
  forall d,
    (forall e, In e entries -> dict_get d (fst e) = None) ->
    fold_left form_test_id_mappings_body (map line_of entries) d =
      (d ++ entries)%list.
Proof.
  induction entries as [|e entries IH]; intros Hnd Hgood d Habs; simpl.
  - rewrite app_nil_r. reflexivity.
  - destruct (Hgood e (or_introl eq_refl)) as (Hl & Hne & Hbt).
    rewrite (form_test_id_mappings_body_line _ _ Hl).
    destruct (String.eqb_spec (line_of e) ""); [contradiction|].
    rewrite Hbt.
    rewrite dict_set_absent by (apply Habs; left; reflexivity).
    inversion Hnd as [|? ? Hnotin Hnd']; subst.
    rewrite IH; [rewrite <- app_assoc; destruct e; reflexivity | exact Hnd' | |].
    + intros e' He'. apply Hgood. right. exact He'.
    + intros e' He'. rewrite dict_get_app, (Habs e' (or_intror He')).
      simpl. destruct e as [k v]. simpl in *.
      destruct (String.eqb_spec k (fst e')) as [->|]; [|reflexivity].
      exfalso. apply Hnotin. apply in_map. exact He'.
Qed.

Lemma str_partition_app_absent (c : ascii) (a b : string) :
  str_contains c a = false ->
  str_partition c (a ++ b) =
    match str_partition c b with
    | Some (p, r) => Some (a ++ p, r)
    | None => None
    end.
Proof.
  induction a as [|x a IH]; simpl.
  - intros _. destruct (str_partition c b) as [[p r]|]; reflexivity.
  - destruct (Ascii.eqb x c); [discriminate|]. intros H. rewrite (IH H).
    destruct (str_partition c b) as [[p r]|]; reflexivity.
Qed.

Lemma str_contains_partition (c : ascii) (s p r : string) :
  str_partition c s = Some (p, r) ->
  forall x, str_contains x r = true -> str_contains x s = true.
Proof.
  intros H x Hx. apply str_partition_Some in H. destruct H as [-> _].
  rewrite str_contains_app. simpl. rewrite Hx.
  destruct (Ascii.eqb c x); rewrite orb_true_r; reflexivity.
Qed.

(** The key of a line holds no group: where it has brackets, every "]"
    comes before every "[". *)
Lemma key_split_span (line : string) :
  split_span (fst (base_and_tag line)) = None.
Proof.
  rewrite base_and_tag_split_span.
  destruct (split_span line) as [[[pre mid] post]|] eqn:Hs; cbn [fst].
  - apply split_span_Some in Hs. destruct Hs as (_ & Hpre & Hpost).
    unfold split_span. rewrite (str_partition_app_absent _ _ _ Hpre).
    destruct (str_partition "[" post) as [[p t]|] eqn:Hp; [|reflexivity].
    assert (Ht : str_contains "]" t = false).
    { destruct (str_contains "]" t) eqn:Ht; [|reflexivity].
      rewrite (str_contains_partition _ _ _ _ Hp _ Ht) in Hpost. discriminate. }
    apply str_rpartition_None in Ht. rewrite Ht. reflexivity.
  - exact Hs.
Qed.

Lemma key_is_line (line : string) :
  is_line line -> is_line (fst (base_and_tag line)).
Proof.
  intros Hl. rewrite base_and_tag_split_span.
  destruct (split_span line) as [[[pre mid] post]|] eqn:Hs; cbn [fst]; [|exact Hl].
  apply split_span_Some in Hs. destruct Hs as (-> & _).
  apply is_line_app in Hl. destruct Hl as [Hpre Hl].
  apply is_line_app in Hl. destruct Hl as [_ Hl].
  apply is_line_app in Hl. destruct Hl as [_ Hl].
  apply is_line_app in Hl. destruct Hl as [_ Hl].
  apply is_line_app. auto.
Qed.

Lemma fold_body_skip_empty (l : list string) (d : dict string) :
  fold_left form_test_id_mappings_body l d =
    fold_left form_test_id_mappings_body
      (filter (fun k => negb (String.eqb k "")) l) d.
Proof.
  revert d. induction l as [|x l IH]; intros d; simpl; [reflexivity|].
  destruct (String.eqb_spec x "") as [->|Hne]; simpl; [apply IH|].
  apply IH.
Qed.

(** X1.  The keys of a mapping are in normal form.  For every sequence
    of lines, each key [k] of the mapping [_form_test_id_mappings] builds
    holds no bracket group any more ([base_and_tag k] is [k] with the empty
    tag), so the keys handed to [_form_test_id_mappings] again come back
    as they are, each nonempty key with the empty tag and in the same
    order: stripping the groups is idempotent. *)
Theorem form_test_id_mappings_keys_stable :
  forall lines : list string,
    Forall is_line lines ->
    let keys := dict_keys (_form_test_id_mappings lines) in
    (forall k, In k keys -> base_and_tag k = (k, "")) /\
    _form_test_id_mappings keys =
      map (fun k => (k, ""))
          (filter (fun k => negb (String.eqb k "")) keys).
Proof.
  intros lines Hl keys.
  assert (Hkey : forall k, In k keys -> is_line k /\ base_and_tag k = (k, "")).
  { intros k Hk. apply (form_test_id_mappings_keys _ Hl) in Hk.
    destruct Hk as (line & Hin & _ & <-).
    split.
    - apply key_is_line. rewrite Forall_forall in Hl. auto.
    - rewrite base_and_tag_split_span, key_split_span. reflexivity. }
  split; [intros k Hk; apply Hkey; exact Hk|].
  unfold _form_test_id_mappings at 1. rewrite fold_body_skip_empty.
  set (ks := filter (fun k => negb (String.eqb k "")) keys).
  assert (Hmap : ks = map fst (map (fun k : string => (k, "")) ks)).
  { rewrite map_map. simpl. symmetry. apply map_id. }
  rewrite Hmap at 1.
  rewrite (form_test_id_mappings_fresh _ fst); [reflexivity| | |].
  - rewrite <- Hmap. apply NoDup_filter. apply form_test_id_mappings_NoDup.
  - intros e He. apply in_map_iff in He. destruct He as (k & <- & Hk).
    apply filter_In in Hk. destruct Hk as [Hk Hne]. cbn [fst].
    destruct (Hkey k Hk) as [H1 H2]. repeat split; auto.
    intros ->. discriminate.
  - intros e _. reflexivity.
Qed.

Lemma form_test_id_mappings_keys_stable_witness :
  let lines := ["a.b[x,y]"; "c(d)[e][f]g"; "x]y[z"; "[only]"; "a.b[z]"] in
  dict_keys (_form_test_id_mappings lines) = ["a.b"; "c(d)g"; "x]y[z"; ""] /\
  _form_test_id_mappings (dict_keys (_form_test_id_mappings lines)) =
    [("a.b", ""); ("c(d)g", ""); ("x]y[z", "")].
Proof.
  intros lines. split; [reflexivity|].
  destruct (form_test_id_mappings_keys_stable lines) as [_ H].
  - repeat constructor.
  - rewrite H. reflexivity.
Defined.

Lemma flat_map_emitted_entries (d : dict string) (l : list (string * string)) :
  (forall e, In e l -> dict_get d (fst e) = Some (snd e)) ->
  flat_map (emitted d) (map fst l) = map (fun e => full_id (fst e) (snd e)) l.
Proof.
  induction l as [|e l IH]; intros H; simpl; [reflexivity|].
  unfold emitted at 1. rewrite (H e (or_introl eq_refl)). simpl.
  f_equal. apply IH. intros e' He'. apply H. right. exact He'.
Qed.

(** The full identifier of a key without brackets and its group, parsed
    again, gives the key and the group. *)
Lemma base_and_tag_full_id (k mid : string) :
  str_contains "[" k = false -> str_contains "]" k = false ->
  base_and_tag (full_id k ("[" ++ mid ++ "]")) = (k, "[" ++ mid ++ "]").
Proof.
  intros Ho Hc. cbn [append full_id].
  destruct (str_partition "(" k) as [[prefix rest]|] eqn:Hp.
  - apply str_partition_Some in Hp. destruct Hp as [-> _].
    rewrite str_contains_app in Ho, Hc.
    apply orb_false_iff in Ho, Hc. destruct Ho as [Ho _], Hc as [_ Hc].
    rewrite base_and_tag_split_span.
    replace (prefix ++ String "[" ((mid ++ "]") ++ String "(" rest))
      with (prefix ++ "[" ++ mid ++ "]" ++ String "(" rest)
      by (cbn [append]; rewrite append_assoc; reflexivity).
    rewrite (split_span_intro prefix mid (String "(" rest) Ho Hc).
    reflexivity.
  - rewrite base_and_tag_split_span.
    replace (k ++ String "[" (mid ++ "]")) with (k ++ "[" ++ mid ++ "]" ++ "")
      by reflexivity.
    rewrite (split_span_intro k mid "" Ho eq_refl).
    rewrite append_nil_r. reflexivity.
Qed.

Lemma full_id_is_line (k v : string) :
  is_line k -> is_line v -> is_line (full_id k v).
Proof.
  intros Hk Hv. unfold full_id. destruct v as [|c v]; [exact Hk|].
  destruct (str_partition "(" k) as [[prefix rest]|] eqn:Hp.
  - apply str_partition_Some in Hp. destruct Hp as [-> _].
    apply is_line_app in Hk. destruct Hk as [H1 H2].
    apply is_line_app. split; [exact H1|].
    apply is_line_app. split; [exact Hv|]. exact H2.
  - apply is_line_app. auto.
Qed.

(** What [decides] says about one entry: a nonempty line among the lines
    has this key and this group. *)
Lemma decides_line (lines : list string) (k v : string) :
  decides lines k v ->
  exists line, In line lines /\ line <> "" /\ base_and_tag line = (k, v).
Proof.
  intros (l1 & line & l2 & -> & Hne & Hbt & _).
  exists line. split; [apply in_or_app; right; left; reflexivity | auto].
Qed.

(** X2.  A normalized listing parses back into the mapping it came from.
    Take the mapping [m] that [_form_test_id_mappings] builds from a
    listing in which every key that carries a tag has no bracket of its
    own.  Requesting every key of [m] from [_get_full_test_ids] gives one
    full identifier for each entry, in order, and
    [_form_test_id_mappings] of these identifiers is [m] again. *)
Theorem normalized_list_round_trip :
  forall (lines : list string) (w : world),
    Forall is_line lines ->
    let m := _form_test_id_mappings lines in
    (forall k v, dict_get m k = Some v -> v <> "" -> bracket_free k) ->
    exists ids,
      fst (_get_full_test_ids m (dict_keys m) w) = Ok ids /\
      ids = map (fun e => full_id (fst e) (snd e)) m /\
      _form_test_id_mappings ids = m.
Proof.
  intros lines w Hl m Hfree.
  pose proof (form_test_id_mappings_NoDup lines) as Hnd. fold m in Hnd.
  assert (Hget : forall e, In e m -> dict_get m (fst e) = Some (snd e))
    by (intros e He; apply dict_get_In; assumption).
  exists (map (fun e => full_id (fst e) (snd e)) m).
  split; [|split; [reflexivity|]].
  - rewrite get_full_test_ids_run. cbn [fst]. f_equal.
    apply flat_map_emitted_entries. exact Hget.
  - unfold _form_test_id_mappings at 1.
    rewrite (form_test_id_mappings_fresh m
               (fun e => full_id (fst e) (snd e))); [reflexivity|exact Hnd| |].
    + intros [k v] He. cbn [fst snd].
      pose proof (Hget _ He) as Hkv. cbn [fst snd] in Hkv.
      pose proof Hkv as Hd.
      apply (form_test_id_mappings_get _ Hl) in Hd. apply decides_line in Hd.
      destruct Hd as (line & Hin & Hne & Hbt).
      assert (Hline : is_line line) by (rewrite Forall_forall in Hl; auto).
      rewrite base_and_tag_split_span in Hbt.
      destruct (split_span line) as [[[pre mid] post]|] eqn:Hs.
      * inversion Hbt; subst k v.
        assert (Hv : "[" ++ mid ++ "]" <> "") by discriminate.
        destruct (Hfree _ _ Hkv Hv) as [Ho Hc].
        apply split_span_Some in Hs. destruct Hs as (-> & _ & _).
        apply is_line_app in Hline. destruct Hline as [Hpre Hline].
        apply is_line_app in Hline. destruct Hline as [_ Hline].
        apply is_line_app in Hline. destruct Hline as [Hmid Hline].
        apply is_line_app in Hline. destruct Hline as [_ Hpost].
        split; [|split].
        -- apply full_id_is_line; [apply is_line_app; auto|].
           unfold is_line in *. simpl. rewrite str_contains_app, Hmid.
           reflexivity.
        -- cbn [append full_id].
           destruct (str_partition "(" (pre ++ post)) as [[a b]|];
             [destruct a | destruct (pre ++ post)]; discriminate.
        -- apply base_and_tag_full_id; assumption.
      * inversion Hbt; subst k v. cbn [full_id].
        split; [exact Hline|]. split; [exact Hne|].
        rewrite base_and_tag_split_span, Hs. reflexivity.
    + intros e _. reflexivity.
Qed.

Lemma normalized_list_round_trip_witness :
  let lines := ["t.a[id-1,smoke]"; "t.b(scenario)[id-2]"; "t.c"; "t.a[id-3]"] in
  exists ids,
    fst (_get_full_test_ids (_form_test_id_mappings lines)
           (dict_keys (_form_test_id_mappings lines)) empty_world) = Ok ids /\
    ids = ["t.a[id-3]"; "t.b[id-2](scenario)"; "t.c"] /\
    _form_test_id_mappings ids =
      [("t.a", "[id-3]"); ("t.b(scenario)", "[id-2]"); ("t.c", "")].
Proof.
  intros lines.
  destruct (normalized_list_round_trip lines empty_world) as (ids & H1 & H2 & H3).
  - repeat constructor.
  - intros k v Hkv Hv.
    change (dict_get [("t.a", "[id-3]"); ("t.b(scenario)", "[id-2]");
                      ("t.c", "")] k = Some v) in Hkv.
    cbn [dict_get] in Hkv.
    destruct (String.eqb_spec "t.a" k) as [<-|_]; [split; reflexivity|].
    destruct (String.eqb_spec "t.b(scenario)" k) as [<-|_]; [split; reflexivity|].
    destruct (String.eqb_spec "t.c" k) as [<-|_]; [split; reflexivity|].
    discriminate.
  - exists ids. split; [exact H1|]. rewrite H3. split; [exact H2 | reflexivity].
Defined.

Lemma fold_body_get (l : list string) (d : dict string) (k : string) :
  dict_get (fold_left form_test_id_mappings_body l d) k =
    match dict_get (_form_test_id_mappings l) k with
    | Some v => Some v
    | None => dict_get d k
    end.
Proof.
  induction l as [|x l IH] using rev_ind; [reflexivity|].
  rewrite form_test_id_mappings_snoc, fold_left_app. cbn [fold_left].
  unfold form_test_id_mappings_body.
  destruct (negb (String.eqb x "")); [|exact IH].
  destruct (Re.search bracket_re x); rewrite !dict_get_set;
    match goal with |- context [String.eqb ?a k] => destruct (String.eqb a k) end;
    auto.
Qed.

(** X3.  A listing in two parts.  For all sequences of strings [l1] and
    [l2] (lines or not), the mapping of [l1 ++ l2] holds at every key what
    the mapping of [l2] holds there and, where [l2] has nothing, what the
    mapping of [l1] holds: what comes later in a listing replaces what
    came before and nothing else. *)
Theorem form_test_id_mappings_app :
  forall (l1 l2 : list string) (k : string),
    dict_get (_form_test_id_mappings (l1 ++ l2)) k =
      match dict_get (_form_test_id_mappings l2) k with
      | Some v => Some v
      | None => dict_get (_form_test_id_mappings l1) k
      end.
Proof.
  intros l1 l2 k. unfold _form_test_id_mappings at 1.
  rewrite fold_left_app. apply fold_body_get.
Qed.
(* ================================================================= *)
(** ** Text, files and the list files *)


Ltac high := unfold high; repeat constructor; simpl; lia.

Lemma utf8_scan_app (a b : bytes) :
  forall pending,
    utf8_scan a pending = true ->
    utf8_scan (a ++ b) pending = utf8_scan b [].
Proof.
  induction a as [|c a IH]; intros pending H.
  - destruct pending; [reflexivity | discriminate].
  - cbn [append]. cbn [utf8_scan] in *.
    destruct pending as [|[lo hi] rest].
    + repeat match type of H with
             | (if ?c then _ else _) = true => destruct c
             end; try discriminate; apply IH; exact H.
    + apply andb_true_iff in H. destruct H as [H1 H2].
      rewrite H1. apply IH. exact H2.
Qed.

Lemma utf8_scan_ascii (a b : bytes) (c : ascii) :
  (N_of_ascii c <= 127)%N ->
  forall pending, high pending ->
    utf8_scan (a ++ String c b) pending =
      utf8_scan a pending && utf8_scan b [].
Proof.
  intros Hc. induction a as [|x a IH]; intros pending Hp.
  - cbn [append utf8_scan]. destruct pending as [|[lo hi] rest].
    + apply N.leb_le in Hc. rewrite Hc. reflexivity.
    + inversion Hp as [|? ? Hlo _]; subst. simpl in Hlo.
      assert (Hf : (lo <=? N_of_ascii c)%N = false) by (apply N.leb_gt; lia).
      rewrite Hf. reflexivity.
  - cbn [append utf8_scan]. destruct pending as [|[lo hi] rest].
    + repeat match goal with
             | |- (if ?c then _ else _) = _ => destruct c
             end; try reflexivity; apply IH; high.
    + inversion Hp; subst. rewrite IH by assumption.
      rewrite andb_assoc. reflexivity.
Qed.

Lemma utf8_valid_app (a b : bytes) :
  utf8_valid a = true -> utf8_valid (a ++ b) = utf8_valid b.
Proof. apply utf8_scan_app. Qed.

Lemma utf8_valid_ascii (a b : bytes) (c : ascii) :
  (N_of_ascii c <= 127)%N ->
  utf8_valid (a ++ String c b) = utf8_valid a && utf8_valid b.
Proof. intros Hc. apply utf8_scan_ascii; [exact Hc | constructor]. Qed.

Lemma universal_newlines_plain (s : string) :
  str_contains CR s = false -> universal_newlines s false = s.
Proof.
  assert (H : forall s b, str_contains CR s = false ->
                          (b = false \/ forall t, s <> String LF t) ->
                          universal_newlines s b = s).
  { clear s. induction s as [|c s IH]; intros b Hs Hb; [reflexivity|].
    cbn [universal_newlines str_contains] in *.
    destruct (Ascii.eqb c CR); [discriminate|].
    destruct (Ascii.eqb_spec c LF) as [->|Hne].
    - destruct Hb as [->|Hb]; [|exfalso; exact (Hb s eq_refl)].
      rewrite IH; auto.
    - rewrite IH; auto. }
  intros Hs. apply H; auto.
Qed.

Lemma plain_text_app (a b : string) :
  plain_text a -> plain_text b -> plain_text (a ++ b).
Proof.
  intros [Ha1 Ha2] [Hb1 Hb2]. split.
  - rewrite utf8_valid_app; assumption.
  - rewrite str_contains_app, Ha2, Hb2. reflexivity.
Qed.

Lemma read_text_plain (content : bytes) :
  plain_text content -> read_text content = Ok content.
Proof.
  intros [Hv Hc]. unfold read_text, decode_utf8. rewrite Hv.
  rewrite universal_newlines_plain by exact Hc. reflexivity.
Qed.

Lemma list_file_content_cons (x : string) (l : list string) :
  list_file_content (x :: l) = x ++ String LF (list_file_content l).
Proof.
  unfold list_file_content. cbn [map]. 
  destruct l as [|y l]; cbn [String.concat map].
  - reflexivity.
  - rewrite append_assoc. reflexivity.
Qed.

Lemma list_file_content_plain (ids : list string) :
  Forall plain_text ids -> plain_text (list_file_content ids).
Proof.
  induction 1 as [|x l Hx Hl IH]; [split; reflexivity|].
  rewrite list_file_content_cons. apply plain_text_app; [exact Hx|].
  destruct IH as [H1 H2]. split.
  - exact H1.
  - exact H2.
Qed.

Lemma write_buffer (ids : list string) (acc : string) :
  fold_left (fun buffer test_id => buffer ++ encode_utf8 (test_id ++ String LF ""))
    ids acc = acc ++ list_file_content ids.
Proof.
  revert acc. induction ids as [|x l IH]; intros acc.
  - cbn. rewrite append_nil_r. reflexivity.
  - cbn [fold_left]. rewrite IH, list_file_content_cons. unfold encode_utf8.
    rewrite !append_assoc. reflexivity.
Qed.

Lemma write_normalized_test_list_run (sys : Sys) (ids : list string) (p : proc) :
  _write_normalized_test_list sys ids p =
    (Val (sys_mktemp sys (p_files p)),
     with_list_file p (sys_mktemp sys (p_files p)) (list_file_content ids)).
Proof.
  unfold _write_normalized_test_list, with_list_file.
  rewrite write_buffer. reflexivity.
Qed.

Lemma file_lines_line (x rest : string) :
  is_line x ->
  file_lines (x ++ String LF rest) = (x ++ String LF "") :: file_lines rest.
Proof.
  unfold is_line. induction x as [|c x IH]; cbn [append file_lines str_contains].
  - intros _. reflexivity.
  - destruct (Ascii.eqb c LF); [discriminate|]. intros H. rewrite (IH H).
    reflexivity.
Qed.

Lemma str_rstrip_line (x : string) :
  is_line x -> str_rstrip LF (x ++ String LF "") = x.
Proof.
  unfold is_line. induction x as [|c x IH]; cbn [append str_rstrip str_contains].
  - reflexivity.
  - destruct (Ascii.eqb c LF) eqn:Hc; [discriminate|]. intros H.
    rewrite (IH H). destruct x; reflexivity.
Qed.

Lemma list_file_content_lines (ids : list string) :
  Forall is_line ids ->
  map (str_rstrip LF) (file_lines (list_file_content ids)) = ids.
Proof.
  induction 1 as [|x l Hx Hl IH]; [reflexivity|].
  rewrite list_file_content_cons, (file_lines_line _ _ Hx). cbn [map].
  rewrite (str_rstrip_line _ Hx), IH. reflexivity.
Qed.

Lemma dict_get_set_same {V} (d : dict V) (k : string) (v : V) :
  dict_get (dict_set d k v) k = Some v.
Proof. rewrite dict_get_set, String.eqb_refl. reflexivity. Qed.

Lemma dict_get_set_other {V} (d : dict V) (k k' : string) (v : V) :
  k' <> k -> dict_get (dict_set d k v) k' = dict_get d k'.
Proof.
  intros H. rewrite dict_get_set.
  destruct (String.eqb_spec k k'); [congruence | reflexivity].
Qed.

(** X4.  A list file reads back as the identifiers written.  For
    identifiers that are lines of plain text (valid UTF-8, no line feed,
    no carriage return), [_write_normalized_test_list] returns the path
    the system picked for the temporary file, leaves every other file and
    the world as they were, registers the removal of the file at exit, and
    the file holds each identifier followed by a line feed: opened and read
    line by line, each line stripped of its line feed as
    [_get_base_test_ids_from_list_file] does, it gives the identifiers
    back in order. *)
Theorem write_normalized_test_list_reads_back :
  forall (sys : Sys) (test_ids : list string) (p : proc),
    Forall is_line test_ids ->
    Forall plain_text test_ids ->
    exists name p',
      _write_normalized_test_list sys test_ids p = (Val name, p') /\
      name = sys_mktemp sys (p_files p) /\
      p_world p' = p_world p /\
      p_atexit p' = (p_atexit p ++ [name])%list /\
      (forall path, path <> name ->
         dict_get (p_files p') path = dict_get (p_files p) path) /\
      dict_get (p_files p') name = Some (list_file_content test_ids) /\
      exists f text,
        env_open (env_of sys (p_files p')) name = Ok f /\
        f_read f = Ok text /\
        map (str_rstrip LF) (file_lines text) = test_ids.
Proof.
  intros sys ids p Hl Hp.
  exists (sys_mktemp sys (p_files p)).
  exists (with_list_file p (sys_mktemp sys (p_files p)) (list_file_content ids)).
  split; [apply write_normalized_test_list_run|].
  split; [reflexivity|]. split; [reflexivity|]. split; [reflexivity|].
  cbn [with_list_file p_files].
  split; [intros path Hne; rewrite !dict_get_set_other by exact Hne; reflexivity|].
  split; [apply dict_get_set_same|].
  cbn [env_of env_open]. unfold open_file. rewrite dict_get_set_same.
  eexists. exists (list_file_content ids). split; [reflexivity|].
  cbn [f_read]. split.
  - apply read_text_plain. apply list_file_content_plain. exact Hp.
  - apply list_file_content_lines. exact Hl.
Qed.

Lemma write_normalized_test_list_reads_back_witness :
  let sys := mk_sys (fun _ _ => Raise (ConnectionError "no network"))
               (fun _ _ _ => Raise (IOError "no such command"))
               (fun _ => "/tmp/tmpk3x9") (fun _ => Ok []) in
  let p := mk_proc empty_world [("/etc/motd", "hello")] [] [] [] [] in
  let ids := ["t.a[id-1]"; "t.b[id-2](scenario)"] in
  exists p',
    _write_normalized_test_list sys ids p = (Val "/tmp/tmpk3x9", p') /\
    p_files p' =
      [("/etc/motd", "hello");
       ("/tmp/tmpk3x9",
        "t.a[id-1]" ++ String LF ("t.b[id-2](scenario)" ++ String LF ""))] /\
    p_atexit p' = ["/tmp/tmpk3x9"].
Proof.
  intros sys p ids.
  destruct (write_normalized_test_list_reads_back sys ids p)
    as (name & p' & Hrun & Hname & _).
  - repeat constructor.
  - repeat constructor.
  - exists p'. rewrite Hrun, Hname. split; [reflexivity|].
    unfold _write_normalized_test_list in Hrun. inversion Hrun.
    split; reflexivity.
Defined.

(** *** Exit handlers *)

Lemma dict_get_del {V} (d : dict V) (k k' : string) :
  dict_get (dict_del d k) k' =
    if String.eqb k' k then None else dict_get d k'.
Proof.
  unfold dict_del. induction d as [|[k0 v0] d IH]; simpl.
  - destruct (String.eqb k' k); reflexivity.
  - destruct (String.eqb_spec k0 k) as [E1|E1]; simpl; rewrite ?IH;
      destruct (String.eqb_spec k' k) as [E2|E2];
      destruct (String.eqb_spec k0 k') as [E3|E3];
      try reflexivity; congruence.
Qed.

Lemma dict_del_absent {V} (d : dict V) (k : string) :
  dict_get d k = None -> dict_del d k = d.
Proof.
  unfold dict_del. induction d as [|[k0 v0] d IH]; simpl; [reflexivity|].
  destruct (String.eqb k0 k); [discriminate|]. simpl. intros H.
  rewrite (IH H). reflexivity.
Qed.

Lemma set_files_same (p : proc) : set_files p (p_files p) = p.
Proof. destruct p; reflexivity. Qed.

Lemma remove_test_list_file_run (path : string) (p : proc) :
  _remove_test_list_file path p =
    (Val tt, set_files p (dict_del (p_files p) path)).
Proof.
  unfold _remove_test_list_file, pbind, isfile, os_remove, has_file, pret.
  destruct (dict_get (p_files p) path) eqn:H; [rewrite H; reflexivity|].
  rewrite (dict_del_absent _ _ H), set_files_same. reflexivity.
Qed.

Lemma run_handlers_run (paths : list string) (p : proc) :
  run_handlers paths p =
    (Val tt, set_files p (fold_left dict_del paths (p_files p))).
Proof.
  revert p. induction paths as [|x l IH]; intros p; cbn [run_handlers fold_left].
  - rewrite set_files_same. reflexivity.
  - unfold pbind. rewrite remove_test_list_file_run, IH. reflexivity.
Qed.

Lemma dict_get_del_all {V} (paths : list string) (d : dict V) (k : string) :
  dict_get (fold_left dict_del paths d) k =
    if existsb (String.eqb k) paths then None else dict_get d k.
Proof.
  revert d. induction paths as [|x l IH]; intros d; cbn [fold_left existsb].
  - reflexivity.
  - rewrite IH, dict_get_del.
    destruct (String.eqb k x); simpl; [destruct (existsb _ l)|]; reflexivity.
Qed.

Lemma existsb_rev {A} (f : A -> bool) (l : list A) :
  existsb f (rev l) = existsb f l.
Proof.
  induction l as [|x l IH]; [reflexivity|].
  cbn [rev existsb]. rewrite existsb_app, IH. simpl.
  rewrite orb_false_r. apply orb_comm.
Qed.

(** X5.  At exit the list files go and nothing else does.  Whatever the
    state of the process, running the registered exit handlers never
    fails (a file that is gone already is passed over), leaves no handler
    registered and the world untouched, removes exactly the registered
    paths and keeps the content of every other file. *)
Theorem at_exit_removes_list_files :
  forall p : proc,
    exists p',
      at_exit p = (Val tt, p') /\
      p_atexit p' = [] /\
      p_world p' = p_world p /\
      forall path,
        dict_get (p_files p') path =
          if existsb (String.eqb path) (p_atexit p) then None
          else dict_get (p_files p) path.
Proof.
  intros p. unfold at_exit. rewrite run_handlers_run.
  eexists. split; [reflexivity|]. cbn.
  split; [reflexivity|]. split; [reflexivity|].
  intros path. rewrite dict_get_del_all, existsb_rev. reflexivity.
Qed.

(** *** Listing the tests and writing the normalized list *)

(** The whole of [_get_tempest_test_ids], given what the listing command
    answers. *)
Lemma get_tempest_test_ids_run (sys : Sys) (dir : string) (p : proc)
    (r : completed) :
  listing sys dir p = Ok r ->
  _get_tempest_test_ids sys dir p =
    if negb (returncode r =? 0)%Z then
      (Fail (CalledProcessError (returncode r)
               (String.concat " " (list_command dir (uses_stestr dir p)))),
       listed dir p [(ERROR, bytes_repr (stdout r)); (ERROR, "None")])
    else
      match decode_utf8 (stdout r) with
      | Ok text =>
          (Val (_form_test_id_mappings (str_split LF text)), listed dir p [])
      | Raise e => (Fail (Exc e), listed dir p [])
      end.
Proof.
  unfold listing, listed, before_listing, uses_stestr, list_command,
    init_command, _get_tempest_test_ids, pbind, isfile, popen, pret.
  cbn [fst snd p_files].
  destruct (has_file (p_files p) (path_join dir ".stestr.conf")).
  - destruct (sys_popen sys (p_spawned p) _ dir) as [r0|e]; [|discriminate].
    cbn [p_spawned p_world p_files p_atexit p_prompts p_stdin].
    intros ->. destruct (negb (returncode r =? 0)%Z).
    + unfold run_m, logger_log, pfail, add_log, set_world. cbn.
      rewrite <- app_assoc. reflexivity.
    + unfold run_m, try_except, raise, bind, lift, ret. cbn.
      destruct (decode_utf8 (stdout r)); rewrite add_log_nil; reflexivity.
  - intros ->. destruct (negb (returncode r =? 0)%Z).
    + unfold run_m, logger_log, pfail, add_log, set_world. cbn.
      rewrite <- app_assoc. reflexivity.
    + unfold run_m, try_except, raise, bind, lift, ret. cbn.
      destruct (decode_utf8 (stdout r)); rewrite add_log_nil; reflexivity.
Qed.

(** X6.  What [_get_tempest_test_ids] makes of the listing command's
    answer.  The command is [stestr list], after [stestr init] was
    started, when the Tempest directory holds [.stestr.conf], and
    [testr list-tests] otherwise.  A return code other than 0 raises
    [CalledProcessError] with that code and the command line, after two
    ERROR records: the output as [bytes] and [None] for the standard
    error, which is not piped.  With return code 0, an output that is not
    valid UTF-8 raises a [ValueError] (the [UnicodeDecodeError] of
    [decode()]); a valid one gives the mapping in which a key has a value
    exactly when the last nonempty line of the output with that key has
    that value, nothing being logged. *)
Theorem get_tempest_test_ids_spec :
  forall (sys : Sys) (tempest_dir : string) (p : proc) (r : completed),
    listing sys tempest_dir p = Ok r ->
    let cmd := list_command tempest_dir (uses_stestr tempest_dir p) in
    let run := _get_tempest_test_ids sys tempest_dir p in
    (returncode r <> 0%Z ->
       run = (Fail (CalledProcessError (returncode r) (String.concat " " cmd)),
              listed tempest_dir p
                [(ERROR, bytes_repr (stdout r)); (ERROR, "None")])) /\
    (returncode r = 0%Z -> utf8_valid (stdout r) = false ->
       exists msg, run = (Fail (Exc (ValueError msg)), listed tempest_dir p [])) /\
    (returncode r = 0%Z -> utf8_valid (stdout r) = true ->
       run = (Val (listed_ids r), listed tempest_dir p []) /\
       NoDup (dict_keys (listed_ids r)) /\
       forall k v,
         dict_get (listed_ids r) k = Some v <->
         decides (str_split LF (stdout r)) k v).
Proof.
  intros sys dir p r Hr cmd run. subst cmd run.
  rewrite (get_tempest_test_ids_run _ _ _ _ Hr).
  split; [|split].
  - intros Hrc. apply Z.eqb_neq in Hrc. rewrite Hrc. reflexivity.
  - intros -> Hv. cbn [Z.eqb negb]. unfold decode_utf8. rewrite Hv.
    eexists. reflexivity.
  - intros -> Hv. cbn [Z.eqb negb]. unfold decode_utf8. rewrite Hv.
    split; [reflexivity|]. split; [apply form_test_id_mappings_NoDup|].
    apply form_test_id_mappings_get. apply str_split_lines.
Qed.

Lemma get_tempest_test_ids_spec_witness :
  _get_tempest_test_ids sample_sys "/opt/tempest" sample_proc =
    (Val [("t.a", "[id-1,smoke]"); ("t.b(scenario)", "[id-2]"); ("t.c", "")],
     listed "/opt/tempest" sample_proc []) /\
  p_spawned (listed "/opt/tempest" sample_proc []) =
    [(["/opt/tempest/tools/with_venv.sh"; "stestr"; "init"], "/opt/tempest");
     (["/opt/tempest/tools/with_venv.sh"; "stestr"; "list"], "/opt/tempest")].
Proof.
  destruct (get_tempest_test_ids_spec sample_sys "/opt/tempest" sample_proc
              (mk_completed 0 sample_listing) eq_refl) as (_ & _ & H).
  destruct (H eq_refl eq_refl) as (Hrun & _).
  split; [rewrite Hrun; reflexivity | reflexivity].
Defined.

Lemma form_test_id_mappings_empty_lines (lines : list string) :
  Forall (fun l => l = "") lines -> _form_test_id_mappings lines = [].
Proof.
  intros H. unfold _form_test_id_mappings.
  assert (G : forall d, fold_left form_test_id_mappings_body lines d = d).
  { induction H as [|x l -> _ IH]; intros d; [reflexivity|]. exact (IH d). }
  apply G.
Qed.

Lemma empty_lines_valid (text : string) :
  Forall (fun l => l = "") (str_split LF text) -> utf8_valid text = true.
Proof.
  unfold utf8_valid. induction text as [|a text IH]; [reflexivity|].
  cbn [str_split]. destruct (Ascii.eqb_spec a LF) as [->|Hne].
  - intros H. inversion H; subst. cbn. apply IH. assumption.
  - destruct (str_split LF text); intros H; inversion H; discriminate.
Qed.

(** X7.  No test listed, no list file.  When the listing command succeeds
    and every line of its output is empty, [get_normalized_test_list]
    returns [None] at once: the list location is not read, no request is
    made, no file is written and nothing is registered or logged.
    [create_include_list] passes that [None] to [open] and so raises
    [TypeError]. *)
Theorem no_tempest_tests_no_list :
  forall (sys : Sys) (tempest_dir : string) (insecure : bool)
         (list_location : string) (p : proc) (r : completed),
    listing sys tempest_dir p = Ok r ->
    returncode r = 0%Z ->
    Forall (fun line => line = "") (str_split LF (stdout r)) ->
    get_normalized_test_list sys tempest_dir insecure list_location p =
      (Val None, listed tempest_dir p []) /\
    create_include_list sys tempest_dir insecure list_location p =
      (Fail (Exc (TypeError
         "expected str, bytes or os.PathLike object, not NoneType")),
       listed tempest_dir p []).
Proof.
  intros sys dir insecure loc p r Hr Hrc Hemp.
  assert (Hn : get_normalized_test_list sys dir insecure loc p =
               (Val None, listed dir p [])).
  { unfold get_normalized_test_list, pbind.
    rewrite (get_tempest_test_ids_run _ _ _ _ Hr), Hrc. cbn [Z.eqb negb].
    unfold decode_utf8. rewrite (empty_lines_valid _ Hemp).
    rewrite (form_test_id_mappings_empty_lines _ Hemp). reflexivity. }
  split; [exact Hn|].
  unfold create_include_list, pbind. rewrite Hn. reflexivity.
Qed.

Lemma no_tempest_tests_no_list_witness :
  get_normalized_test_list silent_sys "/opt/tempest" false "list.txt"
    sample_proc = (Val None, listed "/opt/tempest" sample_proc []) /\
  p_files (listed "/opt/tempest" sample_proc []) = p_files sample_proc /\
  w_http (p_world (listed "/opt/tempest" sample_proc [])) = [].
Proof.
  destruct (no_tempest_tests_no_list silent_sys "/opt/tempest" false "list.txt"
              sample_proc (mk_completed 0 (String LF "")) eq_refl eq_refl)
    as [H _].
  - repeat constructor.
  - split; [exact H | split; reflexivity].
Defined.

Lemma listed_world (dir : string) (p : proc) :
  p_world (listed dir p []) = p_world p.
Proof. unfold listed. cbn [p_world]. apply add_log_nil. Qed.

Lemma get_normalized_test_list_run (sys : Sys) (dir : string) (insecure : bool)
    (loc : string) (p : proc) (r : completed) (base : list string) (w1 : world) :
  listing sys dir p = Ok r ->
  returncode r = 0%Z ->
  utf8_valid (stdout r) = true ->
  listed_ids r <> [] ->
  _get_base_test_ids_from_list_file (env_of sys (p_files p)) insecure loc
    (p_world p) = (Ok base, w1) ->
  get_normalized_test_list sys dir insecure loc p =
    (Val (Some (sys_mktemp sys (p_files p))),
     with_list_file
       (set_world (listed dir p []) (add_log w1 (normalizing_log r base)))
       (sys_mktemp sys (p_files p))
       (list_file_content (normalized_ids r base))).
Proof.
  intros Hr Hrc Hv Hne Hbase.
  unfold get_normalized_test_list, pbind.
  rewrite (get_tempest_test_ids_run _ _ _ _ Hr), Hrc. cbn [Z.eqb negb].
  unfold decode_utf8. rewrite Hv. fold (listed_ids r).
  destruct (listed_ids r) as [|e m] eqn:Hm; [contradiction|]. rewrite <- Hm.
  unfold run_env, run_m. rewrite listed_world.
  change (p_files (listed dir p [])) with (p_files p). rewrite Hbase.
  cbn [p_world set_world]. rewrite get_full_test_ids_run.
  rewrite write_normalized_test_list_run. reflexivity.
Qed.

(** X8.  The normalized list file.  When the listing command succeeds
    with valid UTF-8 that lists at least one test and the list location
    gives the base identifiers [base_ids], [get_normalized_test_list]
    returns the path the system picked for a new temporary file; that file
    holds, one to a line and in the order of [base_ids], the full
    identifier of every base identifier the listing knows, each base
    identifier counting once; every other file is as it was, the removal
    of the new file is registered, and the world is the one the reading of
    the list location left, with the records of [_get_full_test_ids]
    added. *)
Theorem get_normalized_test_list_spec :
  forall (sys : Sys) (tempest_dir : string) (insecure : bool)
         (list_location : string) (p : proc) (r : completed)
         (base_ids : list string) (w1 : world),
    listing sys tempest_dir p = Ok r ->
    returncode r = 0%Z ->
    utf8_valid (stdout r) = true ->
    listed_ids r <> [] ->
    _get_base_test_ids_from_list_file (env_of sys (p_files p)) insecure
      list_location (p_world p) = (Ok base_ids, w1) ->
    exists name p',
      get_normalized_test_list sys tempest_dir insecure list_location p =
        (Val (Some name), p') /\
      name = sys_mktemp sys (p_files p) /\
      dict_get (p_files p') name =
        Some (list_file_content (normalized_ids r base_ids)) /\
      (forall path, path <> name ->
         dict_get (p_files p') path = dict_get (p_files p) path) /\
      p_atexit p' = (p_atexit p ++ [name])%list /\
      p_world p' = add_log w1 (normalizing_log r base_ids) /\
      NoDup base_ids /\
      forall test_id,
        In test_id (normalized_ids r base_ids) <->
        exists base attr,
          In base base_ids /\ dict_get (listed_ids r) base = Some attr /\
          test_id = full_id base attr.
Proof.
  intros sys dir insecure loc p r base w1 Hr Hrc Hv Hne Hbase.
  eexists. eexists.
  split; [exact (get_normalized_test_list_run _ _ _ _ _ _ _ _ Hr Hrc Hv Hne Hbase)|].
  split; [reflexivity|]. cbn [with_list_file p_files set_world listed].
  split; [apply dict_get_set_same|].
  split; [intros path Hp; rewrite !dict_get_set_other by exact Hp; reflexivity|].
  split; [reflexivity|]. split; [reflexivity|].
  split.
  - pose proof (get_base_test_ids_run (env_of sys (p_files p)) insecure loc
                  (p_world p)) as Hrun.
    cbv zeta in Hrun. rewrite Hbase in Hrun.
    destruct (env_http _ _ _) as [resp|e].
    + inversion Hrun. apply form_test_id_mappings_NoDup.
    + destruct e; try discriminate.
      destruct (env_open _ _) as [f|e]; [|discriminate].
      destruct (f_read f) as [text|e]; [|discriminate].
      inversion Hrun. apply form_test_id_mappings_NoDup.
  - intros test_id. unfold normalized_ids. rewrite in_flat_map. split.
    + intros (b & Hb & Hin). unfold emitted in Hin.
      destruct (dict_get (listed_ids r) b) as [attr|] eqn:Hd; [|contradiction].
      destruct Hin as [<-|[]]. exists b, attr. auto.
    + intros (b & attr & Hb & Hd & ->). exists b. split; [exact Hb|].
      unfold emitted. rewrite Hd. left. reflexivity.
Qed.

Lemma sample_base_ids :
  _get_base_test_ids_from_list_file (env_of sample_sys (p_files sample_proc))
    false "list.txt" (p_world sample_proc) =
  (Ok ["t.b(scenario)"; "t.x"; "t.a"],
   sent empty_world (mk_request "GET" "list.txt" [] [] None true)).
Proof. vm_compute. reflexivity. Qed.

Lemma get_normalized_test_list_spec_witness :
  exists name p',
    get_normalized_test_list sample_sys "/opt/tempest" false "list.txt"
      sample_proc = (Val (Some name), p') /\
    dict_get (p_files p') name =
      Some ("t.b[id-2](scenario)" ++ String LF ("t.a[id-1,smoke]" ++ String LF "")) /\
    p_atexit p' = [name].
Proof.
  destruct (get_normalized_test_list_spec sample_sys "/opt/tempest" false
              "list.txt" sample_proc (mk_completed 0 sample_listing)
              ["t.b(scenario)"; "t.x"; "t.a"]
              (sent empty_world (mk_request "GET" "list.txt" [] [] None true))
              eq_refl eq_refl eq_refl)
    as (name & p' & Hrun & _ & Hfile & _ & Hexit & _).
  - discriminate.
  - exact sample_base_ids.
  - exists name, p'. split; [exact Hrun|]. split; [|exact Hexit].
    rewrite Hfile. reflexivity.
Defined.
(* ================================================================= *)
(** ** The include patterns *)

(** [.*\[] at the start of a line: as far as the last "[" of the line. *)
Lemma match_here_up_to_bracket (x rest : string) :
  is_line x ->
  Re.match_here up_to_bracket_re (x ++ String LF rest) =
    match str_rpartition "[" x with
    | Some (before, _) => Some (S (String.length before))
    | None => None
    end.
Proof.
  unfold is_line, up_to_bracket_re. cbn [Re.match_here].
  induction x as [|c x IH]; cbn [append Re.match_star str_contains str_rpartition].
  - intros _. reflexivity.
  - unfold Re.atom_matches at 1.
    destruct (Ascii.eqb c LF); [discriminate|]. cbn [negb]. intros H.
    rewrite (IH H).
    destruct (str_rpartition "[" x) as [[before after]|]; [reflexivity|].
    cbn [Re.match_here Re.atom_matches].
    destruct (Ascii.eqb c "["); reflexivity.
Qed.

Lemma findall_from_skip (p : Re.pattern) (a b : string) :
  findall_from p (a ++ b) (String.length a) = findall_from p b 0.
Proof.
  induction a as [|c a IH]; [reflexivity|].
  cbn [append String.length findall_from]. exact IH.
Qed.

(** No match starts in a piece of a line that has no "[". *)
Lemma findall_from_no_bracket (x rest : string) :
  is_line x -> str_contains "[" x = false ->
  findall_from up_to_bracket_re (x ++ String LF rest) 0 =
    findall_from up_to_bracket_re rest 0.
Proof.
  induction x as [|c x IH]; intros Hl Hb.
  - cbn [append findall_from]. reflexivity.
  - cbn [append findall_from].
    change (String c (x ++ String LF rest)) with (String c x ++ String LF rest).
    rewrite (match_here_up_to_bracket _ _ Hl).
    apply str_rpartition_None in Hb. rewrite Hb.
    apply str_rpartition_None in Hb.
    unfold is_line in Hl. cbn [str_contains] in Hl, Hb.
    destruct (Ascii.eqb c LF); [discriminate|].
    destruct (Ascii.eqb c "["); [discriminate|].
    apply IH; assumption.
Qed.

Lemma substring_0_app (a b : string) :
  substring 0 (String.length a) (a ++ b) = a.
Proof. induction a as [|c a IH]; [destruct b; reflexivity|]. simpl. rewrite IH. reflexivity. Qed.

(** One line of the text and what the scan finds in it. *)
Lemma findall_from_line (x rest : string) :
  is_line x ->
  findall_from up_to_bracket_re (x ++ String LF rest) 0 =
    (match str_rpartition "[" x with
     | Some (before, _) => [(before ++ "[")%string]
     | None => []
     end ++ findall_from up_to_bracket_re rest 0)%list.
Proof.
  intros Hl.
  destruct (str_rpartition "[" x) as [[before after]|] eqn:Hr.
  - pose proof (match_here_up_to_bracket x rest Hl) as Hm. rewrite Hr in Hm.
    apply str_rpartition_Some in Hr. destruct Hr as [Hx Hafter].
    assert (Hline : is_line after).
    { rewrite Hx in Hl. apply is_line_app in Hl. destruct Hl as [_ Hl].
      unfold is_line in *. cbn [str_contains] in Hl.
      destruct (Ascii.eqb "[" LF); [discriminate | exact Hl]. }
    assert (Hs : x ++ String LF rest =
                 (before ++ "[") ++ after ++ String LF rest).
    { rewrite Hx, !append_assoc. reflexivity. }
    assert (Hn : S (String.length before) = String.length (before ++ "["))
      by (rewrite length_append; simpl; lia).
    rewrite Hn in Hm. rewrite Hs in *. clear Hs Hn Hx.
    destruct (before ++ "[") as [|c w] eqn:Hw; [destruct before; discriminate|].
    cbn [append findall_from String.length] in *. rewrite Hm. cbn [app].
    f_equal.
    + f_equal. exact (substring_0_app (String c w) _).
    + rewrite findall_from_skip.
      apply findall_from_no_bracket; assumption.
  - cbn [app]. apply findall_from_no_bracket; [exact Hl|].
    apply str_rpartition_None. exact Hr.
Qed.

Lemma findall_list_file (ids : list string) :
  Forall is_line ids ->
  findall up_to_bracket_re (list_file_content ids) =
    flat_map (fun id => match str_rpartition "[" id with
                        | Some (before, _) => [(before ++ "[")%string]
                        | None => []
                        end) ids.
Proof.
  unfold findall. induction 1 as [|x l Hx Hl IH]; [reflexivity|].
  rewrite list_file_content_cons, (findall_from_line _ _ Hx), IH. reflexivity.
Qed.

Lemma sub_open_bracket (s : string) :
  Re.sub open_bracket_re "\[" s = escape_brackets s.
Proof.
  unfold Re.sub, open_bracket_re.
  induction s as [|c s IH]; [reflexivity|].
  cbn [Re.sub_from Re.match_here Re.atom_matches escape_brackets].
  destruct (Ascii.eqb_spec c "[") as [->|Hne]; cbn [option_map].
  - rewrite IH. reflexivity.
  - rewrite IH. reflexivity.
Qed.

(** ** Plain text through the parser *)

Lemma utf8_scan_split (text : string) :
  forall pending,
    high pending ->
    utf8_scan text pending = true ->
    exists h t,
      str_split LF text = h :: t /\
      utf8_scan h pending = true /\
      Forall (fun l => utf8_valid l = true) t.
Proof.
  induction text as [|a text IH]; intros pending Hp H.
  - exists "", []. auto.
  - cbn [str_split]. destruct (Ascii.eqb_spec a LF) as [->|Hne].
    + destruct pending as [|[lo hi] rest].
      * cbn in H. destruct (IH [] Hp H) as (h & t & Hs & Hh & Ht).
        exists "", (h :: t). rewrite Hs. split; [reflexivity|].
        split; [reflexivity|]. constructor; assumption.
      * exfalso. inversion Hp as [|? ? Hlo _]; subst. cbn [fst] in Hlo.
        cbn [utf8_scan] in H. apply andb_true_iff in H. destruct H as [H _].
        apply andb_true_iff in H. destruct H as [H _].
        apply N.leb_le in H. change (N_of_ascii LF) with 10%N in H. lia.
    + assert (Hstep : exists pending',
                high pending' /\ utf8_scan text pending' = true /\
                forall h, utf8_scan h pending' = true ->
                          utf8_scan (String a h) pending = true).
      { cbn [utf8_scan] in H |- *. destruct pending as [|[lo hi] rest].
        - repeat match type of H with
                 | (if ?c then _ else _) = true => destruct c eqn:?
                 end; try discriminate;
            (eexists; split; [|split; [exact H | intros h Hh; exact Hh]]; high).
        - apply andb_true_iff in H. destruct H as [H1 H2].
          exists rest. inversion Hp; subst. split; [assumption|].
          split; [exact H2|]. intros h Hh. rewrite H1. exact Hh. }
      destruct Hstep as (pending' & Hp' & H' & Hcons).
      destruct (IH pending' Hp' H') as (h & t & Hs & Hh & Ht).
      rewrite Hs. exists (String a h), t. auto.
Qed.

Lemma str_split_plain (text : string) :
  plain_text text -> Forall plain_text (str_split LF text).
Proof.
  intros [Hv Hc].
  assert (Hcr : Forall (fun l => str_contains CR l = false) (str_split LF text)).
  { clear Hv. induction text as [|a text IH]; [repeat constructor|].
    cbn [str_split str_contains] in *.
    destruct (Ascii.eqb a CR) eqn:Ha; [discriminate|].
    specialize (IH Hc). destruct (Ascii.eqb a LF).
    - constructor; [reflexivity | exact IH].
    - destruct (str_split LF text) as [|h t]; [repeat constructor; simpl; rewrite Ha; reflexivity|].
      inversion IH; subst. constructor; [|assumption].
      simpl. rewrite Ha. assumption. }
  destruct (utf8_scan_split text [] (Forall_nil _) Hv) as (h & t & Hs & Hh & Ht).
  rewrite Hs in *.
  apply Forall_and; [constructor; assumption | exact Hcr].
Qed.

Lemma plain_text_ascii (a b : string) (c : ascii) :
  (N_of_ascii c <= 127)%N -> Ascii.eqb c CR = false ->
  plain_text (a ++ String c b) <-> plain_text a /\ plain_text b.
Proof.
  intros Hc Hcr. unfold plain_text.
  rewrite (utf8_valid_ascii _ _ _ Hc), str_contains_app. cbn [str_contains].
  rewrite Hcr, andb_true_iff, orb_false_iff. tauto.
Qed.

Ltac ascii_char := first [ vm_compute; discriminate | reflexivity ].

Lemma full_id_plain (k v : string) :
  plain_text k -> plain_text v -> plain_text (full_id k v).
Proof.
  intros Hk Hv. unfold full_id. destruct v as [|c v]; [exact Hk|].
  destruct (str_partition "(" k) as [[prefix rest]|] eqn:Hp.
  - apply str_partition_Some in Hp. destruct Hp as [-> _].
    apply plain_text_ascii in Hk; [|ascii_char|ascii_char].
    destruct Hk as [H1 H2].
    apply plain_text_app; [exact H1|]. apply plain_text_app; [exact Hv|].
    change ("(" ++ rest) with ("" ++ String "(" rest).
    apply plain_text_ascii; [ascii_char|ascii_char|].
    split; [split; reflexivity | exact H2].
  - apply plain_text_app; assumption.
Qed.

Lemma base_and_tag_plain (line : string) :
  is_line line -> plain_text line ->
  (is_line (fst (base_and_tag line)) /\ plain_text (fst (base_and_tag line))) /\
  (is_line (snd (base_and_tag line)) /\ plain_text (snd (base_and_tag line))).
Proof.
  intros Hl Hp. split; [split; [apply key_is_line; exact Hl|]|];
    rewrite base_and_tag_split_span;
    destruct (split_span line) as [[[pre mid] post]|] eqn:Hs; cbn [fst snd];
    try exact Hp; try (split; [reflexivity | split; reflexivity]);
    apply split_span_Some in Hs; destruct Hs as (-> & _ & _);
    apply plain_text_ascii in Hp; try ascii_char; destruct Hp as [Hpre Hp];
    apply plain_text_ascii in Hp; try ascii_char; destruct Hp as [Hmid Hpost].
  - apply plain_text_app; assumption.
  - apply is_line_app in Hl. destruct Hl as [_ Hl].
    apply is_line_app in Hl. destruct Hl as [_ Hl].
    apply is_line_app in Hl. destruct Hl as [Hm _].
    split.
    + unfold is_line in *. simpl. rewrite str_contains_app, Hm. reflexivity.
    + change ("[" ++ mid ++ "]") with ("" ++ String "[" (mid ++ String "]" "")).
      apply plain_text_ascii; [ascii_char|ascii_char|].
      split; [split; reflexivity|].
      apply plain_text_ascii; [ascii_char|ascii_char|].
      split; [exact Hmid | split; reflexivity].
Qed.

(** The full identifiers drawn from a listing of plain text are lines of
    plain text. *)
Lemma normalized_ids_plain (r : completed) (base : list string) :
  plain_text (stdout r) ->
  Forall is_line (normalized_ids r base) /\
  Forall plain_text (normalized_ids r base).
Proof.
  intros Hp. unfold normalized_ids.
  assert (H : forall id, In id (flat_map (emitted (listed_ids r)) base) ->
                         is_line id /\ plain_text id).
  { intros id Hin. apply in_flat_map in Hin. destruct Hin as (b & _ & Hin).
    unfold emitted in Hin.
    destruct (dict_get (listed_ids r) b) as [attr|] eqn:Hd; [|contradiction].
    destruct Hin as [<-|[]].
    apply (form_test_id_mappings_get _ (str_split_lines _)) in Hd.
    apply decides_line in Hd. destruct Hd as (line & Hin & _ & Hbt).
    pose proof (str_split_lines (stdout r)) as Hlines.
    pose proof (str_split_plain _ Hp) as Hplain.
    rewrite Forall_forall in Hlines, Hplain.
    destruct (base_and_tag_plain line (Hlines _ Hin) (Hplain _ Hin))
      as [[Hk1 Hk2] [Hv1 Hv2]].
    rewrite Hbt in *. cbn [fst snd] in *.
    split; [apply full_id_is_line | apply full_id_plain]; assumption. }
  split; apply Forall_forall; intros id Hin; apply H; exact Hin.
Qed.

Lemma include_patterns_list_file (test_ids : list string) :
  Forall is_line test_ids ->
  map (fun test => Re.sub open_bracket_re "\[" test)
      (findall up_to_bracket_re (list_file_content test_ids)) =
    flat_map include_pattern test_ids.
Proof.
  intros Hl. rewrite (findall_list_file _ Hl).
  induction test_ids as [|x l IH]; [reflexivity|].
  inversion Hl; subst. cbn [flat_map]. rewrite map_app, IH by assumption.
  f_equal. unfold include_pattern.
  destruct (str_rpartition "[" x) as [[before after]|]; [|reflexivity].
  cbn [map]. rewrite sub_open_bracket. reflexivity.
Qed.

Lemma create_include_list_run (sys : Sys) (dir : string) (insecure : bool)
    (loc : string) (p : proc) (r : completed) (base : list string) (w1 : world) :
  listing sys dir p = Ok r ->
  returncode r = 0%Z ->
  plain_text (stdout r) ->
  listed_ids r <> [] ->
  _get_base_test_ids_from_list_file (env_of sys (p_files p)) insecure loc
    (p_world p) = (Ok base, w1) ->
  let p1 :=
    with_list_file
      (set_world (listed dir p []) (add_log w1 (normalizing_log r base)))
      (sys_mktemp sys (p_files p))
      (list_file_content (normalized_ids r base)) in
  create_include_list sys dir insecure loc p =
    (Val (sys_mktemp sys (p_files p1)),
     with_list_file p1 (sys_mktemp sys (p_files p1))
       (list_file_content (flat_map include_pattern (normalized_ids r base)))).
Proof.
  intros Hr Hrc Hp Hne Hbase p1.
  unfold create_include_list, pbind.
  rewrite (get_normalized_test_list_run _ _ _ _ _ _ _ _ Hr Hrc (proj1 Hp) Hne Hbase).
  fold p1. unfold read_path, run_env, run_m, open_, lift, bind.
  cbn [env_of env_open]. unfold open_file.
  assert (Hfile : dict_get (p_files p1) (sys_mktemp sys (p_files p)) =
                  Some (list_file_content (normalized_ids r base)))
    by apply dict_get_set_same.
  rewrite Hfile. cbn [f_read].
  destruct (normalized_ids_plain r base Hp) as [Hl Hpl].
  rewrite (read_text_plain _ (list_file_content_plain _ Hpl)).
  rewrite write_normalized_test_list_run.
  rewrite (include_patterns_list_file _ Hl).
  destruct p1; reflexivity.
Qed.

(** X9.  The include patterns of a list file.  For identifiers that are
    lines, the patterns [create_include_list] computes from the text of
    their list file ([re.findall] of [.*\[], then [re.sub] of [\[] by
    [\[] with a backslash) are, in order, one pattern for each identifier
    that has a "[": the identifier up to and including its last "[", each
    "[" of it with a backslash before it.  An identifier without "[" gives
    no pattern. *)
Theorem include_patterns_spec :
  forall test_ids : list string,
    Forall is_line test_ids ->
    map (fun test => Re.sub open_bracket_re "\[" test)
        (findall up_to_bracket_re (list_file_content test_ids)) =
      flat_map include_pattern test_ids.
Proof. exact include_patterns_list_file. Qed.

Lemma include_patterns_spec_witness :
  map (fun test => Re.sub open_bracket_re "\[" test)
      (findall up_to_bracket_re
         (list_file_content
            ["tempest.test1[id-2,gate]"; "tempest.plain";
             "tempest.test2[id-3,smoke](scenario)"; "t[a][b]c"])) =
    ["tempest.test1\["; "tempest.test2\["; "t\[a]\["].
Proof.
  rewrite include_patterns_spec; [reflexivity|]. repeat constructor.
Defined.

(** X10.  The include list file.  When the listing command succeeds with
    plain text (valid UTF-8, no carriage return) that lists at least one
    test and the list location gives [base_ids], [create_include_list]
    returns the path of a second temporary file, which holds the include
    patterns of the normalized identifiers, one to a line; the normalized
    list is in the first temporary file, every other file is as it was,
    and the removal of both files is registered. *)
Theorem create_include_list_spec :
  forall (sys : Sys) (tempest_dir : string) (insecure : bool)
         (list_location : string) (p : proc) (r : completed)
         (base_ids : list string) (w1 : world),
    listing sys tempest_dir p = Ok r ->
    returncode r = 0%Z ->
    plain_text (stdout r) ->
    listed_ids r <> [] ->
    _get_base_test_ids_from_list_file (env_of sys (p_files p)) insecure
      list_location (p_world p) = (Ok base_ids, w1) ->
    exists normalized include_list p',
      create_include_list sys tempest_dir insecure list_location p =
        (Val include_list, p') /\
      dict_get (p_files p') include_list =
        Some (list_file_content
                (flat_map include_pattern (normalized_ids r base_ids))) /\
      (normalized <> include_list ->
       dict_get (p_files p') normalized =
         Some (list_file_content (normalized_ids r base_ids))) /\
      (forall path, path <> normalized -> path <> include_list ->
         dict_get (p_files p') path = dict_get (p_files p) path) /\
      p_atexit p' = (p_atexit p ++ [normalized; include_list])%list /\
      p_world p' = add_log w1 (normalizing_log r base_ids).
Proof.
  intros sys dir insecure loc p r base w1 Hr Hrc Hp Hne Hbase.
  eexists (sys_mktemp sys (p_files p)). eexists. eexists.
  split; [exact (create_include_list_run _ _ _ _ _ _ _ _ Hr Hrc Hp Hne Hbase)|].
  cbn [with_list_file p_files set_world listed p_atexit p_world].
  split; [apply dict_get_set_same|].
  split; [intros Hd; rewrite !dict_get_set_other by exact Hd;
          apply dict_get_set_same|].
  split; [intros path H1 H2; rewrite !dict_get_set_other by assumption;
          reflexivity|].
  split; [rewrite <- app_assoc; reflexivity | reflexivity].
Qed.

Lemma create_include_list_spec_witness :
  exists normalized include_list p',
    create_include_list sample_sys "/opt/tempest" false "list.txt" sample_proc =
      (Val include_list, p') /\
    dict_get (p_files p') include_list =
      Some ("t.b\[" ++ String LF ("t.a\[" ++ String LF "")) /\
    p_atexit p' = [normalized; include_list].
Proof.
  destruct (create_include_list_spec sample_sys "/opt/tempest" false
              "list.txt" sample_proc (mk_completed 0 sample_listing)
              ["t.b(scenario)"; "t.x"; "t.a"]
              (sent empty_world (mk_request "GET" "list.txt" [] [] None true))
              eq_refl eq_refl)
    as (normalized & include_list & p' & Hrun & Hfile & _ & _ & Hexit & _).
  - split; reflexivity.
  - discriminate.
  - exact sample_base_ids.
  - exists normalized, include_list, p'. split; [exact Hrun|].
    split; [|exact Hexit]. rewrite Hfile. reflexivity.
Defined.

Lemma dict_set_del_fresh {V} (d : dict V) (k : string) (v0 v : V) :
  dict_get d k = None -> dict_del (dict_set (dict_set d k v0) k v) k = d.
Proof.
  intros H. unfold dict_del.
  induction d as [|[k0 w0] d IH]; simpl in *.
  - rewrite String.eqb_refl. simpl. rewrite String.eqb_refl. reflexivity.
  - destruct (String.eqb k0 k) eqn:E; [discriminate|]. simpl. rewrite E. simpl.
    rewrite E. simpl. rewrite (IH H). reflexivity.
Qed.

(** X11.  The list files leave no trace.  With a system that picks unused
    paths for temporary files and no exit handler registered before, the
    file [create_include_list] returns exists when the call returns, and
    once the exit handlers have run the files of the process are exactly
    the files from before the call. *)
Theorem create_include_list_leaves_no_file :
  forall (sys : Sys) (tempest_dir : string) (insecure : bool)
         (list_location : string) (p : proc) (r : completed)
         (base_ids : list string) (w1 : world),
    fresh_names sys ->
    p_atexit p = [] ->
    listing sys tempest_dir p = Ok r ->
    returncode r = 0%Z ->
    plain_text (stdout r) ->
    listed_ids r <> [] ->
    _get_base_test_ids_from_list_file (env_of sys (p_files p)) insecure
      list_location (p_world p) = (Ok base_ids, w1) ->
    exists include_list p1 p2,
      create_include_list sys tempest_dir insecure list_location p =
        (Val include_list, p1) /\
      has_file (p_files p1) include_list = true /\
      at_exit p1 = (Val tt, p2) /\
      p_files p2 = p_files p /\
      p_atexit p2 = [].
Proof.
  intros sys dir insecure loc p r base w1 Hfresh Hat Hr Hrc Hp Hne Hbase.
  eexists. eexists. eexists.
  split; [exact (create_include_list_run _ _ _ _ _ _ _ _ Hr Hrc Hp Hne Hbase)|].
  split.
  { unfold has_file. cbn [with_list_file p_files].
    rewrite dict_get_set_same. reflexivity. }
  unfold at_exit. rewrite run_handlers_run.
  split; [reflexivity|].
  cbn [with_list_file p_files set_world listed p_atexit p_world set_files].
  split; [|reflexivity].
  rewrite Hat. cbn [app rev fold_left].
  rewrite dict_set_del_fresh.
  - apply dict_set_del_fresh. pose proof (Hfresh (p_files p)) as H.
    unfold has_file in H. destruct (dict_get _ _); [discriminate | reflexivity].
  - match goal with |- dict_get ?d (sys_mktemp sys ?d') = None =>
      pose proof (Hfresh d') as H end.
    unfold has_file in H. cbn [with_list_file p_files set_world listed] in H.
    destruct (dict_get _ _); [discriminate | reflexivity].
Qed.

Lemma pad_length (n : nat) : String.length (pad n) = n.
Proof. induction n; simpl; congruence. Qed.

Lemma sample_sys_fresh : fresh_names sample_sys.
Proof.
  intros files. cbn [sample_sys sys_mktemp]. unfold has_file.
  destruct (dict_get files (longer_name files)) eqn:H; [|reflexivity].
  exfalso.
  assert (Hin : In (longer_name files) (dict_keys files))
    by (apply dict_get_In_keys; congruence).
  assert (Hle : Forall (fun k => k <= list_max (map (fun kv => String.length (fst kv)) files))
                  (map (fun kv => String.length (fst kv)) files))
    by (apply list_max_le; lia).
  rewrite Forall_forall in Hle.
  unfold dict_keys in Hin. apply in_map_iff in Hin.
  destruct Hin as (kv & Hk & Hin).
  specialize (Hle (String.length (fst kv))
                  (in_map (fun kv => String.length (fst kv)) _ _ Hin)).
  rewrite Hk in Hle. unfold longer_name in Hle at 1.
  rewrite length_append, pad_length in Hle. simpl in Hle. lia.
Qed.

Lemma create_include_list_leaves_no_file_witness :
  exists include_list p1 p2,
    create_include_list sample_sys "/opt/tempest" false "list.txt" sample_proc =
      (Val include_list, p1) /\
    has_file (p_files p1) include_list = true /\
    at_exit p1 = (Val tt, p2) /\
    p_files p2 = p_files sample_proc /\
    p_atexit p2 = [].
Proof.
  apply (create_include_list_leaves_no_file sample_sys "/opt/tempest" false
           "list.txt" sample_proc (mk_completed 0 sample_listing)
           ["t.b(scenario)"; "t.x"; "t.a"]
           (sent empty_world (mk_request "GET" "list.txt" [] [] None true))).
  - exact sample_sys_fresh.
  - reflexivity.
  - reflexivity.
  - reflexivity.
  - split; reflexivity.
  - discriminate.
  - exact sample_base_ids.
Defined.
(* ================================================================= *)
(** ** [_get_cpid_from_keystone] *)

(** *** Computations that leave the world alone *)

Lemma pure_ret {A} (a : A) : pure_as (ret a) (Ok a).
Proof. intros w. reflexivity. Qed.

Lemma pure_raise {A} (e : exn) : pure_as (@raise A e) (Raise e).
Proof. intros w. reflexivity. Qed.

Lemma pure_bind_ok {A B} (c : M A) (k : A -> M B) (a : A) (r : result B) :
  pure_as c (Ok a) -> pure_as (k a) r -> pure_as (bind c k) r.
Proof. intros Hc Hk w. unfold bind. rewrite Hc. apply Hk. Qed.

Lemma pure_bind_raise {A B} (c : M A) (k : A -> M B) (e : exn) :
  pure_as c (Raise e) -> pure_as (bind c k) (Raise e).
Proof. intros Hc w. unfold bind. rewrite Hc. reflexivity. Qed.

Lemma pure_getitem (v : Json.value) (key : string) :
  exists r, pure_as (Json.getitem v key) r.
Proof.
  destruct v; try (eexists; apply pure_raise).
  cbn [Json.getitem]. unfold dict_getitem.
  destruct (dict_get fields key); eexists; [apply pure_ret | apply pure_raise].
Qed.

Lemma pure_iter (v : Json.value) : exists r, pure_as (json_iter v) r.
Proof. destruct v; eexists; first [apply pure_ret | apply pure_raise]. Qed.

Lemma pure_first (v : Json.value) : exists r, pure_as (json_first v) r.
Proof.
  destruct v; try (eexists; apply pure_raise); cbn [json_first].
  - unfold list_getitem. destruct (nth_error (str_chars s) 0).
    + eexists. eapply pure_bind_ok; [apply pure_ret|apply pure_ret].
    + eexists. apply pure_bind_raise. apply pure_raise.
  - unfold list_getitem. destruct (nth_error l 0);
      eexists; [apply pure_ret | apply pure_raise].
Qed.

Ltac pure_ok H := eapply pure_bind_ok; [exact H|]; cbv beta.
Ltac pure_stop H := eexists; split; [try apply pure_bind_raise; exact H | discriminate].

Lemma identity_service_id_pure (services : list Json.value) :
  exists r,
    pure_as (identity_service_id services) r /\
    forall id, r = Ok (Some id) -> json_truthy id = true.
Proof.
  induction services as [|s rest IH].
  - exists (Ok None). split; [apply pure_ret | discriminate].
  - cbn [identity_service_id].
    destruct (pure_getitem s "type") as [[t|e] Ht]; [|pure_stop Ht].
    destruct (json_eq_str t "identity") eqn:E.
    + destruct (pure_getitem s "id") as [[id|e] Hid].
      * destruct (json_truthy id) eqn:T.
        -- exists (Ok (Some id)). split.
           ++ pure_ok Ht. rewrite E. pure_ok Hid. rewrite T. apply pure_ret.
           ++ intros ? [= <-]. exact T.
        -- destruct IH as (r & Hr & Hid'). exists r. split; [|exact Hid'].
           pure_ok Ht. rewrite E. pure_ok Hid. rewrite T. exact Hr.
      * exists (Raise e). split; [|discriminate].
        pure_ok Ht. rewrite E. apply pure_bind_raise. exact Hid.
    + destruct IH as (r & Hr & Hid'). exists r. split; [|exact Hid'].
      pure_ok Ht. rewrite E. exact Hr.
Qed.

Lemma identity_endpoint_id_pure (services : list Json.value) :
  exists r,
    pure_as (identity_endpoint_id services) r /\
    forall id, r = Ok (Some id) -> json_truthy id = true.
Proof.
  induction services as [|s rest IH].
  - exists (Ok None). split; [apply pure_ret | discriminate].
  - cbn [identity_endpoint_id].
    destruct (pure_getitem s "type") as [[t|e] Ht]; [|pure_stop Ht].
    destruct (json_eq_str t "identity") eqn:E.
    + destruct (pure_getitem s "endpoints") as [[eps|e] Heps].
      2:{ exists (Raise e). split; [|discriminate].
          pure_ok Ht. rewrite E. apply pure_bind_raise. exact Heps. }
      destruct (pure_first eps) as [[ep|e] Hep].
      2:{ exists (Raise e). split; [|discriminate].
          pure_ok Ht. rewrite E. pure_ok Heps. apply pure_bind_raise. exact Hep. }
      destruct (pure_getitem ep "id") as [[id|e] Hid].
      2:{ exists (Raise e). split; [|discriminate].
          pure_ok Ht. rewrite E. pure_ok Heps. pure_ok Hep.
          apply pure_bind_raise. exact Hid. }
      destruct (json_truthy id) eqn:T.
      * exists (Ok (Some id)). split.
        -- pure_ok Ht. rewrite E. pure_ok Heps. pure_ok Hep. pure_ok Hid.
           rewrite T. apply pure_ret.
        -- intros ? [= <-]. exact T.
      * destruct IH as (r & Hr & Hid'). exists r. split; [|exact Hid'].
        pure_ok Ht. rewrite E. pure_ok Heps. pure_ok Hep. pure_ok Hid.
        rewrite T. exact Hr.
    + destruct IH as (r & Hr & Hid'). exists r. split; [|exact Hid'].
      pure_ok Ht. rewrite E. exact Hr.
Qed.

(** What follows the request in the [try] block is pure, and an
    identifier it returns is true. *)
Lemma catalog_id_pure (lib : Lib) (response : http_response) :
  exists r,
    pure_as (catalog_id lib response) r /\
    forall id, r = Ok id -> json_truthy id = true.
Proof.
  unfold catalog_id.
  destruct (r_json response) as [rsp|e].
  2:{ exists (Raise e). split; [|discriminate]. apply pure_bind_raise.
      intros w. reflexivity. }
  assert (Hrsp : pure_as (lift (Ok rsp)) (Ok rsp)) by (intros w; reflexivity).
  destruct ((r_status_code response =? 200) || (r_status_code response =? 203))%Z;
    [|destruct (r_status_code response =? 201)%Z].
  - destruct (pure_getitem rsp "access") as [[access|e] Ha].
    2:{ exists (Raise e). split; [|discriminate]. pure_ok Hrsp.
        apply pure_bind_raise. exact Ha. }
    destruct (pure_getitem access "serviceCatalog") as [[catalog|e] Hc].
    2:{ exists (Raise e). split; [|discriminate]. pure_ok Hrsp. pure_ok Ha.
        apply pure_bind_raise. exact Hc. }
    destruct (pure_iter catalog) as [[services|e] Hs].
    2:{ exists (Raise e). split; [|discriminate]. pure_ok Hrsp. pure_ok Ha.
        pure_ok Hc. apply pure_bind_raise. exact Hs. }
    destruct (identity_endpoint_id_pure services) as ([[id|]|e] & Hf & Hid).
    + exists (Ok id). split; [|intros ? [= <-]; apply Hid; reflexivity].
      pure_ok Hrsp. pure_ok Ha. pure_ok Hc. pure_ok Hs. pure_ok Hf.
      apply pure_ret.
    + exists (Raise (KeyError "")). split; [|discriminate].
      pure_ok Hrsp. pure_ok Ha. pure_ok Hc. pure_ok Hs. pure_ok Hf.
      apply pure_raise.
    + exists (Raise e). split; [|discriminate].
      pure_ok Hrsp. pure_ok Ha. pure_ok Hc. pure_ok Hs.
      apply pure_bind_raise. exact Hf.
  - destruct (pure_getitem rsp "token") as [[token|e] Ha].
    2:{ exists (Raise e). split; [|discriminate]. pure_ok Hrsp.
        apply pure_bind_raise. exact Ha. }
    destruct (pure_getitem token "catalog") as [[catalog|e] Hc].
    2:{ exists (Raise e). split; [|discriminate]. pure_ok Hrsp. pure_ok Ha.
        apply pure_bind_raise. exact Hc. }
    destruct (pure_iter catalog) as [[services|e] Hs].
    2:{ exists (Raise e). split; [|discriminate]. pure_ok Hrsp. pure_ok Ha.
        pure_ok Hc. apply pure_bind_raise. exact Hs. }
    destruct (identity_service_id_pure services) as ([[id|]|e] & Hf & Hid).
    + exists (Ok id). split; [|intros ? [= <-]; apply Hid; reflexivity].
      pure_ok Hrsp. pure_ok Ha. pure_ok Hc. pure_ok Hs. pure_ok Hf.
      apply pure_ret.
    + exists (Raise (KeyError "")). split; [|discriminate].
      pure_ok Hrsp. pure_ok Ha. pure_ok Hc. pure_ok Hs. pure_ok Hf.
      apply pure_raise.
    + exists (Raise e). split; [|discriminate].
      pure_ok Hrsp. pure_ok Ha. pure_ok Hc. pure_ok Hs.
      apply pure_bind_raise. exact Hf.
  - destruct (pure_getitem rsp "error") as [[error|e] He].
    2:{ exists (Raise e). split; [|discriminate]. pure_ok Hrsp.
        apply pure_bind_raise. exact He. }
    destruct (pure_getitem error "code") as [[code|e] Hc].
    2:{ exists (Raise e). split; [|discriminate]. pure_ok Hrsp. pure_ok He.
        apply pure_bind_raise. exact Hc. }
    destruct (pure_getitem error "message") as [[message|e] Hm].
    2:{ exists (Raise e). split; [|discriminate]. pure_ok Hrsp. pure_ok He.
        pure_ok Hc. pure_ok He. apply pure_bind_raise. exact Hm. }
    exists (Raise (HTTPError ("Invalid request with error code: "
                              ++ lib_str lib code ++ ". Error message: "
                              ++ lib_str lib message))).
    split; [|discriminate].
    pure_ok Hrsp. pure_ok He. pure_ok Hc. pure_ok He. pure_ok Hm.
    apply pure_raise.
Qed.

Lemma keystone_lookup_run (lib : Lib) (env : Env) (insecure : bool)
    (auth_url : string) (content : Json.value) (w : world) :
  exists r,
    keystone_lookup lib env insecure auth_url content w =
      (r, sent w (keystone_request lib insecure auth_url content)) /\
    forall id, r = Ok id -> json_truthy id = true.
Proof.
  unfold keystone_lookup, bind, requests_post, requests_send.
  fold (keystone_request lib insecure auth_url content).
  fold (sent w (keystone_request lib insecure auth_url content)).
  destruct (env_http env (w_http w) _) as [response|e].
  - destruct (catalog_id_pure lib response) as (r & Hr & Hid).
    exists r. rewrite Hr. auto.
  - exists (Raise e). split; [reflexivity | discriminate].
Qed.

(** X12.  Every failure of the Keystone lookup ends in the fallback.
    Whatever the server answers (any status, any body, or no answer at
    all), [_get_cpid_from_keystone] makes one request, the POST of the
    serialised credentials to [auth_url], and then either returns an
    identifier from the catalog, which is true as a Python value and
    logged by nothing, or logs one WARNING and is from there on
    [_generate_cpid_from_endpoint auth_url]: the result and the further
    effects are those of the fallback.  No exception of the lookup itself
    leaves the method. *)
Theorem get_cpid_from_keystone_falls_back :
  forall (lib : Lib) (env : Env) (insecure : bool)
         (auth_version auth_url : string) (content : Json.value) (w : world),
    let run :=
      _get_cpid_from_keystone lib env insecure auth_version auth_url content w in
    let w1 := sent w (keystone_request lib insecure auth_url content) in
    (exists id, run = (Ok id, w1) /\ json_truthy id = true) \/
    (exists msg,
       run = cpid_fallback lib auth_url (add_log w1 [(WARNING, msg)])).
Proof.
  intros lib env insecure version auth_url content w run w1. subst run.
  unfold _get_cpid_from_keystone, try_except, bind.
  destruct (keystone_lookup_run lib env insecure auth_url content w)
    as (r & Hr & Hid).
  rewrite Hr. fold w1. destruct r as [id|e].
  - left. exists id. split; [reflexivity | apply Hid; reflexivity].
  - right. unfold cpid_fallback.
    destruct e; eexists; reflexivity.
Qed.

(** X13.  A CPID for every well-formed endpoint.  When [auth_url] parses
    to a URL with scheme [http] or [https] and a host, whatever the server
    does [_get_cpid_from_keystone] returns, after its one request, a value
    that is true in Python: an identifier of the catalog or the thirty-two
    digits of the fallback.  It does not raise and the CPID is never
    empty. *)
Theorem get_cpid_from_keystone_returns :
  forall (lib : Lib) (env : Env) (insecure : bool)
         (auth_version auth_url : string) (content : Json.value) (w : world)
         (parts : Urllib.parse_result) (h : string),
    lib_urlparse lib auth_url = Ok parts ->
    str_in (Urllib.scheme parts) ["http"; "https"] = true ->
    Urllib.hostname parts = Some h ->
    let run :=
      _get_cpid_from_keystone lib env insecure auth_version auth_url content w in
    exists id,
      fst run = Ok id /\
      json_truthy id = true /\
      w_http (snd run) =
        (w_http w ++ [keystone_request lib insecure auth_url content])%list.
Proof.
  intros lib env insecure version auth_url content w parts h Hp Hs Hh run.
  subst run. unfold _get_cpid_from_keystone, try_except, bind.
  destruct (keystone_lookup_run lib env insecure auth_url content w)
    as (r & Hr & Hid).
  rewrite Hr.
  assert (Hmd5 : json_truthy (Json.JStr (MD5.hexdigest (encode_utf8 h))) = true).
  { cbn [json_truthy].
    destruct (md5_hexdigest_shape (encode_utf8 h)) as [Hlen _].
    destruct (MD5.hexdigest (encode_utf8 h)); [discriminate | reflexivity]. }
  destruct r as [id|e].
  - exists id. split; [reflexivity|]. split; [apply Hid|]; reflexivity.
  - exists (Json.JStr (MD5.hexdigest (encode_utf8 h))).
    destruct e; unfold logger_log, ret; rewrite generate_cpid_run, Hp, Hs, Hh;
      (split; [reflexivity|]; split; [exact Hmd5 | reflexivity]).
Qed.

Lemma get_cpid_from_keystone_returns_witness :
  let url := "https://Keystone.Example.org:5000/v3/auth/tokens" in
  exists id,
    fst (_get_cpid_from_keystone sample_lib unreachable_env false "v3" url
           (Json.JObj []) empty_world) = Ok id /\
    json_truthy id = true /\
    w_http (snd (_get_cpid_from_keystone sample_lib unreachable_env false "v3"
                   url (Json.JObj []) empty_world)) =
      (w_http empty_world ++
       [keystone_request sample_lib false url (Json.JObj [])])%list.
Proof.
  intros url.
  apply (get_cpid_from_keystone_returns sample_lib unreachable_env false "v3"
           url (Json.JObj []) empty_world
           (Urllib.mk_parse_result "https" "Keystone.Example.org:5000"
              (Some "keystone.example.org"))
           "keystone.example.org"); reflexivity.
Defined.

Lemma pure_getitem_field (fields : list (string * Json.value)) (key : string)
    (v : Json.value) :
  dict_get fields key = Some v ->
  pure_as (Json.getitem (Json.JObj fields) key) (Ok v).
Proof.
  intros H w. cbn [Json.getitem]. unfold dict_getitem. rewrite H. reflexivity.
Qed.

Lemma identity_service_id_chosen (before after : list Json.value)
    (s id : Json.value) :
  Forall passed_over_v3 before -> chosen_v3 s id ->
  pure_as (identity_service_id (before ++ s :: after)) (Ok (Some id)).
Proof.
  intros Hb (fields & -> & Ht & Hi & Htrue).
  induction Hb as [|x l (xf & t & -> & Hxt & Hx) _ IH]; cbn [app identity_service_id].
  - pure_ok (pure_getitem_field _ _ _ Ht). cbn [json_eq_str String.eqb].
    change (String.eqb "identity" "identity") with true. cbv iota.
    pure_ok (pure_getitem_field _ _ _ Hi). rewrite Htrue. apply pure_ret.
  - pure_ok (pure_getitem_field _ _ _ Hxt).
    destruct Hx as [Hx|(xid & Hxid & Hfalse)].
    + rewrite Hx. exact IH.
    + destruct (json_eq_str t "identity"); [|exact IH].
      pure_ok (pure_getitem_field _ _ _ Hxid). rewrite Hfalse. exact IH.
Qed.

Lemma pure_first_endpoint (fields : list (string * Json.value)) (id : Json.value)
    (k : Json.value -> M (option Json.value)) (r : result (option Json.value)) :
  first_endpoint_id fields id ->
  pure_as (k id) r ->
  pure_as (endpoints <- Json.getitem (Json.JObj fields) "endpoints" ;;
           endpoint <- json_first endpoints ;;
           id <- Json.getitem endpoint "id" ;;
           k id) r.
Proof.
  intros (endpoint & others & He & Hi) Hk.
  pure_ok (pure_getitem_field _ _ _ He).
  eapply pure_bind_ok; [intros w; reflexivity|]. cbv beta.
  pure_ok (pure_getitem_field _ _ _ Hi). exact Hk.
Qed.

Lemma identity_endpoint_id_chosen (before after : list Json.value)
    (s id : Json.value) :
  Forall passed_over_v2 before -> chosen_v2 s id ->
  pure_as (identity_endpoint_id (before ++ s :: after)) (Ok (Some id)).
Proof.
  intros Hb (fields & -> & Ht & Hi & Htrue).
  induction Hb as [|x l (xf & t & -> & Hxt & Hx) _ IH]; cbn [app identity_endpoint_id].
  - pure_ok (pure_getitem_field _ _ _ Ht).
    change (json_eq_str (Json.JStr "identity") "identity") with true. cbv iota.
    apply (pure_first_endpoint _ _ _ _ Hi). rewrite Htrue. apply pure_ret.
  - pure_ok (pure_getitem_field _ _ _ Hxt).
    destruct Hx as [Hx|(xid & Hxid & Hfalse)].
    + rewrite Hx. exact IH.
    + destruct (json_eq_str t "identity"); [|exact IH].
      apply (pure_first_endpoint _ _ _ _ Hxid). rewrite Hfalse. exact IH.
Qed.

(** X14.  The first identity service with an identifier.  When the
    answer is a v3 token (status 201) whose catalog starts with entries
    that the loop passes over (objects whose [type] is not "identity", or
    identity entries whose [id] is false) followed by an identity entry
    with a true [id], the method returns that [id]; the same for a v2
    access (status 200 or 203) with the [id] of the first endpoint of each
    service.  Nothing is logged and the fallback is not run. *)
Theorem get_cpid_from_keystone_first_identity :
  forall (lib : Lib) (env : Env) (insecure : bool)
         (auth_version auth_url : string) (content : Json.value) (w : world)
         (r : http_response) (before after : list Json.value)
         (service id : Json.value),
    env_http env (w_http w) (keystone_request lib insecure auth_url content) =
      Ok r ->
    (v3_catalog r (before ++ service :: after) /\
     Forall passed_over_v3 before /\ chosen_v3 service id) \/
    (v2_catalog r (before ++ service :: after) /\
     Forall passed_over_v2 before /\ chosen_v2 service id) ->
    _get_cpid_from_keystone lib env insecure auth_version auth_url content w =
      (Ok id, sent w (keystone_request lib insecure auth_url content)).
Proof.
  intros lib env insecure version auth_url content w r before after s id Hr H.
  assert (Hc : pure_as (catalog_id lib r) (Ok id)).
  { unfold catalog_id.
    destruct H as [((Hst & top & token & Hj & Ht & Hc) & Hb & Hs)
                  |((Hst & top & access & Hj & Ha & Hc) & Hb & Hs)];
      rewrite Hj.
    - rewrite Hst. cbn [Z.eqb Pos.eqb orb].
      eapply pure_bind_ok; [intros ?; reflexivity|]. cbv beta.
      pure_ok (pure_getitem_field _ _ _ Ht).
      pure_ok (pure_getitem_field _ _ _ Hc).
      eapply pure_bind_ok; [intros ?; reflexivity|]. cbv beta.
      pure_ok (identity_service_id_chosen before after s id Hb Hs).
      apply pure_ret.
    - assert (Hcode : ((r_status_code r =? 200) || (r_status_code r =? 203))%Z
                      = true)
        by (destruct Hst as [-> | ->]; reflexivity).
      rewrite Hcode.
      eapply pure_bind_ok; [intros ?; reflexivity|]. cbv beta.
      pure_ok (pure_getitem_field _ _ _ Ha).
      pure_ok (pure_getitem_field _ _ _ Hc).
      eapply pure_bind_ok; [intros ?; reflexivity|]. cbv beta.
      pure_ok (identity_endpoint_id_chosen before after s id Hb Hs).
      apply pure_ret. }
  unfold _get_cpid_from_keystone, keystone_lookup, try_except,
    requests_post, requests_send, bind.
  unfold keystone_request in Hr. rewrite Hr, Hc. reflexivity.
Qed.

Lemma get_cpid_from_keystone_first_identity_witness :
  _get_cpid_from_keystone sample_lib (keystone_env 201 (Ok sample_token)) false
    "v3" "https://keystone.example.org:5000/v3/auth/tokens" (Json.JObj [])
    empty_world =
  (Ok (Json.JStr "4a5b6c7d8e9f"),
   sent empty_world
     (keystone_request sample_lib false
        "https://keystone.example.org:5000/v3/auth/tokens" (Json.JObj []))) /\
  _get_cpid_from_keystone sample_lib (keystone_env 200 (Ok sample_access)) false
    "v2" "https://keystone.example.org:5000/v2.0/tokens" (Json.JObj [])
    empty_world =
  (Ok (Json.JStr "0a1b2c"),
   sent empty_world
     (keystone_request sample_lib false
        "https://keystone.example.org:5000/v2.0/tokens" (Json.JObj []))).
Proof.
  split.
  - eapply (get_cpid_from_keystone_first_identity sample_lib
              (keystone_env 201 (Ok sample_token)) false "v3" _ _ empty_world _
              [Json.JObj [("type", Json.JStr "compute"); ("id", Json.JStr "c1")];
               Json.JObj [("type", Json.JStr "identity"); ("id", Json.JStr "")]]
              []); [reflexivity|].
    left. split; [|split].
    + split; [reflexivity|]. eexists. eexists. repeat split; reflexivity.
    + repeat constructor.
      * eexists. eexists. split; [reflexivity|]. split; [reflexivity|].
        left. reflexivity.
      * eexists. eexists. split; [reflexivity|]. split; [reflexivity|].
        right. eexists. split; reflexivity.
    + eexists. repeat split; reflexivity.
  - eapply (get_cpid_from_keystone_first_identity sample_lib
              (keystone_env 200 (Ok sample_access)) false "v2" _ _ empty_world _
              [Json.JObj [("type", Json.JStr "compute");
                          ("endpoints", Json.JArr [])]]
              []); [reflexivity|].
    right. split; [|split].
    + split; [left; reflexivity|]. eexists. eexists. repeat split; reflexivity.
    + repeat constructor.
      eexists. eexists. split; [reflexivity|]. split; [reflexivity|].
      left. reflexivity.
    + eexists. split; [reflexivity|]. split; [reflexivity|].
      split; [|reflexivity]. eexists. eexists. split; reflexivity.
Defined.
(* ================================================================= *)
(** ** Submission: [post_results], [_upload_prompt], [upload_subunit] *)

Lemma sign_headers_no_key (lib : Lib) (env : Env) (headers : dict string)
    (data : string) (sign_with : option string) :
  no_key sign_with ->
  sign_headers lib env headers data sign_with = ret (Some headers).
Proof. intros [-> | ->]; reflexivity. Qed.

(** X15.  A submission without a key, outcome by outcome.  With
    [sign_with] absent or empty, [post_results] makes one request, the
    POST of the serialised content to [url/v1/results/] with the
    [Content-type] header alone.  A request that raises (any exception) and
    an answer with a status other than 201 make the call return without
    printing.  On status 201 with a JSON object for body it prints the
    upload message with the object's [url] (the empty text when there is
    none) and returns; on status 201 with a body that is not JSON, or JSON
    that is no object, the exception of [json()] or of [get] leaves the
    call, nothing being printed. *)
Theorem post_results_unsigned_outcome :
  forall (lib : Lib) (env : Env) (insecure : bool) (url : string)
         (content : Json.value) (sign_with : option string) (w : world),
    no_key sign_with ->
    let rq := results_request lib insecure url content plain_headers in
    let run := post_results lib env insecure url content sign_with w in
    w_http (snd run) = (w_http w ++ [rq])%list /\
    match env_http env (w_http w) rq with
    | Raise e => fst run = Ok tt /\ w_stdout (snd run) = w_stdout w
    | Ok r =>
        if (r_status_code r =? 201)%Z then
          match r_json r with
          | Ok (Json.JObj fields) =>
              fst run = Ok tt /\
              w_stdout (snd run) =
                (w_stdout w ++ [uploaded_message lib fields])%list
          | Ok _ =>
              fst run = Raise (AttributeError "object has no attribute 'get'") /\
              w_stdout (snd run) = w_stdout w
          | Raise e => fst run = Raise e /\ w_stdout (snd run) = w_stdout w
          end
        else fst run = Ok tt /\ w_stdout (snd run) = w_stdout w
    end.
Proof.
  intros lib env insecure url content sign_with w Hno rq run. subst run.
  unfold post_results. fold plain_headers.
  rewrite (sign_headers_no_key _ _ _ _ _ Hno).
  unfold bind at 1 2. unfold logger_log at 1, ret at 1.
  split; [rewrite send_results_http; reflexivity|].
  unfold send_results, bind, try_except, requests_post, requests_send,
    logger_log, ret, lift, print. cbn [w_log w_http w_stdout].
  fold (results_request lib insecure url content plain_headers). fold rq.
  destruct (env_http env (w_http w) rq) as [r|e]; [|split; reflexivity].
  cbn [w_log w_http w_stdout].
  destruct (r_status_code r =? 201)%Z; [|split; reflexivity].
  destruct (r_json r) as [resp|e]; [|split; reflexivity].
  unfold Json.get, ret, raise.
  destruct resp; try (split; reflexivity).
  unfold uploaded_message.
  destruct (dict_get fields "url"); split; reflexivity.
Qed.

Lemma post_results_unsigned_outcome_witness :
  let run := post_results sample_lib (good_key_env 201) false
               "https://refstack.example.org/api" sample_content (Some "")
               empty_world in
  fst run = Ok tt /\
  w_stdout (snd run) = ["Test results uploaded!" ++ String LF "URL: "] /\
  w_http (snd run) =
    [results_request sample_lib false "https://refstack.example.org/api"
       sample_content plain_headers].
Proof.
  intros run.
  destruct (post_results_unsigned_outcome sample_lib (good_key_env 201) false
              "https://refstack.example.org/api" sample_content (Some "")
              empty_world (or_intror eq_refl)) as [Hhttp Hout].
  change (fst run = Ok tt /\
          w_stdout (snd run) =
            (w_stdout empty_world ++ [uploaded_message sample_lib []])%list)
    in Hout.
  destruct Hout as [H1 H2]. split; [exact H1|]. split; [exact H2 | exact Hhttp].
Defined.

(** The requests of [post_results], whatever happens. *)
Lemma post_results_requests :
  forall (lib : Lib) (env : Env) (insecure : bool) (url : string)
         (content : Json.value) (sign_with : option string) (w : world),
    let run := post_results lib env insecure url content sign_with w in
    w_http (snd run) = w_http w \/
    exists headers,
      w_http (snd run) =
        (w_http w ++ [results_request lib insecure url content headers])%list /\
      ((no_key sign_with /\ headers = plain_headers) \/
       (exists path f key raw,
          sign_with = Some path /\ truthy path = true /\
          env_open env path = Ok f /\
          load_result lib f = Ok (RSAPrivateKey key) /\
          RSA.sign_pkcs1_v15 key (encode_utf8 (lib_json_dumps lib content))
            = Ok raw /\
          headers = signed_headers lib key raw)).
Proof.
  intros lib env insecure url content sign_with w run. subst run.
  assert (Hplain : no_key sign_with ->
    exists headers,
      w_http (snd (post_results lib env insecure url content sign_with w)) =
        (w_http w ++ [results_request lib insecure url content headers])%list /\
      ((no_key sign_with /\ headers = plain_headers) \/
       (exists path f key raw,
          sign_with = Some path /\ truthy path = true /\
          env_open env path = Ok f /\
          load_result lib f = Ok (RSAPrivateKey key) /\
          RSA.sign_pkcs1_v15 key (encode_utf8 (lib_json_dumps lib content))
            = Ok raw /\
          headers = signed_headers lib key raw))).
  { intros Hno. exists plain_headers. split; [|left; auto].
    unfold post_results. fold plain_headers.
    rewrite (sign_headers_no_key _ _ _ _ _ Hno).
    unfold bind at 1 2. unfold logger_log at 1, ret at 1.
    rewrite send_results_http. reflexivity. }
  destruct sign_with as [[|c path]|];
    [right; apply Hplain; right; reflexivity | | right; apply Hplain; left; reflexivity].
  clear Hplain.
  destruct (env_open env (String c path)) as [f|e] eqn:Hopen.
  2:{ left. unfold post_results, bind at 1 2, sign_headers, bind at 1, open_, lift.
      unfold logger_log at 1. rewrite Hopen. reflexivity. }
  destruct (load_result lib f) as [[key|kind]|e] eqn:Hload.
  - destruct (RSA.sign_pkcs1_v15 key (encode_utf8 (lib_json_dumps lib content)))
      as [raw|e] eqn:Hsign.
    + right. exists (signed_headers lib key raw). split.
      * apply (post_results_signed lib env insecure url content (String c path)
                 w f key raw eq_refl Hopen Hload Hsign).
      * right. exists (String c path), f, key, raw. auto 10.
    + left.
      rewrite (post_results_sign_raises lib env insecure url content
                 (String c path) w f key e eq_refl Hopen Hload Hsign).
      reflexivity.
  - left. unfold post_results, bind at 1 2, sign_headers, bind at 1 2, open_, lift.
    unfold logger_log at 1. rewrite Hopen, load_key_run, Hload. reflexivity.
  - left. unfold post_results, bind at 1 2, sign_headers, bind at 1 2, open_, lift.
    unfold logger_log at 1. rewrite Hopen, load_key_run, Hload.
    destruct (is_key_error e); reflexivity.
Qed.

(** X16.  What [post_results] sends.  In every run the call makes no
    request or one, the POST of the serialised content to
    [url/v1/results/].  The request carries the [Content-type] header
    alone exactly when no key was given; with a key it carries besides the
    two signature headers, the signature being that of the serialised
    content by the RSA key the key file holds, next to that key's public
    part.  So a key that cannot be used never makes an unsigned
    submission, and no signature is sent for other data. *)
Theorem post_results_request_invariant :
  forall (lib : Lib) (env : Env) (insecure : bool) (url : string)
         (content : Json.value) (sign_with : option string) (w : world),
    let run := post_results lib env insecure url content sign_with w in
    w_http (snd run) = w_http w \/
    exists headers,
      w_http (snd run) =
        (w_http w ++ [results_request lib insecure url content headers])%list /\
      ((no_key sign_with /\ headers = plain_headers) \/
       (exists path f key raw,
          sign_with = Some path /\ truthy path = true /\
          env_open env path = Ok f /\
          load_result lib f = Ok (RSAPrivateKey key) /\
          RSA.sign_pkcs1_v15 key (encode_utf8 (lib_json_dumps lib content))
            = Ok raw /\
          headers = signed_headers lib key raw)).
Proof. exact post_results_requests. Qed.

(** *** The prompt *)

Lemma upload_prompt_run (lib : Lib) (sys : Sys) (args : Args)
    (content : Json.value) (p : proc) :
  _upload_prompt lib sys args content p =
    if consent args p then submit lib sys args content (asked args p)
    else
      (match a_quiet args, p_stdin p with
       | false, [] => Fail EOFError
       | _, _ => Val tt
       end, asked args p).
Proof.
  unfold _upload_prompt, _user_query, consent, asked, submit, pbind, pret,
    input, answered, upload_question, agrees.
  destruct (a_quiet args); [reflexivity|]. cbn [orb].
  rewrite !append_assoc.
  destruct (p_stdin p) as [|[answer|] rest]; cbn [tl]; try reflexivity.
  destruct (str_in (Urllib.str_lower answer) ["yes"; "y"]); reflexivity.
Qed.

Lemma run_env_files {A} (sys : Sys) (c : Env -> M A) (p : proc) :
  p_files (snd (run_env sys c p)) = p_files p /\
  p_stdin (snd (run_env sys c p)) = p_stdin p /\
  p_prompts (snd (run_env sys c p)) = p_prompts p /\
  p_atexit (snd (run_env sys c p)) = p_atexit p.
Proof.
  unfold run_env, run_m. destruct (c _ _) as [[a|e] w]; repeat split.
Qed.

(** X17.  No upload without consent.  [_upload_prompt] submits exactly
    when [--quiet] was given or the operator's next line is "yes" or "y"
    in any letter case; it then is [post_results] with the URL, the
    content and the key of the arguments.  Otherwise (another answer,
    Ctrl-C, or the end of the input, which raises [EOFError]) the world is
    left as it was: no request, no log record.  With [--quiet] nothing is
    asked and no input is read; without it the one question is written and
    one answer is read. *)
Theorem upload_prompt_consent :
  forall (lib : Lib) (sys : Sys) (args : Args) (content : Json.value) (p : proc),
    let run := _upload_prompt lib sys args content p in
    (consent args p = false ->
       w_http (p_world (snd run)) = w_http (p_world p) /\
       p_world (snd run) = p_world p /\
       (fst run = Val tt \/ (fst run = Fail EOFError /\ p_stdin p = []))) /\
    (consent args p = true ->
       run = submit lib sys args content (asked args p)) /\
    (a_quiet args = true ->
       p_prompts (snd run) = p_prompts p /\ p_stdin (snd run) = p_stdin p) /\
    (a_quiet args = false ->
       p_prompts (snd run) = (p_prompts p ++ [upload_question args])%list /\
       p_stdin (snd run) = tl (p_stdin p)).
Proof.
  intros lib sys args content p run. subst run. rewrite upload_prompt_run.
  split; [|split; [|split]].
  - intros Hc. rewrite Hc. cbn [fst snd].
    assert (Hw : p_world (asked args p) = p_world p)
      by (unfold asked; destruct (a_quiet args); reflexivity).
    rewrite Hw. split; [reflexivity|]. split; [reflexivity|].
    destruct (a_quiet args); [left; reflexivity|].
    destruct (p_stdin p); [right; auto | left; reflexivity].
  - intros Hc. rewrite Hc. reflexivity.
  - intros Hq.
    assert (Ha : asked args p = p) by (unfold asked; rewrite Hq; reflexivity).
    destruct (consent args p); rewrite Ha; [|split; reflexivity].
    unfold submit. destruct (run_env_files sys
      (fun env => post_results lib env (a_insecure args) (a_url args) content
                    (a_priv_key args)) p) as (_ & H1 & H2 & _). auto.
  - intros Hq.
    assert (Ha : asked args p = answered (upload_question args) (tl (p_stdin p)) p)
      by (unfold asked; rewrite Hq; reflexivity).
    destruct (consent args p); rewrite Ha; [|split; reflexivity].
    unfold submit. destruct (run_env_files sys
      (fun env => post_results lib env (a_insecure args) (a_url args) content
                    (a_priv_key args))
      (answered (upload_question args) (tl (p_stdin p)) p)) as (_ & H1 & H2 & _).
    rewrite H1, H2. split; reflexivity.
Qed.

Lemma upload_prompt_consent_witness :
  let p := mk_proc empty_world [] [] [] [] [Line "no"; Line "yes"] in
  let run := _upload_prompt sample_lib listing_sys listing_args sample_content p in
  w_http (p_world (snd run)) = [] /\
  p_prompts (snd run) =
    ["Test results will be uploaded to https://refstack.example.org/api. Ok? (yes/y): "] /\
  p_stdin (snd run) = [Line "yes"].
Proof.
  intros p run.
  destruct (upload_prompt_consent sample_lib listing_sys listing_args
              sample_content p) as (Hno & _ & _ & Hasked).
  destruct (Hno eq_refl) as (Hhttp & _). destruct (Hasked eq_refl) as [Hp Hs].
  split; [exact Hhttp|]. split; [exact Hp | exact Hs].
Defined.

(** *** [upload_subunit] *)

Lemma prep_upload_run (args : Args) (p : proc) :
  _prep_upload args p =
    if has_file (p_files p) (a_file args) then (Val (a_file args), p)
    else (Fail (SystemExit 1),
          set_world p (add_log (p_world p)
                         [(ERROR, "File not valid: " ++ a_file args)])).
Proof.
  unfold _prep_upload, pbind, isfile, pret, exit_, pfail, run_m, logger_log.
  destruct (has_file (p_files p) (a_file args)); reflexivity.
Qed.

Lemma upload_subunit_run (lib : Lib) (sys : Sys) (args : Args) (p : proc) :
  let hashing := add_log (p_world p) creating_hash_record in
  upload_subunit lib sys args p =
    if has_file (p_files p) (a_file args) then
      match fst (_generate_cpid_from_endpoint lib (a_keystone_endpoint args)
                   (p_world p)) with
      | Raise e => (Fail (Exc e), set_world p hashing)
      | Ok cpid =>
          match sys_subunit sys (a_file args) with
          | Raise e => (Fail (Exc e), set_world p hashing)
          | Ok results =>
              _upload_prompt lib sys args
                (_form_result_content cpid 0 (Json.JArr results))
                (set_world p
                   (add_log hashing
                      [(INFO, "Number of passed tests in given subunit file: "
                              ++ str_of_nat (List.length results) ++ " ")]))
          end
      end
    else
      (Fail (SystemExit 1),
       set_world p (add_log (p_world p)
                      [(ERROR, "File not valid: " ++ a_file args)])).
Proof.
  intros hashing. subst hashing.
  unfold upload_subunit, pbind at 1. rewrite prep_upload_run.
  destruct (has_file (p_files p) (a_file args)); [|reflexivity].
  unfold pbind at 1, run_m at 1. rewrite generate_cpid_run. cbn [fst].
  match goal with |- context [match ?x with Ok _ => _ | Raise _ => _ end] =>
    destruct x as [cpid|e] end; [|reflexivity].
  unfold pbind at 1, get_passed_tests, run_m at 1, lift. cbn [p_world set_world].
  destruct (sys_subunit sys (a_file args)) as [results|e]; reflexivity.
Qed.

(** X18.  What [upload_subunit] sends.  In every run the method makes no
    request or one.  It makes one only when the file to upload exists, the
    Keystone endpoint hashes to a CPID, the subunit file is processed and
    the upload has consent; the request is then the POST to
    [url/v1/results/] of the content whose [cpid] is that hash, whose
    [duration_seconds] is 0 and whose [results] are the processed
    results. *)
Theorem upload_subunit_sends :
  forall (lib : Lib) (sys : Sys) (args : Args) (p : proc),
    let run := upload_subunit lib sys args p in
    w_http (p_world (snd run)) = w_http (p_world p) \/
    exists cpid results headers,
      has_file (p_files p) (a_file args) = true /\
      fst (_generate_cpid_from_endpoint lib (a_keystone_endpoint args)
             (p_world p)) = Ok cpid /\
      sys_subunit sys (a_file args) = Ok results /\
      consent args p = true /\
      w_http (p_world (snd run)) =
        (w_http (p_world p) ++
         [results_request lib (a_insecure args) (a_url args)
            (_form_result_content cpid 0 (Json.JArr results)) headers])%list.
Proof.
  intros lib sys args p run. subst run.
  rewrite upload_subunit_run. cbv zeta.
  destruct (has_file (p_files p) (a_file args)) eqn:Hfile; [|left; reflexivity].
  destruct (fst (_generate_cpid_from_endpoint lib (a_keystone_endpoint args)
                   (p_world p))) as [cpid|e] eqn:Hcpid; [|left; reflexivity].
  destruct (sys_subunit sys (a_file args)) as [results|e] eqn:Hsub;
    [|left; reflexivity].
  rewrite upload_prompt_run.
  match goal with |- context [consent args ?q] =>
    change (consent args q) with (consent args p); set (p1 := q) end.
  assert (Hhttp : w_http (p_world (asked args p1)) = w_http (p_world p))
    by (unfold asked; destruct (a_quiet args); reflexivity).
  destruct (consent args p) eqn:Hc; [|left; exact Hhttp].
  unfold submit, run_env, run_m.
  pose proof (post_results_requests lib (env_of sys (p_files (asked args p1)))
                (a_insecure args) (a_url args)
                (_form_result_content cpid 0 (Json.JArr results))
                (a_priv_key args) (p_world (asked args p1))) as H.
  cbv zeta in H.
  destruct (post_results _ _ _ _ _ _ _) as [[u|e] w'];
    cbn [fst snd p_world set_world] in *;
    (destruct H as [H|(headers & H & _)];
     [left; rewrite H; exact Hhttp
     |right; exists cpid, results, headers; rewrite H, Hhttp; auto]).
Qed.
(* ================================================================= *)
(** ** [list] *)

Lemma fetch_page_http (gs : bool) (env : Env) (insecure : bool) (a : yield_args)
    (page : Z) (w : world) :
  w_http (snd (fetch_page gs env insecure a page w)) =
    (w_http w ++ [page_request insecure a page])%list.
Proof.
  unfold fetch_page, bind, try_except, requests_get, requests_send,
    raise_for_status, logger_log, ret, raise, raise_StopIteration, lift.
  fold (page_request insecure a page). cbn [w_log w_http w_stdout].
  destruct (env_http env (w_http w) _) as [r|e].
  - repeat match goal with
           | |- context [if ?c then _ else _] => destruct c
           end;
    cbn [w_log w_http w_stdout];
    try reflexivity;
    destruct (r_json r) as [v|e]; try reflexivity;
    unfold Json.get, ret, raise; destruct v; try reflexivity;
    destruct (dict_get fields "results"); reflexivity.
  - destruct e; try reflexivity; destruct gs; reflexivity.
Qed.

Lemma gen_next_http (gs : bool) (env : Env) (insecure : bool) (a : yield_args)
    (g : generator) (w : world) :
  List.length (w_http (snd (gen_next gs env insecure a g w))) <=
    List.length (w_http w) + 1.
Proof.
  destruct g as [page|page resp|]; cbn [gen_next].
  - rewrite fetch_page_http, length_app. simpl. lia.
  - unfold bind.
    destruct (pure_getitem resp "pagination") as [[pagination|e] Hp];
      rewrite Hp; [|simpl; lia].
    destruct (pure_getitem pagination "total_pages") as [[total|e] Ht];
      rewrite Ht; [|simpl; lia].
    destruct (Json.eq_int total page).
    + unfold raise_StopIteration. destruct gs; simpl; lia.
    + rewrite fetch_page_http, length_app. simpl. lia.
  - simpl. lia.
Qed.

Lemma for_each_http {X S} (xs : list X) (body : X -> S -> M S) :
  (forall x st w, w_http (snd (body x st w)) = w_http w) ->
  forall st w, w_http (snd (for_each xs body st w)) = w_http w.
Proof.
  intros Hbody. induction xs as [|x xs IH]; intros st w; [reflexivity|].
  cbn [for_each]. unfold bind. specialize (Hbody x st w).
  destruct (body x st w) as [[st'|e] w1]; cbn [snd] in *.
  - rewrite IH. exact Hbody.
  - exact Hbody.
Qed.

Lemma print_page_http (lib : Lib) (page : Json.value) (w : world) :
  w_http (snd (print_page lib page w)) = w_http w.
Proof.
  unfold print_page, bind at 1.
  destruct (pure_iter page) as [[rows|e] Hr]; rewrite Hr; [|reflexivity].
  apply for_each_http. clear. intros r st w. unfold bind.
  destruct (pure_getitem r "created_at") as [[c|e] Hc]; rewrite Hc; [|reflexivity].
  destruct (pure_getitem r "url") as [[u|e] Hu]; rewrite Hu; reflexivity.
Qed.

Lemma run_env_gen_next (gs : bool) (sys : Sys) (insecure : bool)
    (a : yield_args) (g : generator) (p : proc) :
  let r := run_env sys (fun env => gen_next gs env insecure a g) p in
  List.length (w_http (p_world (snd r))) <= List.length (w_http (p_world p)) + 1.
Proof.
  cbv zeta. unfold run_env, run_m.
  pose proof (gen_next_http gs (env_of sys (p_files p)) insecure a g (p_world p)) as H.
  destruct (gen_next _ _ _ _ _ _) as [[x|e] w]; exact H.
Qed.

Lemma run_m_print_page (lib : Lib) (page : Json.value) (p : proc) :
  w_http (p_world (snd (run_m (print_page lib page) p))) = w_http (p_world p).
Proof.
  unfold run_m. pose proof (print_page_http lib page (p_world p)) as H.
  destruct (print_page _ _ _) as [[x|e] w]; exact H.
Qed.

(** The listing never runs ahead of the operator. *)
Lemma list_pages_paced (gs : bool) (lib : Lib) (sys : Sys) (args : Args)
    (answers : list console_input) :
  forall (g : generator) (p : proc),
    p_stdin p = answers ->
    let run := list_pages gs lib sys args answers g p in
    exists k,
      k <= List.length answers /\
      p_stdin (snd run) = skipn k answers /\
      forallb is_enter (firstn (k - 1) answers) = true /\
      List.length (w_http (p_world (snd run))) <=
        List.length (w_http (p_world p)) +
        List.length (filter is_enter (firstn k answers)) + 1.
Proof.
  induction answers as [|x rest IH]; intros g p Hin run; subst run;
    cbn [list_pages];
    pose proof (run_env_gen_next gs sys (a_insecure args) (list_args args) g p)
      as Hnext; cbv zeta in Hnext;
    assert (Hstdin : p_stdin (snd (run_env sys (fun env => gen_next gs env
              (a_insecure args) (list_args args) g) p)) = p_stdin p)
      by apply run_env_files;
    destruct (run_env sys _ p) as [[[[page|] g']|f] p1]; cbn [snd] in *;
    try (exists 0; cbn [skipn firstn filter List.length Nat.sub forallb];
         split; [lia|]; split; [congruence|]; split; [reflexivity|lia]);
    pose proof (run_m_print_page lib page p1) as Hprint;
    assert (Hstdin2 : p_stdin (snd (run_m (print_page lib page) p1)) = p_stdin p1)
      by (unfold run_m; destruct (print_page _ _ _) as [[?|?] ?]; reflexivity);
    destruct (run_m (print_page lib page) p1) as [[u|f] p2]; cbn [snd] in *;
    rewrite <- Hprint in Hnext;
    try (exists 0; cbn [skipn firstn filter List.length Nat.sub forallb];
         split; [lia|]; split; [congruence|]; split; [reflexivity|lia]).
  - exists 0. cbn. split; [lia|]. split; [reflexivity|]. split; [reflexivity|lia].
  - destruct x as [text|].
    + match goal with |- context [list_pages gs lib sys args rest g' ?q] =>
        destruct (IH g' q eq_refl) as (k & Hk & Hs & Hl & Hh) end.
      exists (S k). cbn [skipn firstn filter is_enter List.length].
      split; [lia|]. split; [exact Hs|]. split.
      * destruct k; [reflexivity|].
        cbn [Nat.sub firstn forallb is_enter andb] in *.
        rewrite Nat.sub_0_r in *. exact Hl.
      * cbn [p_world answered] in Hh. lia.
    + exists 1. cbn. split; [lia|]. split; [reflexivity|]. split; [reflexivity|lia].
Qed.

(** X19.  The listing keeps pace with the operator.  In every run of
    [list], whatever the server answers and under either reading of
    [raise StopIteration], the console answers are consumed in order, all
    of them but possibly the last are lines (a Ctrl-C is the last thing
    read: the method returns on it), and the number of requests made is at
    most one more than the number of lines read: a page is asked for only
    after Enter was pressed on every page before it. *)
Theorem list_is_paced :
  forall (generator_stop : bool) (lib : Lib) (sys : Sys) (args : Args) (p : proc),
    let run := list_ generator_stop lib sys args p in
    exists k,
      k <= List.length (p_stdin p) /\
      p_stdin (snd run) = skipn k (p_stdin p) /\
      forallb is_enter (firstn (k - 1) (p_stdin p)) = true /\
      List.length (w_http (p_world (snd run))) <=
        List.length (w_http (p_world p)) +
        List.length (filter is_enter (firstn k (p_stdin p))) + 1.
Proof.
  intros gs lib sys args p. unfold list_.
  apply list_pages_paced. reflexivity.
Qed.

(** With three pages on the server, Enter once and then Ctrl-C: two pages
    are fetched and printed, the call returns, and what the operator
    would have typed next is still there. *)
Example list_two_pages :
  let p := mk_proc empty_world [] [] [] [] [Line ""; Interrupt; Line "more"] in
  let run := list_ true sample_lib listing_sys listing_args p in
  fst run = Val tt /\
  w_stdout (p_world (snd run)) =
    ["2016-01-01 - https://r/1"; "2016-01-02 - https://r/2"] /\
  map rq_params (w_http (p_world (snd run))) = [[("page", "1")]; [("page", "2")]] /\
  p_stdin (snd run) = [Line "more"] /\
  p_prompts (snd run) =
    ["Press Enter to go to next page..."; "Press Enter to go to next page..."].
Proof. vm_compute. repeat split. Qed.
(* ================================================================= *)
(** ** [_sign_pubkey] and [self_sign] *)

Lemma sign_pubkey_no_key (lib : Lib) (env : Env) (path : string) (w : world)
    (e : exn) :
  key_of lib env path = Raise e ->
  _sign_pubkey lib env path w =
    if is_key_error e then
      (Ok None, add_log w [(ERROR, "Error reading private key " ++ path);
                           (ERROR, exn_str e)])
    else (Raise e, w).
Proof.
  unfold key_of, load_result, _sign_pubkey, bind, try_except, open_, lift, ret,
    logger_log, add_log.
  destruct (env_open env path) as [f|e0].
  - destruct (f_read f) as [text|e0].
    + intros ->. destruct e; cbn [is_key_error w_log w_http w_stdout];
        rewrite <- ?app_assoc; reflexivity.
    + intros [= ->]. destruct e; cbn [is_key_error w_log w_http w_stdout];
        rewrite <- ?app_assoc; reflexivity.
  - intros [= ->]. destruct e; cbn [is_key_error w_log w_http w_stdout];
      rewrite <- ?app_assoc; reflexivity.
Qed.

Lemma sign_pubkey_key (lib : Lib) (env : Env) (path : string) (w : world)
    (key : RSA.private_numbers) (raw : bytes) :
  key_of lib env path = Ok (RSAPrivateKey key) ->
  RSA.sign_pkcs1_v15 key (encode_utf8 "signature") = Ok raw ->
  _sign_pubkey lib env path w =
    match pub_file env path with
    | Ok text => (Ok (Some (FromFile text, b2a_hex raw)), w)
    | Raise (IOError m) =>
        (Ok (Some (Derived (lib_public_bytes_openssh lib key), b2a_hex raw)),
         add_log w [(ERROR, "Public key file " ++ (path ++ ".pub")
                            ++ " not found. "
                            ++ "Public key is generated from private one.")])
    | Raise e => (Raise e, w)
    end.
Proof.
  unfold key_of, pub_file, load_result, _sign_pubkey, key_signer,
    signer_finalize, signer_update, public_bytes, try_except, open_,
    logger_log, add_log, bind, lift, ret.
  destruct (env_open env path) as [f|e0]; [|discriminate].
  destruct (f_read f) as [text|e0]; [|discriminate].
  intros -> Hsign. cbn [String.concat sg_key sg_data append].
  destruct (env_open env (path ++ ".pub")) as [pf|e].
  - destruct (f_read pf) as [ptext|e].
    + rewrite Hsign. reflexivity.
    + destruct e; try reflexivity. cbn [sg_key sg_data]. rewrite Hsign.
      reflexivity.
  - destruct e; try reflexivity. cbn [sg_key sg_data]. rewrite Hsign.
    reflexivity.
Qed.

(** *** Hexadecimal text as [bytes] *)

Lemma octets_range (b : bytes) : Forall (fun x => 0 <= x < 256)%Z (octets b).
Proof.
  unfold octets. induction b as [|c b IH]; simpl; constructor; [|exact IH].
  pose proof (N_ascii_bounded c). lia.
Qed.

Lemma b2a_hex_is_hex (b : bytes) : Hex.is_hex (b2a_hex b) = true.
Proof. apply hex_of_octets_is_hex. apply octets_range. Qed.

Lemma repr_octet_hex (c : ascii) :
  Hex.is_digit c = true -> repr_octet "'" c = String c "" /\ Ascii.eqb c "'" = false.
Proof.
  intros H.
  assert (Hall : forallb (fun n =>
            let c := ascii_of_nat n in
            implb (Hex.is_digit c)
              (String.eqb (repr_octet "'" c) (String c "") &&
               negb (Ascii.eqb c "'"))) (seq 0 256) = true)
    by (vm_compute; reflexivity).
  rewrite forallb_forall in Hall.
  specialize (Hall (nat_of_ascii c)). rewrite ascii_nat_embedding in Hall.
  cbv zeta in Hall. rewrite H in Hall. cbn [implb] in Hall.
  assert (Hin : In (nat_of_ascii c) (seq 0 256))
    by (apply in_seq; pose proof (nat_ascii_bounded c); lia).
  specialize (Hall Hin). apply andb_true_iff in Hall. destruct Hall as [H1 H2].
  apply String.eqb_eq in H1. apply negb_true_iff in H2. auto.
Qed.

Lemma bytes_repr_hex (s : string) :
  Hex.is_hex s = true -> bytes_repr s = "b'" ++ s ++ "'".
Proof.
  intros H. unfold bytes_repr.
  assert (Hq : str_contains "'" s = false /\ repr_octets "'" s = s).
  { induction s as [|c s IH]; [split; reflexivity|].
    cbn [Hex.is_hex] in H. apply andb_true_iff in H. destruct H as [Hc Hs].
    destruct (IH Hs) as [IH1 IH2]. destruct (repr_octet_hex c Hc) as [H1 H2].
    cbn [str_contains repr_octets]. rewrite H1, H2, IH1, IH2. split; reflexivity. }
  destruct Hq as [Hq1 Hq2]. rewrite Hq1. cbn [andb]. rewrite Hq2. reflexivity.
Qed.

(** X20.  The self-signature.  When the private key file cannot be
    opened, read or parsed ([IOError], [UnsupportedAlgorithm] or
    [ValueError]), [_sign_pubkey] logs two ERROR records and returns
    [None], and [self_sign], which unpacks that result, raises
    [TypeError]; nothing is printed.  With an RSA key, [self_sign] prints
    two texts: the public key (the text of the [.pub] file beside the key
    or, when that file raises [IOError], the repr of the OpenSSH key
    derived from the private key, after one ERROR record) and the
    signature, which is that of the fixed text "signature" and is printed
    as the repr of [bytes]: the hexadecimal digits between [b'] and
    ['].) *)
Theorem self_sign_spec :
  forall (lib : Lib) (env : Env) (path : string) (w : world),
    (forall e,
       key_of lib env path = Raise e -> is_key_error e = true ->
       let w' := add_log w [(ERROR, "Error reading private key " ++ path);
                            (ERROR, exn_str e)] in
       _sign_pubkey lib env path w = (Ok None, w') /\
       self_sign lib env path w =
         (Raise (TypeError "cannot unpack non-iterable NoneType object"), w')) /\
    (forall key raw,
       key_of lib env path = Ok (RSAPrivateKey key) ->
       RSA.sign_pkcs1_v15 key (encode_utf8 "signature") = Ok raw ->
       let signature := "Self signature:" ++
                        String LF (("b'" ++ b2a_hex raw ++ "'") ++ String LF "") in
       (forall text,
          pub_file env path = Ok text ->
          self_sign lib env path w =
            (Ok tt,
             mk_world (w_log w) (w_http w)
               (w_stdout w ++
                [("Public key:" ++ String LF (text ++ String LF ""))%string;
                 signature])%list)) /\
       (forall m,
          pub_file env path = Raise (IOError m) ->
          self_sign lib env path w =
            (Ok tt,
             mk_world
               (w_log w ++
                [(ERROR, ("Public key file " ++ (path ++ ".pub")
                          ++ " not found. "
                          ++ "Public key is generated from private one.")%string)])%list
               (w_http w)
               (w_stdout w ++
                [("Public key:" ++
                  String LF (bytes_repr (lib_public_bytes_openssh lib key)
                             ++ String LF ""))%string;
                 signature])%list))).
Proof.
  intros lib env path w. split.
  - intros e Hk He w'. subst w'.
    pose proof (sign_pubkey_no_key lib env path w e Hk) as Hrun.
    rewrite He in Hrun. split; [exact Hrun|].
    unfold self_sign, bind. rewrite Hrun. reflexivity.
  - intros key raw Hk Hs signature. subst signature.
    pose proof (sign_pubkey_key lib env path w key raw Hk Hs) as Hrun.
    split.
    + intros text Hp. rewrite Hp in Hrun.
      unfold self_sign, bind. rewrite Hrun. unfold print.
      cbn [w_log w_http w_stdout key_text_str].
      rewrite (bytes_repr_hex _ (b2a_hex_is_hex raw)).
      rewrite <- app_assoc. reflexivity.
    + intros m Hp. rewrite Hp in Hrun.
      unfold self_sign, bind. rewrite Hrun. unfold print, add_log.
      cbn [w_log w_http w_stdout key_text_str].
      rewrite (bytes_repr_hex _ (b2a_hex_is_hex raw)).
      rewrite <- app_assoc. reflexivity.
Qed.

Lemma self_sign_spec_witness :
  self_sign sample_lib bad_key_env "key.pem" empty_world =
    (Raise (TypeError "cannot unpack non-iterable NoneType object"),
     mk_world [(ERROR, "Error reading private key key.pem");
               (ERROR, "Could not deserialize key data.")] [] []).
Proof.
  destruct (self_sign_spec sample_lib bad_key_env "key.pem" empty_world)
    as [H _].
  destruct (H (ValueError "Could not deserialize key data.") eq_refl eq_refl)
    as [_ H2].
  exact H2.
Defined.
(* ================================================================= *)
(** ** [yield_results]: pages past the last, answers without metadata *)

(** Past the last page every [next()] is one more page. *)
Lemma drain_past_last_page (gs : bool) (env : Env) (insecure : bool)
    (a : yield_args) (total : nat) :
  serves_pages env total ->
  forall (fuel : nat) (g : generator) (w : world) (q : Z),
    (Z.of_nat total < q)%Z ->
    about_to_request g q ->
    exists batches w',
      drain gs env insecure a fuel g w = ((batches, Unfinished), w') /\
      List.length batches = fuel /\
      w_http w' =
        (w_http w ++
         map (fun i => page_request insecure a (q + Z.of_nat i)) (seq 0 fuel))%list.
Proof.
  intros Hserves. induction fuel as [|fuel IH]; intros g w q Hq Hg.
  - exists [], w. cbn. rewrite app_nil_r. auto.
  - destruct (Hserves (w_http w) (page_request insecure a q))
      as (r & Hr & Hs & fields & pag & Hj & Hf & Ht).
    assert (Hnext : gen_next gs env insecure a g w =
              (Ok (Some (batch_of r), Yielded q (Json.JObj fields)),
               sent w (page_request insecure a q))).
    { destruct Hg as [->|(p & fields0 & pag0 & tp & -> & -> & Hp & Htp & Hne)].
      - apply fetch_page_served; assumption.
      - unfold gen_next, Json.getitem, dict_getitem, bind, ret.
        rewrite Hp. cbn [Json.getitem]. unfold dict_getitem, ret.
        rewrite Htp, Hne. apply fetch_page_served; assumption. }
    destruct (IH (Yielded q (Json.JObj fields))
                (sent w (page_request insecure a q)) (q + 1)%Z)
      as (batches & w' & Hd & Hlen & Hw'); [lia| |].
    { right. exists q, fields, pag, (Json.JInt (Z.of_nat total)).
      repeat split; try assumption. cbn [Json.eq_int]. apply Z.eqb_neq. lia. }
    exists (batch_of r :: batches), w'.
    cbn [drain]. rewrite Hnext, Hd. split; [reflexivity|].
    split; [cbn; lia|].
    rewrite Hw'. unfold sent. cbn [w_http seq map].
    rewrite <- app_assoc. cbn [app]. rewrite Z.add_0_r. do 2 f_equal.
    rewrite <- seq_shift, map_map. apply map_ext. intros i. f_equal. lia.
Qed.

(** X21.  Past the last page the iteration does not end by itself.  With
    a server that answers every page request with a success reporting
    [total] pages and a start page greater than [total] (so also with the
    default start page when the server reports zero pages), every call of
    [next()] yields one more batch from one more request, for the pages
    from the start page on: the page number never equals [total], so the
    body never raises [StopIteration], under either reading of it. *)
Theorem yield_results_past_last_page :
  forall (generator_stop : bool) (env : Env) (insecure : bool)
         (a : yield_args) (total : nat) (w : world) (fuel : nat),
    serves_pages env total ->
    (Z.of_nat total < ya_start_page a)%Z ->
    exists batches w',
      drain generator_stop env insecure a fuel (yield_results a) w =
        ((batches, Unfinished), w') /\
      List.length batches = fuel /\
      w_http w' =
        (w_http w ++
         map (fun i => page_request insecure a (ya_start_page a + Z.of_nat i))
             (seq 0 fuel))%list.
Proof.
  intros gs env insecure a total w fuel Hs Hstart.
  apply (drain_past_last_page gs env insecure a total Hs); [exact Hstart|].
  left. reflexivity.
Qed.

Lemma yield_results_past_last_page_witness :
  exists batches w',
    drain true zero_pages_env false sample_args 25 (yield_results sample_args)
      empty_world = ((batches, Unfinished), w') /\
    List.length batches = 25 /\
    w_http w' =
      (w_http empty_world ++
       map (fun i => page_request false sample_args
                       (ya_start_page sample_args + Z.of_nat i))
           (seq 0 25))%list.
Proof.
  apply (yield_results_past_last_page true zero_pages_env false sample_args 0).
  - intros history rq. eexists. split; [reflexivity|].
    split; [reflexivity|]. eexists. eexists. repeat split; reflexivity.
  - reflexivity.
Defined.

(** X22.  Answers that are not what the loop expects.  When the first
    page request succeeds with a status that is no error: an answer whose
    body is a JSON object without [pagination] (or whose [pagination] has
    no [total_pages]) is yielded as a batch, and the next call of [next()]
    raises [KeyError] for the missing key without another request; a body
    that is not JSON lets the exception of [json()] out of the first call;
    a JSON body that is not an object raises [AttributeError] in the first
    call.  None of these is logged. *)
Theorem yield_results_malformed_page :
  forall (generator_stop : bool) (env : Env) (insecure : bool)
         (a : yield_args) (w : world) (r : http_response) (fuel : nat),
    env_http env (w_http w) (page_request insecure a (ya_start_page a)) = Ok r ->
    status_is_error r = false ->
    let w1 := sent w (page_request insecure a (ya_start_page a)) in
    let run := drain generator_stop env insecure a (S (S fuel)) (yield_results a) w in
    (forall fields,
       r_json r = Ok (Json.JObj fields) ->
       dict_get fields "pagination" = None ->
       run = (([batch_of r], Faulted (KeyError "pagination")), w1)) /\
    (forall fields pagination,
       r_json r = Ok (Json.JObj fields) ->
       dict_get fields "pagination" = Some (Json.JObj pagination) ->
       dict_get pagination "total_pages" = None ->
       run = (([batch_of r], Faulted (KeyError "total_pages")), w1)) /\
    (forall e, r_json r = Raise e -> run = (([], Faulted e), w1)) /\
    (forall v,
       r_json r = Ok v -> (forall fields, v <> Json.JObj fields) ->
       run = (([], Faulted (AttributeError "object has no attribute 'get'")), w1)).
Proof.
  intros gs env insecure a w r fuel Hr Hs w1 run. subst run w1.
  assert (Hfetch : forall v, r_json r = v ->
    fetch_page gs env insecure a (ya_start_page a) w =
      (match v with
       | Ok (Json.JObj fields) =>
           Ok (Some (batch_of r), Yielded (ya_start_page a) (Json.JObj fields))
       | Ok _ => Raise (AttributeError "object has no attribute 'get'")
       | Raise e => Raise e
       end, sent w (page_request insecure a (ya_start_page a)))).
  { intros v Hv.
    unfold fetch_page, bind, try_except, requests_get, requests_send.
    fold (page_request insecure a (ya_start_page a)). rewrite Hr.
    rewrite (raise_for_status_ok _ _ Hs). unfold ret, lift. rewrite Hv.
    unfold batch_of. rewrite Hv.
    destruct v as [[]|]; try reflexivity.
    unfold Json.get, ret. destruct (dict_get fields "results"); reflexivity. }
  unfold yield_results. cbn [drain gen_next].
  split; [|split; [|split]].
  - intros fields Hj Hp. rewrite (Hfetch _ Hj). cbn [gen_next Json.getitem].
    unfold dict_getitem, bind, raise. rewrite Hp. reflexivity.
  - intros fields pagination Hj Hp Ht. rewrite (Hfetch _ Hj).
    cbn [gen_next Json.getitem].
    unfold dict_getitem, bind, raise, ret. rewrite Hp.
    cbn [Json.getitem]. unfold dict_getitem, raise. rewrite Ht.
    reflexivity.
  - intros e Hj. rewrite (Hfetch _ Hj). reflexivity.
  - intros v Hj Hv. rewrite (Hfetch _ Hj).
    destruct v; try reflexivity. exfalso. exact (Hv fields eq_refl).
Qed.

Lemma yield_results_malformed_page_witness :
  drain true bare_env false sample_args 5 (yield_results sample_args) empty_world =
    (([Json.JArr [Json.JStr "a result"]], Faulted (KeyError "pagination")),
     sent empty_world (page_request false sample_args 1)).
Proof.
  destruct (yield_results_malformed_page true bare_env false sample_args
              empty_world
              (mk_response 200 "OK" "https://refstack.example.org/api/v1/results/"
                 "" (Ok (Json.JObj [("results", Json.JArr [Json.JStr "a result"])])))
              3 eq_refl eq_refl) as [H _].
  exact (H _ eq_refl eq_refl).
Defined.
(* ================================================================= *)
(** ** [_generate_cpid_from_endpoint]: the host alone counts *)

(** A property of characters that holds of all 256 of them. *)
Lemma all_chars (P : ascii -> bool) :
  forallb (fun n => P (ascii_of_nat n)) (seq 0 256) = true ->
  forall c, P c = true.
Proof.
  intros H c. rewrite forallb_forall in H.
  rewrite <- (ascii_nat_embedding c). apply H. apply in_seq.
  pose proof (nat_ascii_bounded c). lia.
Qed.

Lemma host_char_inert (c : ascii) :
  host_char c = true -> inert c = true /\ Ascii.eqb c ":" = false.
Proof.
  intros H.
  pose proof (all_chars (fun c => implb (host_char c)
                                    (inert c && negb (Ascii.eqb c ":")))
                ltac:(vm_compute; reflexivity) c) as Hall.
  cbv beta in Hall. rewrite H in Hall. cbn [implb] in Hall.
  apply andb_true_iff in Hall. destruct Hall as [H1 H2].
  apply negb_true_iff in H2. auto.
Qed.

Lemma digit_inert (c : ascii) :
  Urllib.is_digit c = true -> inert c = true.
Proof.
  intros H.
  pose proof (all_chars (fun c => implb (Urllib.is_digit c) (inert c))
                ltac:(vm_compute; reflexivity) c) as Hall.
  cbv beta in Hall. rewrite H in Hall. exact Hall.
Qed.

Lemma letter_of_lower (c : ascii) :
  Urllib.is_lower (Urllib.lower_char c) = true ->
  (Urllib.is_upper c || Urllib.is_lower c) = true /\
  Urllib.scheme_char c = true /\ inert c = true /\ Ascii.eqb c ":" = false.
Proof.
  intros H.
  pose proof (all_chars
    (fun c => implb (Urllib.is_lower (Urllib.lower_char c))
                ((Urllib.is_upper c || Urllib.is_lower c) &&
                 Urllib.scheme_char c && inert c && negb (Ascii.eqb c ":")))
    ltac:(vm_compute; reflexivity) c) as Hall.
  cbv beta in Hall. rewrite H in Hall. cbn [implb] in Hall.
  repeat (apply andb_true_iff in Hall; destruct Hall as [Hall ?]).
  rewrite negb_true_iff in *. auto.
Qed.

(** *** Texts of inert characters *)

Lemma inert_cases (c : ascii) :
  inert c = true ->
  Urllib.in_range 0 32 c = false /\
  (Urllib.in_range 9 10 c || Urllib.in_range 13 13 c) = false /\
  (Ascii.eqb c "/" || Ascii.eqb c "?" || Ascii.eqb c "#") = false /\
  Ascii.eqb c "@" = false /\ Ascii.eqb c "[" = false /\
  Ascii.eqb c "]" = false /\ Ascii.eqb c "%" = false.
Proof.
  unfold inert. intros H.
  repeat (apply andb_true_iff in H; destruct H as [H ?]).
  rewrite negb_true_iff in *. auto 10.
Qed.

Lemma str_all_weaken (P Q : ascii -> bool) (s : string) :
  (forall c, P c = true -> Q c = true) ->
  Urllib.str_all P s = true -> Urllib.str_all Q s = true.
Proof.
  intros HPQ. induction s as [|c s IH]; [reflexivity|].
  cbn [Urllib.str_all]. intros H. apply andb_true_iff in H. destruct H as [Hc Hs].
  rewrite (HPQ _ Hc), (IH Hs). reflexivity.
Qed.

Lemma str_all_app (P : ascii -> bool) (s t : string) :
  Urllib.str_all P (s ++ t) = Urllib.str_all P s && Urllib.str_all P t.
Proof.
  induction s as [|c s IH]; [reflexivity|].
  cbn [append Urllib.str_all]. rewrite IH, andb_assoc. reflexivity.
Qed.

Lemma remove_unsafe_inert (s t : string) :
  Urllib.str_all inert s = true ->
  Urllib.remove_unsafe (s ++ t) = s ++ Urllib.remove_unsafe t.
Proof.
  induction s as [|c s IH]; [reflexivity|].
  cbn [append Urllib.str_all Urllib.remove_unsafe]. intros H.
  apply andb_true_iff in H. destruct H as [Hc Hs].
  destruct (inert_cases c Hc) as (_ & Hu & _). rewrite Hu, (IH Hs). reflexivity.
Qed.

Lemma until_delimiter_inert (s t : string) :
  Urllib.str_all inert s = true ->
  Urllib.until_delimiter (s ++ t) = s ++ Urllib.until_delimiter t.
Proof.
  induction s as [|c s IH]; [reflexivity|].
  cbn [append Urllib.str_all Urllib.until_delimiter]. intros H.
  apply andb_true_iff in H. destruct H as [Hc Hs].
  destruct (inert_cases c Hc) as (_ & _ & Hd & _). rewrite Hd, (IH Hs).
  reflexivity.
Qed.

Lemma str_contains_inert (x : ascii) (s : string) :
  inert x = false -> Urllib.str_all inert s = true -> str_contains x s = false.
Proof.
  intros Hx. induction s as [|c s IH]; [reflexivity|].
  cbn [Urllib.str_all str_contains]. intros H.
  apply andb_true_iff in H. destruct H as [Hc Hs].
  destruct (Ascii.eqb_spec c x) as [->|]; [congruence | exact (IH Hs)].
Qed.

Lemma str_contains_all (P : ascii -> bool) (x : ascii) (s : string) :
  P x = false -> Urllib.str_all P s = true -> str_contains x s = false.
Proof.
  intros Hx. induction s as [|c s IH]; [reflexivity|].
  cbn [Urllib.str_all str_contains]. intros H.
  apply andb_true_iff in H. destruct H as [Hc Hs].
  destruct (Ascii.eqb_spec c x) as [->|]; [congruence | exact (IH Hs)].
Qed.

Lemma str_lower_app (s t : string) :
  Urllib.str_lower (s ++ t) = Urllib.str_lower s ++ Urllib.str_lower t.
Proof. induction s as [|c s IH]; [reflexivity|]. simpl. rewrite IH. reflexivity. Qed.

(** A scheme that is "http" or "https" in some letter case is made of
    letters. *)
Lemma http_scheme_letters (sch : string) :
  is_http_scheme sch ->
  exists c s,
    sch = String c s /\
    (Urllib.is_upper c || Urllib.is_lower c) = true /\
    Urllib.str_all Urllib.scheme_char sch = true /\
    Urllib.str_all inert sch = true /\
    str_contains ":" sch = false /\
    Urllib.in_range 0 32 c = false.
Proof.
  intros H.
  assert (Hlow : Urllib.str_all Urllib.is_lower (Urllib.str_lower sch) = true)
    by (destruct H as [-> | ->]; reflexivity).
  assert (Hall : Urllib.str_all
                   (fun c => (Urllib.is_upper c || Urllib.is_lower c) &&
                             Urllib.scheme_char c && inert c &&
                             negb (Ascii.eqb c ":")) sch = true).
  { clear H. induction sch as [|c s IH]; [reflexivity|].
    cbn [Urllib.str_lower Urllib.str_all] in *.
    apply andb_true_iff in Hlow. destruct Hlow as [Hc Hs].
    destruct (letter_of_lower c Hc) as (H1 & H2 & H3 & H4).
    rewrite H1, H2, H3, H4, (IH Hs). reflexivity. }
  destruct sch as [|c s]; [destruct H; discriminate|].
  exists c, s. split; [reflexivity|].
  assert (Hc : ((Urllib.is_upper c || Urllib.is_lower c) &&
                Urllib.scheme_char c && inert c && negb (Ascii.eqb c ":")) = true).
  { cbn [Urllib.str_all] in Hall. apply andb_true_iff in Hall. tauto. }
  repeat (apply andb_true_iff in Hc; destruct Hc as [Hc ?]).
  split; [exact Hc|].
  split; [revert Hall; apply str_all_weaken; intros x Hx;
          repeat (apply andb_true_iff in Hx; destruct Hx as [Hx ?]); assumption|].
  split; [revert Hall; apply str_all_weaken; intros x Hx;
          repeat (apply andb_true_iff in Hx; destruct Hx as [Hx ?]); assumption|].
  split.
  - revert Hall. apply str_contains_all. reflexivity.
  - assert (Hi : inert c = true) by assumption.
    apply (inert_cases c Hi).
Qed.

Lemma host_inert (host : string) :
  Urllib.str_all host_char host = true ->
  Urllib.str_all inert host = true /\ str_contains ":" host = false.
Proof.
  intros H. split.
  - revert H. apply str_all_weaken. intros c Hc. apply host_char_inert. exact Hc.
  - revert H. apply str_contains_all. reflexivity.
Qed.

Lemma port_part_inert (port : string) :
  is_port_part port ->
  Urllib.str_all inert port = true /\
  (port = "" \/ exists digits, port = String ":" digits).
Proof.
  intros [->|(digits & -> & Hd)]; [split; [reflexivity | left; reflexivity]|].
  split; [|right; eexists; reflexivity].
  cbn [Urllib.str_all]. change (inert ":") with true. cbn [andb].
  revert Hd. apply str_all_weaken. exact digit_inert.
Qed.

(** What the URL parser makes of [scheme://host[:port][/path]]. *)
Lemma urlparse_endpoint (sch host port path : string) :
  is_http_scheme sch -> is_host host -> is_port_part port -> is_path_part path ->
  Urllib.urlparse (sch ++ "://" ++ host ++ port ++ path) =
    Ok (Urllib.mk_parse_result (Urllib.str_lower sch) (host ++ port)
          (Some (Urllib.str_lower host))).
Proof.
  intros Hsch [Hne Hhost] Hport Hpath.
  destruct (http_scheme_letters sch Hsch)
    as (c & s & -> & Hletter & Hscheme & Hinert & Hcolon & Hc0).
  destruct (host_inert host Hhost) as [Hhi Hhc].
  destruct (port_part_inert port Hport) as [Hpi Hpshape].
  unfold Urllib.urlparse.
  (* the leading characters stay, the unsafe ones are in the path only *)
  assert (Hstrip : forall t, Urllib.lstrip_c0 (String c s ++ t) = String c s ++ t)
    by (intros t; cbn [append Urllib.lstrip_c0]; rewrite Hc0; reflexivity).
  rewrite Hstrip.
  rewrite (remove_unsafe_inert _ _ Hinert).
  assert (Hsep : forall t,
            Urllib.remove_unsafe ("://" ++ t) = "://" ++ Urllib.remove_unsafe t)
    by reflexivity.
  rewrite Hsep.
  rewrite (remove_unsafe_inert _ _ Hhi), (remove_unsafe_inert _ _ Hpi).
  (* the scheme *)
  unfold Urllib.split_scheme.
  cbn [append].
  change (String c (s ++ String ":" (String "/" (String "/"
            (host ++ port ++ Urllib.remove_unsafe path)))))
    with (String c s ++ String ":" ("//" ++ host ++ port ++ Urllib.remove_unsafe path)).
  rewrite (str_partition_first ":" (String c s) _ Hcolon).
  rewrite Hletter, Hscheme. cbn [andb].
  (* the network location *)
  cbn [append Urllib.split_netloc].
  rewrite (until_delimiter_inert _ _ Hhi), (until_delimiter_inert _ _ Hpi).
  assert (Hpath' : Urllib.until_delimiter (Urllib.remove_unsafe path) = "").
  { destruct Hpath as [->|(rest & ->)]; reflexivity. }
  rewrite Hpath', append_nil_r.
  assert (Hnetloc : Urllib.str_all inert (host ++ port) = true)
    by (rewrite str_all_app, Hhi, Hpi; reflexivity).
  rewrite (str_contains_inert "[" _ eq_refl Hnetloc),
          (str_contains_inert "]" _ eq_refl Hnetloc).
  cbn [andb orb negb]. do 2 f_equal.
  (* the host *)
  unfold Urllib.hostname_of.
  assert (Hat : str_rpartition "@" (host ++ port) = None)
    by (apply str_rpartition_None; apply (str_contains_inert "@" _ eq_refl Hnetloc)).
  assert (Hbr : str_partition "[" (host ++ port) = None)
    by (apply str_partition_None; apply (str_contains_inert "[" _ eq_refl Hnetloc)).
  rewrite Hat, Hbr.
  assert (Hhostpart :
    match str_partition ":" (host ++ port) with
    | Some (h, _) => h
    | None => host ++ port
    end = host).
  { destruct Hpshape as [->|(digits & ->)].
    - rewrite append_nil_r.
      assert (Hn : str_partition ":" host = None)
        by (apply str_partition_None; exact Hhc).
      rewrite Hn. reflexivity.
    - rewrite (str_partition_first ":" host digits Hhc). reflexivity. }
  rewrite Hhostpart.
  destruct host as [|h0 host']; [contradiction|]. cbn [truthy].
  assert (Hpct : str_partition "%" (String h0 host') = None)
    by (apply str_partition_None; apply (str_contains_inert "%" _ eq_refl Hhi)).
  rewrite Hpct. reflexivity.
Qed.

(** X23.  The CPID of an endpoint is a function of its host alone.  With
    the URL parser of the standard library, for every endpoint of the form
    [scheme://host[:port][/path]] whose scheme is "http" or "https" in any
    letter case and whose host is made of letters, digits, "." and "-",
    [_generate_cpid_from_endpoint] returns the MD5 digest of the host in
    lower case: neither the scheme, nor the port, nor the path, nor the
    letter case of the host changes the result, so two endpoints of one
    host always share a CPID. *)
Theorem generate_cpid_host_only :
  forall (lib : Lib) (sch host port path : string) (w : world),
    (forall u, lib_urlparse lib u = Urllib.urlparse u) ->
    is_http_scheme sch -> is_host host -> is_port_part port ->
    is_path_part path ->
    _generate_cpid_from_endpoint lib (sch ++ "://" ++ host ++ port ++ path) w =
      (Ok (MD5.hexdigest (encode_utf8 (Urllib.str_lower host))),
       add_log w creating_hash_record).
Proof.
  intros lib sch host port path w Hlib Hsch Hhost Hport Hpath.
  rewrite generate_cpid_run, Hlib.
  rewrite (urlparse_endpoint sch host port path Hsch Hhost Hport Hpath).
  cbn [Urllib.scheme Urllib.hostname].
  assert (Hin : str_in (Urllib.str_lower sch) ["http"; "https"] = true)
    by (apply str_in_http; exact Hsch).
  rewrite Hin. reflexivity.
Qed.

Lemma generate_cpid_host_only_witness :
  fst (_generate_cpid_from_endpoint sample_lib
         ("HTTPS" ++ "://" ++ "Cloud.Example.COM" ++ ":5000" ++ "/v3")
         empty_world) =
  fst (_generate_cpid_from_endpoint sample_lib
         ("http" ++ "://" ++ "cloud.example.com" ++ "" ++ "") empty_world).
Proof.
  rewrite (generate_cpid_host_only sample_lib "HTTPS" "Cloud.Example.COM"
             ":5000" "/v3" empty_world);
    [|reflexivity | right; reflexivity | split; [discriminate | reflexivity]
     | right; exists "5000"; split; reflexivity
     | right; exists "v3"; reflexivity].
  rewrite (generate_cpid_host_only sample_lib "http" "cloud.example.com"
             "" "" empty_world);
    [|reflexivity | left; reflexivity | split; [discriminate | reflexivity]
     | left; reflexivity | left; reflexivity].
  reflexivity.
Defined.
(* ================================================================= *)
(** ** The overrides of [generate_tempest_config] *)

Lemma str_split_pieces (c d : ascii) (s : string) :
  (Ascii.eqb d c = true \/ str_contains d s = false) ->
  Forall (fun x => str_contains d x = false) (str_split c s).
Proof.
  induction s as [|a s IH]; intros H; cbn [str_split].
  - repeat constructor.
  - assert (Hs : Ascii.eqb d c = true \/ str_contains d s = false).
    { destruct H as [H|H]; [left; exact H|]. right.
      cbn [str_contains] in H. destruct (Ascii.eqb a d); [discriminate | exact H]. }
    specialize (IH Hs).
    destruct (Ascii.eqb_spec a c) as [->|Hne].
    + constructor; [reflexivity | exact IH].
    + assert (Ha : Ascii.eqb a d = false).
      { destruct H as [H|H].
        - apply Ascii.eqb_eq in H. subst d. apply Ascii.eqb_neq. exact Hne.
        - cbn [str_contains] in H. destruct (Ascii.eqb a d); [discriminate|reflexivity]. }
      destruct (str_split c s) as [|h t].
      * repeat constructor. cbn [str_contains]. rewrite Ha. reflexivity.
      * inversion IH; subst. constructor; [|assumption].
        cbn [str_contains]. rewrite Ha. assumption.
Qed.

Lemma str_replace_absent (a b : ascii) (s : string) :
  Ascii.eqb b a = false -> str_contains a (str_replace a b s) = false.
Proof.
  intros Hab. induction s as [|c s IH]; [reflexivity|].
  cbn [str_replace str_contains]. rewrite IH.
  destruct (Ascii.eqb_spec c a) as [->|Hne].
  - rewrite Hab. reflexivity.
  - apply Ascii.eqb_neq in Hne. rewrite Hne. reflexivity.
Qed.

Lemma override_items_are_items (text : string) :
  Forall is_item (override_items text).
Proof.
  unfold override_items, is_item. apply Forall_and.
  - apply str_split_pieces. right. apply str_replace_absent. reflexivity.
  - apply str_split_pieces. left. reflexivity.
Qed.

(** X24.  The overrides handed to [parse_overrides].  Whatever
    [--overrides] holds, no item of the list holds a "=" or a ",".  With
    no [--overrides] (absent or empty) the list is the one pair
    [volume-feature-enabled.api_v2], [True].  Otherwise it is the items of
    the given text in order, followed by that pair unless the text
    contains [volume-feature-enabled.api_v2=True] as it is written: a
    text that sets the same key to another value still gets the pair
    appended after it. *)
Theorem tempest_overrides_spec :
  forall args_overrides : option string,
    let overrides := tempest_overrides args_overrides in
    Forall is_item overrides /\
    (no_key args_overrides ->
       overrides = ["volume-feature-enabled.api_v2"; "True"]) /\
    (forall text,
       args_overrides = Some text -> text <> "" ->
       overrides =
         if str_has cinder_overrides text then override_items text
         else (override_items text ++
               ["volume-feature-enabled.api_v2"; "True"])%list).
Proof.
  intros o overrides. subst overrides.
  assert (Hfmt : str_split "," (str_replace "=" "," cinder_overrides) =
                 ["volume-feature-enabled.api_v2"; "True"]) by reflexivity.
  split; [|split].
  - unfold tempest_overrides. rewrite Hfmt.
    assert (Hpair : Forall is_item ["volume-feature-enabled.api_v2"; "True"])
      by (repeat constructor).
    destruct o as [[|c s]|]; try exact Hpair.
    destruct (negb (str_has cinder_overrides (String c s)));
      [apply Forall_app; split; [|exact Hpair]|];
      apply override_items_are_items.
  - intros [-> | ->]; reflexivity.
  - intros text -> Hne. destruct text as [|c s]; [contradiction|].
    unfold tempest_overrides. rewrite Hfmt. fold (override_items (String c s)).
    destruct (str_has cinder_overrides (String c s)); reflexivity.
Qed.

(** The operator turns the option off; the hard-coded pair follows the
    operator's own. *)
Lemma tempest_overrides_spec_witness :
  tempest_overrides (Some "volume-feature-enabled.api_v2=False,a.b=c") =
    ["volume-feature-enabled.api_v2"; "False"; "a.b"; "c";
     "volume-feature-enabled.api_v2"; "True"].
Proof.
  destruct (tempest_overrides_spec
              (Some "volume-feature-enabled.api_v2=False,a.b=c"))
    as (_ & _ & H).
  rewrite (H _ eq_refl); [reflexivity | discriminate].
Defined.
